(** * Storefront SDK: the local/remote collection engine

    A shallow embedding of the cart and wishlist resources, the browser
    storage wrapper they persist to and the event emitter they publish on,
    followed by the properties of the engine.

    Conventions of the embedding.
    - JavaScript numbers that hold quantities, prices and identifiers are
      integers ([Z]); an instant is the millisecond count [Date.now()]
      returns, and an ISO timestamp is identified with the instant it prints.
    - [Date.now()], [new Date()], [Math.random()] and the HTTP backend are
      the environment: oracles indexed by the number of reads made so far.
    - An [async] method is run to completion; every [await] resolves before
      the next statement, as it does for a single caller.
    - A value read from storage is a fresh copy ([JSON.parse]), so in-place
      updates of the source become functional updates of the value read. *)

From Stdlib Require Import ZArith Ascii Sorted.
From stdpp Require Import base option list gmap strings pretty.

Local Open Scope Z_scope.

(** ** src/events.ts *)

Module Events.

(** A handler is a function object; [Set] membership compares function
    identity, so a handler is named by the identity of its closure. *)
Abbreviation handler := nat.

(** The [[SetData]] list of a JavaScript [Set]: insertion ordered, and
    [delete] leaves an empty slot so that a running [forEach] keeps its
    position. *)
Abbreviation SetData := (list (option handler)).

Definition set_has (s : SetData) (h : handler) : bool :=
  bool_decide (Some h ∈ s).

Definition set_add (s : SetData) (h : handler) : SetData :=
  if set_has s h then s else s ++ [Some h].

Definition set_delete (s : SetData) (h : handler) : SetData :=
  (λ e, if decide (e = Some h) then None else e) <$> s.

(** The live elements, in insertion order. *)
Definition set_values (s : SetData) : list handler := omap id s.

Definition set_size (s : SetData) : nat := length (set_values s).

(** [events : Map<string, Set<EventHandler>>].  The map holds references;
    the [Set] objects live in [heap], allocated at its end. *)
Record EventEmitter := {
  events : gmap string nat;
  heap : list SetData
}.

Definition empty : EventEmitter := {| events := ∅; heap := [] |}.

Definition deref (e : EventEmitter) (r : nat) : SetData :=
  default [] (heap e !! r).

(** [on(event, handler)]; the closure returned is [() => off(event, handler)],
    represented by the pair it captures. *)
Definition on (e : EventEmitter) (event : string) (h : handler)
  : EventEmitter * (string * handler) :=
  let e1 :=
    match events e !! event with
    | Some _ => e
    | None => {| events := <[event := length (heap e)]> (events e);
                 heap := heap e ++ [[]] |}
    end in
  let e2 :=
    match events e1 !! event with
    | Some r => {| events := events e1;
                   heap := <[r := set_add (deref e1 r) h]> (heap e1) |}
    | None => e1
    end in
  (e2, (event, h)).

Definition off (e : EventEmitter) (event : string) (h : handler)
  : EventEmitter :=
  match events e !! event with
  | Some r =>
      let handlers := set_delete (deref e r) h in
      let e1 := {| events := events e; heap := <[r := handlers]> (heap e) |} in
      if decide (set_size handlers = 0%nat)
      then {| events := delete event (events e1); heap := heap e1 |}
      else e1
  | None => e
  end.

(** Calling a closure returned by [on]. *)
Definition unsubscribe (e : EventEmitter) (u : string * handler)
  : EventEmitter := off e u.1 u.2.

(** [removeAllListeners(event?)].  The test [if (event)] fails for a
    missing argument and for the empty string: both clear the map. *)
Definition removeAllListeners (e : EventEmitter) (event : option string)
  : EventEmitter :=
  match event with
  | Some ev =>
      if decide (ev ≠ "")
      then {| events := delete ev (events e); heap := heap e |}
      else {| events := ∅; heap := heap e |}
  | None => {| events := ∅; heap := heap e |}
  end.

Definition listenerCount (e : EventEmitter) (event : string) : nat :=
  match events e !! event with
  | Some r => set_size (deref e r)
  | None => 0%nat
  end.

(** The handlers registered for [event], in registration order. *)
Definition listeners (e : EventEmitter) (event : string) : list handler :=
  match events e !! event with
  | Some r => set_values (deref e r)
  | None => []
  end.

(** What a handler does to the emitter when it runs: a sequence of
    calls back into the emitter, after which it returns or throws. *)
Inductive action :=
| CallOn (event : string) (h : handler)
| CallOff (event : string) (h : handler)
| CallRemoveAll (event : option string).

Record behaviour := {
  script : list action;
  throws : bool
}.

Definition perform (e : EventEmitter) (a : action) : EventEmitter :=
  match a with
  | CallOn ev h => (on e ev h).1
  | CallOff ev h => off e ev h
  | CallRemoveAll ev => removeAllListeners e ev
  end.

(** An action that leaves the subscriptions of [event] alone: a call on
    another event, which for [removeAllListeners] has to be named and not
    the empty string. *)
Definition quiet (event : string) (a : action) : Prop :=
  match a with
  | CallOn ev _ => ev ≠ event
  | CallOff ev _ => ev ≠ event
  | CallRemoveAll (Some ev) => ev ≠ event ∧ ev ≠ ""
  | CallRemoveAll None => False
  end.

(** One delivery: the handler called and whether [console.error]
    reported a throw. *)
Record delivery := {
  called : handler;
  logged_error : bool
}.

Section Emit.
Context {D : Type}.
(** The body of each handler, as a function of the data it receives. *)
Variable body : handler → D → behaviour.

(** Calling [h] inside the [try] of [emit]: the delivery it makes. *)
Definition deliver (data : D) (h : handler) : delivery :=
  {| called := h; logged_error := throws (body h data) |}.

Definition invoke (e : EventEmitter) (h : handler) (data : D)
  : EventEmitter * delivery :=
  (foldl perform e (script (body h data)), deliver data h).

(** [Set.prototype.forEach]: walk the entries of the [Set] object [r] by
    index, re-reading the object at every step, so entries appended by a
    callback are reached and emptied slots are skipped.  [None] is a walk
    that has not ended within [fuel] steps. *)
Fixpoint forEach (fuel : nat) (r index : nat) (data : D)
    (e : EventEmitter) (trace : list delivery)
  : option (EventEmitter * list delivery) :=
  match fuel with
  | O => None
  | S fuel' =>
      match deref e r !! index with
      | None => Some (e, trace)
      | Some None => forEach fuel' r (S index) data e trace
      | Some (Some h) =>
          let '(e', d) := invoke e h data in
          forEach fuel' r (S index) data e' (trace ++ [d])
      end
  end.

(** [emit(event, data)]. *)
Definition emit (fuel : nat) (e : EventEmitter) (event : string) (data : D)
  : option (EventEmitter * list delivery) :=
  match events e !! event with
  | Some r => forEach fuel r 0 data e []
  | None => Some (e, [])
  end.
End Emit.

(** Every reference of the map points into the heap, no [Set] object is
    shared by two events, and no [Set] holds a handler twice.  The empty
    emitter is well formed and every operation keeps it so. *)
Record wf (e : EventEmitter) : Prop := {
  wf_bound : ∀ ev r, events e !! ev = Some r → (r < length (heap e))%nat;
  wf_inj : ∀ ev1 ev2 r,
    events e !! ev1 = Some r → events e !! ev2 = Some r → ev1 = ev2;
  wf_nodup : ∀ r s, heap e !! r = Some s → NoDup (set_values s)
}.

End Events.


(** ** Sequencing

    A method of a resource reads and writes the world it lives in; it is a
    function from the world before the call to its result and the world
    after. *)

Definition State (W A : Type) : Type := W → A * W.

#[global] Instance State_ret {W} : MRet (State W) := λ A a w, (a, w).

#[global] Instance State_bind {W} : MBind (State W) :=
  λ A B f m w, f (m w).1 (m w).2.

(** ** Array methods used by the resources *)

Section Array.
Context {A : Type}.

(** [findIndex]: [None] stands for the result [-1]. *)
Definition findIndex (f : A → bool) (l : list A) : option nat :=
  fst <$> list_find (λ x, f x = true) l.

(** [find]: [None] stands for [undefined]. *)
Definition find (f : A → bool) (l : list A) : option A :=
  snd <$> list_find (λ x, f x = true) l.

Definition some (f : A → bool) (l : list A) : bool := existsb f l.

(** [reduce(step, init)]. *)
Definition reduce {B} (step : B → A → B) (init : B) (l : list A) : B :=
  foldl step init l.

(** [sort(compareFn)] for a comparator that is consistent: the sort is
    stable, an element moves in front of another only when the comparator
    is positive on the pair in their present order. *)
Fixpoint sort_insert (compareFn : A → A → Z) (x : A) (l : list A) : list A :=
  match l with
  | [] => [x]
  | y :: l' =>
      if decide (compareFn x y ≤ 0) then x :: y :: l'
      else y :: sort_insert compareFn x l'
  end.

Definition sort_by (compareFn : A → A → Z) (l : list A) : list A :=
  foldr (sort_insert compareFn) [] l.
End Array.

Arguments findIndex {A} f l : simpl never.
Arguments find {A} f l : simpl never.
Arguments some {A} f l : simpl never.
Arguments reduce {A B} step init l : simpl never.

(** ** src/storage.ts *)

Module BrowserStorage.

(** One [BrowserStorage<T>] and the slot of [localStorage] under its key.
    [available] is [isStorageAvailable()]; [writable] is whether [setItem]
    and [removeItem] go through without throwing; [item] is the value the
    slot decodes to, [None] when the slot is empty or does not parse. *)
Record t (T : Type) := {
  available : bool;
  writable : bool;
  item : option T
}.
Arguments available {T}.
Arguments writable {T}.
Arguments item {T}.

Definition get {T} (s : t T) : option T :=
  if available s then item s else None.

Definition set {T} (s : t T) (value : T) : bool * t T :=
  if available s then
    if writable s
    then (true, {| available := true; writable := true; item := Some value |})
    else (false, s)
  else (false, s).

Definition remove {T} (s : t T) : bool * t T :=
  if available s then
    if writable s
    then (true, {| available := true; writable := true; item := None |})
    else (false, s)
  else (false, s).

Definition clear {T} (s : t T) : bool * t T := remove s.

(** A browser whose slot is empty. *)
Definition fresh {T} : t T :=
  {| available := true; writable := true; item := None |}.

End BrowserStorage.

(** ** src/types.ts *)

Module Product.
(** The fields of a product the engine reads; the others are carried
    along untouched. *)
Record t := {
  id : Z;
  title : string;
  price : Z
}.
End Product.

(** Change events: the topic and the object passed to [emit].  [I] is the
    entry type, [C] the collection type. *)
Inductive payload (I C : Type) :=
| WithItem (item : option I) (collection : C)
| WithItemId (itemId : string) (collection : C)
| Bare (collection : C).
Arguments WithItem {I C}.
Arguments WithItemId {I C}.
Arguments Bare {I C}.

Record Event (I C : Type) := {
  topic : string;
  data : payload I C
}.
Arguments topic {I C}.
Arguments data {I C}.

Definition collection_of {I C} (p : payload I C) : C :=
  match p with
  | WithItem _ c => c
  | WithItemId _ c => c
  | Bare c => c
  end.

Module CartItem.
Record t := {
  id : string;
  product : Product.t;
  quantity : Z;
  price : Z
}.
End CartItem.

Module Cart.
Record t := {
  id : string;
  items : list CartItem.t;
  subtotal : Z;
  total_items : Z;
  created_at : Z;
  updated_at : Z
}.
End Cart.

(** ** src/resources/cart.ts *)

Module CartLineInput.
Record t := {
  product_id : Z;
  variant_id : Z;
  quantity : Z;
  unit_price : Z
}.
End CartLineInput.

Module CartDataInput.
Record t := {
  total : Z;
  items : list CartLineInput.t;
  quantity : Z
}.
End CartDataInput.

(** A [POST] sent through [this.client]: the path and the body. *)
Module CartPost.
Record t := {
  path : string;
  session_id : string;
  data : CartDataInput.t
}.
End CartPost.

Module CartResource.

(** The environment of a cart: the clock, the random source, and the
    backend's answer to the n-th request.  [R] is [ApiResponse<RemoteCart>];
    the resource hands it to its caller without looking inside. *)
Record Env (R : Type) := {
  now : nat → Z;
  random : nat → string;
  reply : nat → R
}.
Arguments now {R}.
Arguments random {R}.
Arguments reply {R}.

Record World := {
  storage : BrowserStorage.t Cart.t;
  clock : nat;
  dice : nat;
  emitted : list (Event CartItem.t Cart.t);
  requests : list CartPost.t
}.

(** A first visit: nothing stored, nothing read, nothing published. *)
Definition fresh : World :=
  {| storage := BrowserStorage.fresh; clock := 0; dice := 0;
     emitted := []; requests := [] |}.

Section Methods.
Context {R : Type}.
Variable env : Env R.

Definition storage_get : State World (option Cart.t) :=
  λ w, (BrowserStorage.get (storage w), w).

Definition storage_set (value : Cart.t) : State World bool :=
  λ w, let r := BrowserStorage.set (storage w) value in
       (r.1, {| storage := r.2; clock := clock w; dice := dice w;
                emitted := emitted w; requests := requests w |}).

(** [Date.now()] and [new Date()]: one reading of the clock. *)
Definition Date_now : State World Z :=
  λ w, (now env (clock w),
        {| storage := storage w; clock := S (clock w); dice := dice w;
           emitted := emitted w; requests := requests w |}).

(** [Math.random().toString(36).substring(2, 15)]. *)
Definition Math_random : State World string :=
  λ w, (random env (dice w),
        {| storage := storage w; clock := clock w; dice := S (dice w);
           emitted := emitted w; requests := requests w |}).

(** [this.eventEmitter.emit(topic, data)]. *)
Definition eventEmitter_emit (topic : string)
    (data : payload CartItem.t Cart.t) : State World unit :=
  λ w, (tt, {| storage := storage w; clock := clock w; dice := dice w;
               emitted := emitted w ++ [{| topic := topic; data := data |}];
               requests := requests w |}).

(** [this.client.post('/carts', body)]. *)
Definition client_post (body : CartPost.t) : State World R :=
  λ w, (reply env (length (requests w)),
        {| storage := storage w; clock := clock w; dice := dice w;
           emitted := emitted w; requests := requests w ++ [body] |}).

Definition generateCartId : State World string :=
  t ← Date_now; r ← Math_random;
  mret ("cart_" +:+ pretty t +:+ "_" +:+ r).

Definition generateItemId : State World string :=
  t ← Date_now; r ← Math_random;
  mret ("item_" +:+ pretty t +:+ "_" +:+ r).

Definition generateSessionId : State World string :=
  t ← Date_now; r ← Math_random;
  mret ("session_" +:+ pretty t +:+ "_" +:+ r).

Definition createEmptyCart : State World Cart.t :=
  id ← generateCartId;
  created ← Date_now;
  updated ← Date_now;
  mret {| Cart.id := id; Cart.items := []; Cart.subtotal := 0;
          Cart.total_items := 0; Cart.created_at := created;
          Cart.updated_at := updated |}.

Definition with_items (cart : Cart.t) (items : list CartItem.t) : Cart.t :=
  {| Cart.id := Cart.id cart; Cart.items := items;
     Cart.subtotal := Cart.subtotal cart;
     Cart.total_items := Cart.total_items cart;
     Cart.created_at := Cart.created_at cart;
     Cart.updated_at := Cart.updated_at cart |}.

Definition updateCartTotals (cart : Cart.t) : State World Cart.t :=
  let subtotal :=
    reduce (λ total item, total + CartItem.price item * CartItem.quantity item)
           0 (Cart.items cart) in
  let total_items :=
    reduce (λ total item, total + CartItem.quantity item) 0 (Cart.items cart) in
  updated ← Date_now;
  mret {| Cart.id := Cart.id cart; Cart.items := Cart.items cart;
          Cart.subtotal := subtotal; Cart.total_items := total_items;
          Cart.created_at := Cart.created_at cart;
          Cart.updated_at := updated |}.

Definition get : State World Cart.t :=
  cart ← storage_get;
  match cart with
  | None => createEmptyCart
  | Some cart => mret cart
  end.

(** [addItem(product, quantity = 1)]. *)
Definition addItem (product : Product.t) (quantity : Z) : State World Cart.t :=
  cart ← get;
  let existingItemIndex :=
    findIndex (λ item, bool_decide
      (Product.id (CartItem.product item) = Product.id product))
      (Cart.items cart) in
  cart ← match existingItemIndex with
         | Some i =>
             mret (with_items cart (alter (λ item,
               {| CartItem.id := CartItem.id item;
                  CartItem.product := CartItem.product item;
                  CartItem.quantity := CartItem.quantity item + quantity;
                  CartItem.price := Product.price product |}) i
               (Cart.items cart)))
         | None =>
             id ← generateItemId;
             mret (with_items cart (Cart.items cart ++
               [{| CartItem.id := id; CartItem.product := product;
                   CartItem.quantity := quantity;
                   CartItem.price := Product.price product |}]))
         end;
  updatedCart ← updateCartTotals cart;
  _ ← storage_set updatedCart;
  _ ← eventEmitter_emit "cart:item:added"
        (WithItem
           (Cart.items updatedCart !!
              match existingItemIndex with
              | Some i => i
              | None => pred (length (Cart.items updatedCart))
              end)
           updatedCart);
  mret updatedCart.

Definition removeItem (itemId : string) : State World Cart.t :=
  cart ← get;
  match find (λ item, bool_decide (CartItem.id item = itemId))
             (Cart.items cart) with
  | Some _ =>
      updatedCart ← updateCartTotals
        (with_items cart
           (filter (λ item, CartItem.id item ≠ itemId) (Cart.items cart)));
      _ ← storage_set updatedCart;
      _ ← eventEmitter_emit "cart:item:removed"
            (WithItemId itemId updatedCart);
      mret updatedCart
  | None => mret cart
  end.

Definition removeProduct (productId : Z) : State World Cart.t :=
  cart ← get;
  match find (λ item, bool_decide
                (Product.id (CartItem.product item) = productId))
             (Cart.items cart) with
  | Some itemToRemove => removeItem (CartItem.id itemToRemove)
  | None => mret cart
  end.

Definition updateItemQuantity (itemId : string) (quantity : Z)
  : State World Cart.t :=
  if decide (quantity ≤ 0) then removeItem itemId
  else
    cart ← get;
    match findIndex (λ item, bool_decide (CartItem.id item = itemId))
                    (Cart.items cart) with
    | Some itemIndex =>
        updatedCart ← updateCartTotals
          (with_items cart (alter (λ item,
             {| CartItem.id := CartItem.id item;
                CartItem.product := CartItem.product item;
                CartItem.quantity := quantity;
                CartItem.price := CartItem.price item |}) itemIndex
             (Cart.items cart)));
        _ ← storage_set updatedCart;
        _ ← eventEmitter_emit "cart:item:updated"
              (WithItem (Cart.items updatedCart !! itemIndex) updatedCart);
        mret updatedCart
    | None => mret cart
    end.

Definition clear : State World Cart.t :=
  emptyCart ← createEmptyCart;
  _ ← storage_set emptyCart;
  _ ← eventEmitter_emit "cart:cleared" (Bare emptyCart);
  mret emptyCart.

Definition getItemCount : State World Z :=
  cart ← get;
  mret (reduce (λ total item, total + CartItem.quantity item) 0
               (Cart.items cart)).

Definition getUniqueItemCount : State World nat :=
  cart ← get; mret (length (Cart.items cart)).

Definition hasProduct (productId : Z) : State World bool :=
  cart ← get;
  mret (some (λ item, bool_decide
                (Product.id (CartItem.product item) = productId))
             (Cart.items cart)).

Definition getSubtotal : State World Z :=
  cart ← get; mret (Cart.subtotal cart).

(** [syncToRemote()]: the one method modelled here that talks to the
    backend ([loadFromRemote] and the [...RemoteCart] methods are not part
    of the local engine). *)
Definition syncToRemote : State World R :=
  cart ← get;
  let cartData :=
    {| CartDataInput.total := Cart.subtotal cart;
       CartDataInput.quantity := Cart.total_items cart;
       CartDataInput.items :=
         (λ item, {| CartLineInput.product_id :=
                       Product.id (CartItem.product item);
                     CartLineInput.variant_id :=
                       Product.id (CartItem.product item);
                     CartLineInput.quantity := CartItem.quantity item;
                     CartLineInput.unit_price := CartItem.price item |})
         <$> Cart.items cart |} in
  session ← generateSessionId;
  client_post {| CartPost.path := "/carts"; CartPost.session_id := session;
                 CartPost.data := cartData |}.

(** The mutation entry points of the cart. *)
Inductive Mutation :=
| AddItem (product : Product.t) (quantity : Z)
| RemoveItem (itemId : string)
| UpdateItemQuantity (itemId : string) (quantity : Z)
| Clear.

Definition call (m : Mutation) : State World Cart.t :=
  match m with
  | AddItem product quantity => addItem product quantity
  | RemoveItem itemId => removeItem itemId
  | UpdateItemQuantity itemId quantity => updateItemQuantity itemId quantity
  | Clear => clear
  end.

(** A session: the calls made one after another, with what each returned
    and the world it left. *)
Fixpoint session (ms : list Mutation) (w : World) : list (Cart.t * World) :=
  match ms with
  | [] => []
  | m :: ms' => call m w :: session ms' (call m w).2
  end.

End Methods.

Arguments get : simpl never.
Arguments removeItem : simpl never.

End CartResource.

(** ** src/resources/wishlist.ts *)

Module WishlistItem.
Record t := {
  id : string;
  product : Product.t;
  added_at : Z
}.
End WishlistItem.

Module Wishlist.
Record t := {
  items : list WishlistItem.t;
  total_items : Z;
  updated_at : Z
}.
End Wishlist.

Module WishlistResource.

(** The calls made through [this.generic]. *)
Inductive Request :=
| GET (path key : string) (kind limit : Z)
| POST (path key : string) (kind : Z) (data : Wishlist.t).

(** What [await this.generic.get(...)] yields.  [Rejected]: the promise
    rejects (no network, an HTTP error, a body that does not decode).
    [Resolved state_ok result data]: [state === 'ok'], the truthiness of
    [result], and [data] when it is an array, each record given by its
    [data] field read as a wishlist ([None] when that field is missing).
    This is the reply as its declared type [Wishlist] has it: the records
    hold a wishlist or nothing.  The code casts and checks nothing;
    [WishlistRead] below has the reading methods on every value a record
    can hold, and [ReadFacts.get_of_world] relates the two. *)
Inductive Reply :=
| Rejected
| Resolved (state_ok result : bool) (data : option (list (option Wishlist.t))).

(** What [getRemoteWishlist] makes of a reply, inside its [try]:
    [response.data[0].data] when [state === 'ok'], [result] is truthy and
    [data] has a first record; [null] otherwise, also when reading [data]
    throws. *)
Definition first_snapshot (response : Reply) : option Wishlist.t :=
  match response with
  | Resolved true true (Some (first :: _)) => first
  | _ => None
  end.

Record Env := {
  now : nat → Z;
  random : nat → string;
  reply : nat → Reply;
  localeCompare : string → string → Z
}.

Record World := {
  storage : BrowserStorage.t Wishlist.t;
  userId : option Z;
  clock : nat;
  dice : nat;
  fetches : nat;
  emitted : list (Event WishlistItem.t Wishlist.t);
  requests : list Request
}.

Definition fresh : World :=
  {| storage := BrowserStorage.fresh; userId := None; clock := 0; dice := 0;
     fetches := 0; emitted := []; requests := [] |}.

Definition wishlistKind : Z := 2.

(** [setUserId(userId)]. *)
Definition setUserId (u : Z) : State World unit :=
  λ w, (tt, {| storage := storage w; userId := Some u; clock := clock w;
               dice := dice w; fetches := fetches w; emitted := emitted w;
               requests := requests w |}).

(** The owner the remote methods see: [!this.userId] holds for an unset
    identity and for [0]. *)
Definition owner (w : World) : option Z :=
  match userId w with
  | Some u => if decide (u = 0) then None else Some u
  | None => None
  end.

Section Methods.
Variable env : Env.

Definition storage_get : State World (option Wishlist.t) :=
  λ w, (BrowserStorage.get (storage w), w).

Definition storage_set (value : Wishlist.t) : State World bool :=
  λ w, let r := BrowserStorage.set (storage w) value in
       (r.1, {| storage := r.2; userId := userId w; clock := clock w;
                dice := dice w; fetches := fetches w; emitted := emitted w;
                requests := requests w |}).

Definition Date_now : State World Z :=
  λ w, (now env (clock w),
        {| storage := storage w; userId := userId w; clock := S (clock w);
           dice := dice w; fetches := fetches w; emitted := emitted w;
           requests := requests w |}).

(** [Math.random().toString(36).substr(2, 9)]. *)
Definition Math_random : State World string :=
  λ w, (random env (dice w),
        {| storage := storage w; userId := userId w; clock := clock w;
           dice := S (dice w); fetches := fetches w; emitted := emitted w;
           requests := requests w |}).

Definition eventEmitter_emit (topic : string)
    (data : payload WishlistItem.t Wishlist.t) : State World unit :=
  λ w, (tt, {| storage := storage w; userId := userId w; clock := clock w;
               dice := dice w; fetches := fetches w;
               emitted := emitted w ++ [{| topic := topic; data := data |}];
               requests := requests w |}).

(** [await this.generic.get(path, {key, kind, limit})]. *)
Definition generic_get (path key : string) (kind limit : Z)
  : State World Reply :=
  λ w, (reply env (fetches w),
        {| storage := storage w; userId := userId w; clock := clock w;
           dice := dice w; fetches := S (fetches w); emitted := emitted w;
           requests := requests w ++ [GET path key kind limit] |}).

(** [await this.generic.post(path, {key, kind, data})] inside its
    [try]: whether it resolves or rejects, the method goes on. *)
Definition generic_post (path key : string) (kind : Z) (data : Wishlist.t)
  : State World unit :=
  λ w, (tt, {| storage := storage w; userId := userId w; clock := clock w;
               dice := dice w; fetches := fetches w; emitted := emitted w;
               requests := requests w ++ [POST path key kind data] |}).

Definition this_owner : State World (option Z) := λ w, (owner w, w).

Definition getRemoteWishlist : State World (option Wishlist.t) :=
  u ← this_owner;
  match u with
  | None => mret None
  | Some u =>
      response ← generic_get "/generis" ("wishlist_" +:+ pretty u)
                             wishlistKind 1;
      mret (first_snapshot response)
  end.

Definition saveToRemote (wishlist : Wishlist.t) : State World unit :=
  u ← this_owner;
  match u with
  | None => mret tt
  | Some u =>
      generic_post "/generis" ("wishlist_" +:+ pretty u) wishlistKind wishlist
  end.

Definition createEmptyWishlist : State World Wishlist.t :=
  updated ← Date_now;
  mret {| Wishlist.items := []; Wishlist.total_items := 0;
          Wishlist.updated_at := updated |}.

Definition with_items (wishlist : Wishlist.t) (items : list WishlistItem.t)
  : Wishlist.t :=
  {| Wishlist.items := items;
     Wishlist.total_items := Wishlist.total_items wishlist;
     Wishlist.updated_at := Wishlist.updated_at wishlist |}.

Definition updateWishlistMeta (wishlist : Wishlist.t) : State World Wishlist.t :=
  updated ← Date_now;
  mret {| Wishlist.items := Wishlist.items wishlist;
          Wishlist.total_items := Z.of_nat (length (Wishlist.items wishlist));
          Wishlist.updated_at := updated |}.

Definition generateItemId : State World string :=
  t ← Date_now; r ← Math_random;
  mret ("wishlist_" +:+ pretty t +:+ "_" +:+ r).

Definition getLocal : State World Wishlist.t :=
  wishlist ← storage_get;
  match wishlist with
  | None => createEmptyWishlist
  | Some wishlist => mret wishlist
  end.

Definition get : State World Wishlist.t :=
  remoteWishlist ← getRemoteWishlist;
  match remoteWishlist with
  | Some remoteWishlist =>
      _ ← storage_set remoteWishlist; mret remoteWishlist
  | None =>
      localWishlist ← storage_get;
      match localWishlist with
      | None => createEmptyWishlist
      | Some localWishlist => mret localWishlist
      end
  end.

Definition hasProduct (productId : Z) : State World bool :=
  wishlist ← get;
  mret (some (λ item, bool_decide
                (Product.id (WishlistItem.product item) = productId))
             (Wishlist.items wishlist)).

Definition addItem (product : Product.t) : State World Wishlist.t :=
  wishlist ← get;
  present ← hasProduct (Product.id product);
  if present : bool then mret wishlist
  else
    id ← generateItemId;
    added ← Date_now;
    let newItem := {| WishlistItem.id := id; WishlistItem.product := product;
                      WishlistItem.added_at := added |} in
    updatedWishlist ← updateWishlistMeta
      (with_items wishlist (Wishlist.items wishlist ++ [newItem]));
    _ ← storage_set updatedWishlist;
    _ ← saveToRemote updatedWishlist;
    _ ← eventEmitter_emit "wishlist:item:added"
          (WithItem (Some newItem) updatedWishlist);
    mret updatedWishlist.

Definition removeItem (itemId : string) : State World Wishlist.t :=
  wishlist ← get;
  updatedWishlist ← updateWishlistMeta
    (with_items wishlist
       (filter (λ item, WishlistItem.id item ≠ itemId)
               (Wishlist.items wishlist)));
  _ ← storage_set updatedWishlist;
  _ ← saveToRemote updatedWishlist;
  _ ← eventEmitter_emit "wishlist:item:removed"
        (WithItemId itemId updatedWishlist);
  mret updatedWishlist.

Definition removeProduct (productId : Z) : State World Wishlist.t :=
  wishlist ← get;
  match find (λ item, bool_decide
                (Product.id (WishlistItem.product item) = productId))
             (Wishlist.items wishlist) with
  | Some itemToRemove => removeItem (WishlistItem.id itemToRemove)
  | None => mret wishlist
  end.

Definition toggleProduct (product : Product.t)
  : State World (Wishlist.t * bool) :=
  present ← hasProduct (Product.id product);
  if present : bool then
    wishlist ← removeProduct (Product.id product); mret (wishlist, false)
  else
    wishlist ← addItem product; mret (wishlist, true).

Definition clear : State World Wishlist.t :=
  emptyWishlist ← createEmptyWishlist;
  _ ← storage_set emptyWishlist;
  _ ← saveToRemote emptyWishlist;
  _ ← eventEmitter_emit "wishlist:cleared" (Bare emptyWishlist);
  mret emptyWishlist.

Definition getItemCount : State World nat :=
  wishlist ← get; mret (length (Wishlist.items wishlist)).

(** [sort(compareFn?)]; without a comparator, newest first. *)
Definition sort (compareFn : option (WishlistItem.t → WishlistItem.t → Z))
  : State World Wishlist.t :=
  wishlist ← get;
  let sorted :=
    match compareFn with
    | Some compareFn => sort_by compareFn (Wishlist.items wishlist)
    | None =>
        sort_by (λ a b, WishlistItem.added_at b - WishlistItem.added_at a)
                (Wishlist.items wishlist)
    end in
  updatedWishlist ← updateWishlistMeta (with_items wishlist sorted);
  _ ← storage_set updatedWishlist;
  _ ← saveToRemote updatedWishlist;
  mret updatedWishlist.

Definition sortByName (ascending : bool) : State World Wishlist.t :=
  sort (Some (λ a b,
    let comparison :=
      localeCompare env (Product.title (WishlistItem.product a))
                        (Product.title (WishlistItem.product b)) in
    if ascending then comparison else - comparison)).

Definition sortByPrice (ascending : bool) : State World Wishlist.t :=
  sort (Some (λ a b,
    let comparison :=
      Product.price (WishlistItem.product a)
      - Product.price (WishlistItem.product b) in
    if ascending then comparison else - comparison)).

Definition sortByDateAdded (ascending : bool) : State World Wishlist.t :=
  sort (Some (λ a b,
    let comparison := WishlistItem.added_at a - WishlistItem.added_at b in
    if ascending then comparison else - comparison)).

Definition syncFromRemote : State World Wishlist.t :=
  remoteWishlist ← getRemoteWishlist;
  match remoteWishlist with
  | Some remoteWishlist =>
      _ ← storage_set remoteWishlist; mret remoteWishlist
  | None => getLocal
  end.

Definition syncToRemote : State World unit :=
  localWishlist ← getLocal; saveToRemote localWishlist.

Definition hasProductLocal (productId : Z) : State World bool :=
  wishlist ← getLocal;
  mret (some (λ item, bool_decide
                (Product.id (WishlistItem.product item) = productId))
             (Wishlist.items wishlist)).

(** The mutation entry points of the wishlist. *)
Inductive Mutation :=
| AddItem (product : Product.t)
| RemoveItem (itemId : string)
| RemoveProduct (productId : Z)
| ToggleProduct (product : Product.t)
| Clear.

Definition call (m : Mutation) : State World Wishlist.t :=
  match m with
  | AddItem product => addItem product
  | RemoveItem itemId => removeItem itemId
  | RemoveProduct productId => removeProduct productId
  | ToggleProduct product => r ← toggleProduct product; mret r.1
  | Clear => clear
  end.

Fixpoint session (ms : list Mutation) (w : World)
  : list (Wishlist.t * World) :=
  match ms with
  | [] => []
  | m :: ms' => call m w :: session ms' (call m w).2
  end.

(** The sort entry points. *)
Inductive Sort :=
| SortWith (compareFn : option (WishlistItem.t → WishlistItem.t → Z))
| SortByName (ascending : bool)
| SortByPrice (ascending : bool)
| SortByDateAdded (ascending : bool).

Definition call_sort (s : Sort) : State World Wishlist.t :=
  match s with
  | SortWith compareFn => sort compareFn
  | SortByName ascending => sortByName ascending
  | SortByPrice ascending => sortByPrice ascending
  | SortByDateAdded ascending => sortByDateAdded ascending
  end.

End Methods.

Arguments getRemoteWishlist : simpl never.
Arguments saveToRemote : simpl never.
Arguments get : simpl never.
Arguments getLocal : simpl never.
Arguments hasProduct : simpl never.
Arguments addItem : simpl never.
Arguments removeItem : simpl never.
Arguments removeProduct : simpl never.

End WishlistResource.

(** ** [EventEmitter.once]  (src/events.ts)

    [once(event, handler)] wraps [handler] in a new closure and registers
    the closure.  The closure is a handler like any other; [k] is the
    identity the new function object gets. *)

Module Once.
Import Events.
Section Once.
Context {D : Type}.

(** [onceHandler]: [handler(data); this.off(event, onceHandler)].  A throw
    of [handler] leaves the closure before the [off]. *)
Definition onceHandler (event : string) (k : handler)
    (inner : D → behaviour) (data : D) : behaviour :=
  {| script := script (inner data)
               ++ (if throws (inner data) then [] else [CallOff event k]);
     throws := throws (inner data) |}.

(** [once(event, handler)]: the table of handler bodies gains the closure,
    and the closure is subscribed with [on]. *)
Definition once (body : handler → D → behaviour) (e : EventEmitter)
    (event : string) (k : handler) (inner : D → behaviour)
  : (handler → D → behaviour) * EventEmitter :=
  (λ h, if decide (h = k) then onceHandler event k inner else body h,
   (on e event k).1).
End Once.
End Once.

(** ** [window.localStorage]

    The entries are kept in the order [Object.keys] lists them, which the
    platform leaves to the browser; nothing below depends on that order.
    [setItem] and [removeItem] return [None] when they throw. *)

Module LocalStorage.

Record t := {
  present : bool;
  writable : bool;
  entries : list (string * string)
}.

Fixpoint lookup_entry (k : string) (l : list (string * string))
  : option string :=
  match l with
  | [] => None
  | (k', v) :: l' => if decide (k' = k) then Some v else lookup_entry k l'
  end.

Fixpoint put_entry (k v : string) (l : list (string * string))
  : list (string * string) :=
  match l with
  | [] => [(k, v)]
  | (k', v') :: l' =>
      if decide (k' = k) then (k, v) :: l' else (k', v') :: put_entry k v l'
  end.

Definition getItem (ls : t) (k : string) : option string :=
  lookup_entry k (entries ls).

Definition setItem (ls : t) (k v : string) : option t :=
  if writable ls
  then Some {| present := present ls; writable := writable ls;
               entries := put_entry k v (entries ls) |}
  else None.

Definition removeItem (ls : t) (k : string) : option t :=
  if writable ls
  then Some {| present := present ls; writable := writable ls;
               entries := filter (λ kv, kv.1 ≠ k) (entries ls) |}
  else None.

(** [Object.keys(localStorage)]. *)
Definition keys (ls : t) : list string := (entries ls).*1.

End LocalStorage.

(** [String.prototype.replace] with a string pattern: the first occurrence
    of [pattern] gives way to [replacement]. *)
Fixpoint string_drop (n : nat) (s : string) : string :=
  match n, s with
  | O, _ => s
  | S n', String _ s' => string_drop n' s'
  | S _, EmptyString => EmptyString
  end.

Fixpoint replace (pattern replacement s : string) : string :=
  if String.prefix pattern s
  then replacement +:+ string_drop (String.length pattern) s
  else match s with
       | EmptyString => EmptyString
       | String c s' => String c (replace pattern replacement s')
       end.

(** ** [BrowserStorage<T>] and [StorageManager] over [localStorage]
    (src/storage.ts) *)

Module Storage.
Import LocalStorage.

(** The private fields of a [BrowserStorage]. *)
Record BrowserStorage := {
  key : string;
  prefix : string
}.

Section Storage.
Context {T : Type}.
(** [JSON.stringify] on the values of [T], and [JSON.parse], which throws
    on text that is no JSON ([None]). *)
Variable stringify : T → string.
Variable parse : string → option T.

Definition getStorageKey (this : BrowserStorage) : string :=
  prefix this +:+ ":" +:+ key this.

Definition isStorageAvailable (ls : LocalStorage.t) : bool := present ls.

Definition get (this : BrowserStorage) (ls : LocalStorage.t) : option T :=
  if isStorageAvailable ls then
    match getItem ls (getStorageKey this) with
    | None => None
    | Some item => parse item
    end
  else None.

Definition set (this : BrowserStorage) (ls : LocalStorage.t) (value : T)
  : bool * LocalStorage.t :=
  if isStorageAvailable ls then
    match setItem ls (getStorageKey this) (stringify value) with
    | Some ls' => (true, ls')
    | None => (false, ls)
    end
  else (false, ls).

Definition remove (this : BrowserStorage) (ls : LocalStorage.t)
  : bool * LocalStorage.t :=
  if isStorageAvailable ls then
    match removeItem ls (getStorageKey this) with
    | Some ls' => (true, ls')
    | None => (false, ls)
    end
  else (false, ls).

Definition clear (this : BrowserStorage) (ls : LocalStorage.t)
  : bool * LocalStorage.t := remove this ls.

(** What the engines see of [localStorage] through one [BrowserStorage]:
    the one-slot store of [BrowserStorage.t]. *)
Definition slot (this : BrowserStorage) (ls : LocalStorage.t)
  : BrowserStorage.t T :=
  {| BrowserStorage.available := present ls;
     BrowserStorage.writable := writable ls;
     BrowserStorage.item := getItem ls (getStorageKey this) ≫= parse |}.
End Storage.

(** [StorageManager], a manager being its [prefix]. *)
Definition createStorage (manager : string) (key : string) : BrowserStorage :=
  {| key := key; prefix := manager |}.

(** One round of the [forEach] of [clearAll]; the flag is down once
    [removeItem] has thrown. *)
Definition clearAll_step (prefixPattern : string)
    (acc : LocalStorage.t * bool) (key : string) : LocalStorage.t * bool :=
  if acc.2 then
    if String.prefix prefixPattern key then
      match removeItem acc.1 key with
      | Some ls' => (ls', true)
      | None => (acc.1, false)
      end
    else acc
  else acc.

Definition clearAll (manager : string) (ls : LocalStorage.t)
  : bool * LocalStorage.t :=
  if present ls then
    let keys := LocalStorage.keys ls in
    let prefixPattern := manager +:+ ":" in
    let acc := foldl (clearAll_step prefixPattern) (ls, true) keys in
    (acc.2, acc.1)
  else (false, ls).

Definition getAllKeys (manager : string) (ls : LocalStorage.t)
  : list string :=
  if present ls then
    let keys := LocalStorage.keys ls in
    let prefixPattern := manager +:+ ":" in
    (λ key, replace prefixPattern "" key)
      <$> filter (λ key, String.prefix prefixPattern key = true) keys
  else [].

(** A string without [:]. *)
Fixpoint colon_free (s : string) : bool :=
  match s with
  | EmptyString => true
  | String c s' => if decide (c = ":"%char) then false else colon_free s'
  end.

End Storage.

(** ** The remaining accessors of the cart  (src/resources/cart.ts) *)

Module CartAccessors.
Import CartResource.
Section CartAccessors.
Context {R : Type}.
Variable env : Env R.

Definition getItem (productId : Z) : State World (option CartItem.t) :=
  cart ← get env;
  mret (find (λ item, bool_decide
                (Product.id (CartItem.product item) = productId))
             (Cart.items cart)).

Definition isEmpty : State World bool :=
  cart ← get env;
  mret (bool_decide (length (Cart.items cart) = 0%nat)).
End CartAccessors.
End CartAccessors.

(** ** The remote cart  (src/resources/cart.ts)

    The methods that edit a cart kept by the backend: they fetch the cart,
    change its lines, recompute its totals and send it back. *)

Module CartLineItem.
Record t := {
  product_id : Z;
  variant_id : Z;
  quantity : Z;
  unit_price : Z;
  product : option Product.t
}.
End CartLineItem.

Module CartData.
Record t := {
  total : Z;
  items : list CartLineItem.t;
  quantity : Z
}.
End CartData.

Module RemoteCart.
Record t := {
  id : string;
  user_id : option Z;
  session_id : option string;
  data : CartData.t;
  created_at : string;
  updated_at : string
}.
End RemoteCart.

Module CartInput.
Record t := {
  user_id : option Z;
  session_id : option string;
  data : CartData.t
}.
End CartInput.

Module RemoteCartResource.

Inductive Request :=
| GET (path : string)
| PUT (path : string) (input : CartInput.t).

(** [ApiResponse<RemoteCart>]; [state_ok] is [state === 'ok']. *)
Record ApiResponse := {
  state_ok : bool;
  result : option RemoteCart.t
}.

(** How the promise of a request settles. *)
Inductive Settled :=
| Rejected
| Resolved (response : ApiResponse).

(** The backend's answer to the n-th request. *)
Record Env := {
  reply : nat → Settled
}.

(** The world of these methods is the list of requests sent so far. *)
Section Methods.
Variable env : Env.

Definition client_get (path : string) : State (list Request) Settled :=
  λ rq, (reply env (length rq), rq ++ [GET path]).

Definition client_put (path : string) (input : CartInput.t)
  : State (list Request) Settled :=
  λ rq, (reply env (length rq), rq ++ [PUT path input]).

Definition updateRemoteCart (cartId : string) (input : CartInput.t)
  : State (list Request) Settled :=
  client_put ("/carts/" +:+ cartId) input.

(** [currentCart.state === 'ok' && currentCart.result]. *)
Definition usable (response : ApiResponse) : option RemoteCart.t :=
  if state_ok response then result response else None.

Definition error : Settled :=
  Resolved {| state_ok := false; result := None |}.

(** The two [reduce] calls that recompute the totals, and the [CartInput]
    sent back. *)
Definition recalculated (current : RemoteCart.t)
    (items : list CartLineItem.t) : CartInput.t :=
  {| CartInput.user_id := RemoteCart.user_id current;
     CartInput.session_id := RemoteCart.session_id current;
     CartInput.data :=
       {| CartData.total :=
            reduce (λ sum item, sum + CartLineItem.unit_price item
                                      * CartLineItem.quantity item) 0 items;
          CartData.items := items;
          CartData.quantity :=
            reduce (λ sum item, sum + CartLineItem.quantity item) 0 items |}
  |}.

Definition same_line (productId variantId : Z) (item : CartLineItem.t)
  : bool :=
  bool_decide (CartLineItem.product_id item = productId)
  && bool_decide (CartLineItem.variant_id item = variantId).

Definition addItemToRemoteCart (cartId : string) (productId variantId : Z)
    (quantity price : Z) : State (list Request) Settled :=
  currentCart ← client_get ("/carts/" +:+ cartId);
  match currentCart with
  | Rejected => mret Rejected
  | Resolved response =>
      match usable response with
      | Some current =>
          let cartData := RemoteCart.data current in
          let items :=
            match findIndex (same_line productId variantId)
                            (CartData.items cartData) with
            | Some existingItemIndex =>
                alter (λ item,
                  {| CartLineItem.product_id := CartLineItem.product_id item;
                     CartLineItem.variant_id := CartLineItem.variant_id item;
                     CartLineItem.quantity :=
                       CartLineItem.quantity item + quantity;
                     CartLineItem.unit_price := CartLineItem.unit_price item;
                     CartLineItem.product := CartLineItem.product item |})
                  existingItemIndex (CartData.items cartData)
            | None =>
                CartData.items cartData
                ++ [{| CartLineItem.product_id := productId;
                       CartLineItem.variant_id := variantId;
                       CartLineItem.quantity := quantity;
                       CartLineItem.unit_price := price;
                       CartLineItem.product := None |}]
            end in
          updateRemoteCart cartId (recalculated current items)
      | None => mret error
      end
  end.

Definition removeItemFromRemoteCart (cartId : string)
    (productId variantId : Z) : State (list Request) Settled :=
  currentCart ← client_get ("/carts/" +:+ cartId);
  match currentCart with
  | Rejected => mret Rejected
  | Resolved response =>
      match usable response with
      | Some current =>
          let cartData := RemoteCart.data current in
          let items :=
            filter (λ item, same_line productId variantId item = false)
                   (CartData.items cartData) in
          updateRemoteCart cartId (recalculated current items)
      | None => mret error
      end
  end.

Definition updateItemQuantityInRemoteCart (cartId : string)
    (productId variantId : Z) (quantity : Z)
  : State (list Request) Settled :=
  if decide (quantity ≤ 0)
  then removeItemFromRemoteCart cartId productId variantId
  else
    currentCart ← client_get ("/carts/" +:+ cartId);
    match currentCart with
    | Rejected => mret Rejected
    | Resolved response =>
        match usable response with
        | Some current =>
            let cartData := RemoteCart.data current in
            match findIndex (same_line productId variantId)
                            (CartData.items cartData) with
            | Some itemIndex =>
                let items :=
                  alter (λ item,
                    {| CartLineItem.product_id :=
                         CartLineItem.product_id item;
                       CartLineItem.variant_id :=
                         CartLineItem.variant_id item;
                       CartLineItem.quantity := quantity;
                       CartLineItem.unit_price :=
                         CartLineItem.unit_price item;
                       CartLineItem.product := CartLineItem.product item |})
                    itemIndex (CartData.items cartData) in
                updateRemoteCart cartId (recalculated current items)
            | None => mret error
            end
        | None => mret error
        end
    end.

(** The three edits of a remote cart. *)
Inductive Edit :=
| AddItem (productId variantId quantity price : Z)
| RemoveItem (productId variantId : Z)
| UpdateItemQuantity (productId variantId quantity : Z).

Definition edit (cartId : string) (e : Edit)
  : State (list Request) Settled :=
  match e with
  | AddItem productId variantId quantity price =>
      addItemToRemoteCart cartId productId variantId quantity price
  | RemoveItem productId variantId =>
      removeItemFromRemoteCart cartId productId variantId
  | UpdateItemQuantity productId variantId quantity =>
      updateItemQuantityInRemoteCart cartId productId variantId quantity
  end.
End Methods.

(** The totals of a cart body are those of its lines. *)
Definition consistent (data : CartData.t) : Prop :=
  CartData.total data
  = foldr (λ item acc, CartLineItem.unit_price item
                       * CartLineItem.quantity item + acc)
      0 (CartData.items data)
  ∧ CartData.quantity data
    = foldr (λ item acc, CartLineItem.quantity item + acc)
        0 (CartData.items data).

End RemoteCartResource.

(** ** The remaining accessors of the wishlist  (src/resources/wishlist.ts)

    Each accessor reads the wishlist with [get]; its [...Local] twin reads
    it with [getLocal]. *)

Module WishlistAccessors.
Import WishlistResource.
Section WishlistAccessors.
Variable env : Env.

Definition getItem (productId : Z) : State World (option WishlistItem.t) :=
  wishlist ← get env;
  mret (find (λ item, bool_decide
                (Product.id (WishlistItem.product item) = productId))
             (Wishlist.items wishlist)).

Definition isEmpty : State World bool :=
  wishlist ← get env;
  mret (bool_decide (length (Wishlist.items wishlist) = 0%nat)).

Definition getProducts : State World (list Product.t) :=
  wishlist ← get env;
  mret (WishlistItem.product <$> Wishlist.items wishlist).

Definition getItemLocal (productId : Z)
  : State World (option WishlistItem.t) :=
  wishlist ← getLocal env;
  mret (find (λ item, bool_decide
                (Product.id (WishlistItem.product item) = productId))
             (Wishlist.items wishlist)).

Definition isEmptyLocal : State World bool :=
  wishlist ← getLocal env;
  mret (bool_decide (length (Wishlist.items wishlist) = 0%nat)).

Definition getItemCountLocal : State World nat :=
  wishlist ← getLocal env; mret (length (Wishlist.items wishlist)).

Definition getProductsLocal : State World (list Product.t) :=
  wishlist ← getLocal env;
  mret (WishlistItem.product <$> Wishlist.items wishlist).
End WishlistAccessors.
End WishlistAccessors.

(** ** What [get] reads, before the cast  (src/resources/wishlist.ts)

    [getRemoteWishlist] returns [response.data[0].data as Wishlist].  The
    cast checks nothing: [get] returns, and writes to the local store, any
    value the record holds that is truthy.  [WishlistResource] above is the
    wishlist on values that are wishlists; here are the two reading methods
    on all values. *)

Module WishlistRead.

(** A JavaScript value as [get] meets it. *)
Inductive value :=
| Undefined
| Null
| Boolean (b : bool)
| Number (n : Z)
| Text (s : string)
| Typed (wishlist : Wishlist.t)
| Object (json : string).

(** [Typed] is an object with the fields of a [Wishlist]; [Object] is any
    other object or array, given by its JSON text. *)
Definition truthy (v : value) : bool :=
  match v with
  | Undefined | Null => false
  | Boolean b => b
  | Number n => negb (bool_decide (n = 0))
  | Text s => negb (bool_decide (s = ""))
  | Typed _ | Object _ => true
  end.

(** What [await this.generic.get(...)] yields: as [WishlistResource.Reply],
    with each record given by the value of its [data] field ([Undefined]
    when the record has none to read). *)
Inductive Reply :=
| Rejected
| Resolved (state_ok result : bool) (data : option (list value)).

(** What [getRemoteWishlist] makes of a reply, inside its [try]. *)
Definition first_data (response : Reply) : value :=
  match response with
  | Resolved true true (Some (first :: _)) => first
  | _ => Null
  end.

Record Env := {
  now : nat → Z;
  reply : nat → Reply
}.

Record World := {
  storage : BrowserStorage.t value;
  userId : option Z;
  clock : nat;
  fetches : nat;
  requests : list WishlistResource.Request
}.

Definition owner (w : World) : option Z :=
  match userId w with
  | Some u => if decide (u = 0) then None else Some u
  | None => None
  end.

Section Methods.
Variable env : Env.

Definition storage_get : State World (option value) :=
  λ w, (BrowserStorage.get (storage w), w).

Definition storage_set (v : value) : State World bool :=
  λ w, let r := BrowserStorage.set (storage w) v in
       (r.1, {| storage := r.2; userId := userId w; clock := clock w;
                fetches := fetches w; requests := requests w |}).

Definition Date_now : State World Z :=
  λ w, (now env (clock w),
        {| storage := storage w; userId := userId w; clock := S (clock w);
           fetches := fetches w; requests := requests w |}).

Definition generic_get (path key : string) (kind limit : Z)
  : State World Reply :=
  λ w, (reply env (fetches w),
        {| storage := storage w; userId := userId w; clock := clock w;
           fetches := S (fetches w);
           requests := requests w
                       ++ [WishlistResource.GET path key kind limit] |}).

Definition this_owner : State World (option Z) := λ w, (owner w, w).

Definition getRemoteWishlist : State World value :=
  u ← this_owner;
  match u with
  | None => mret Null
  | Some u =>
      response ← generic_get "/generis" ("wishlist_" +:+ pretty u)
                             WishlistResource.wishlistKind 1;
      mret (first_data response)
  end.

Definition createEmptyWishlist : State World value :=
  updated ← Date_now;
  mret (Typed {| Wishlist.items := []; Wishlist.total_items := 0;
                 Wishlist.updated_at := updated |}).

Definition get : State World value :=
  remoteWishlist ← getRemoteWishlist;
  if truthy remoteWishlist then
    _ ← storage_set remoteWishlist; mret remoteWishlist
  else
    localWishlist ← storage_get;
    match localWishlist with
    | Some localWishlist =>
        if truthy localWishlist then mret localWishlist
        else createEmptyWishlist
    | None => createEmptyWishlist
    end.
End Methods.

(** The values, replies and worlds of [WishlistResource] among these. *)
Definition of_record (record : option Wishlist.t) : value :=
  match record with
  | Some wishlist => Typed wishlist
  | None => Undefined
  end.

Definition of_reply (response : WishlistResource.Reply) : Reply :=
  match response with
  | WishlistResource.Rejected => Rejected
  | WishlistResource.Resolved state_ok result data =>
      Resolved state_ok result
        (match data with
         | Some records => Some (of_record <$> records)
         | None => None
         end)
  end.

Definition of_env (env : WishlistResource.Env) : Env :=
  {| now := WishlistResource.now env;
     reply := λ n, of_reply (WishlistResource.reply env n) |}.

Definition of_world (w : WishlistResource.World) : World :=
  {| storage :=
       {| BrowserStorage.available :=
            BrowserStorage.available (WishlistResource.storage w);
          BrowserStorage.writable :=
            BrowserStorage.writable (WishlistResource.storage w);
          BrowserStorage.item :=
            Typed <$> BrowserStorage.item (WishlistResource.storage w) |};
     userId := WishlistResource.userId w;
     clock := WishlistResource.clock w;
     fetches := WishlistResource.fetches w;
     requests := WishlistResource.requests w |}.

End WishlistRead.

(** ** The vocabulary of the properties

    The aggregates follow the words of the specification, a sum over the
    entries; the resources compute theirs with [reduce] and [length]. *)

(** The sum of the entry quantities. *)
Definition sum_of_quantities (items : list CartItem.t) : Z :=
  foldr (λ item acc, CartItem.quantity item + acc) 0 items.

(** The sum of quantity times price over all entries. *)
Definition sum_of_values (items : list CartItem.t) : Z :=
  foldr (λ item acc, CartItem.quantity item * CartItem.price item + acc)
        0 items.

Definition cart_pure (cart : Cart.t) : Prop :=
  Cart.total_items cart = sum_of_quantities (Cart.items cart)
  ∧ Cart.subtotal cart = sum_of_values (Cart.items cart).

Definition wishlist_pure (wishlist : Wishlist.t) : Prop :=
  Wishlist.total_items wishlist = Z.of_nat (length (Wishlist.items wishlist)).

(** What the local store holds is pure. *)
Definition cart_store_pure (w : CartResource.World) : Prop :=
  ∀ cart, BrowserStorage.item (CartResource.storage w) = Some cart →
          cart_pure cart.

Definition wishlist_store_pure (w : WishlistResource.World) : Prop :=
  ∀ wishlist,
    BrowserStorage.item (WishlistResource.storage w) = Some wishlist →
    wishlist_pure wishlist.

(** The local store can be read and written. *)
Definition storage_usable {T} (s : BrowserStorage.t T) : Prop :=
  BrowserStorage.available s = true ∧ BrowserStorage.writable s = true.

(** No fetch yields a snapshot: no owner is set, or the backend has none to
    give. *)
Definition remote_silent (env : WishlistResource.Env)
    (w : WishlistResource.World) : Prop :=
  WishlistResource.owner w = None
  ∨ ∀ n, WishlistResource.first_snapshot (WishlistResource.reply env n)
         = None.

(** The wishlist reads and writes local state only. *)
Definition local_only (env : WishlistResource.Env)
    (w : WishlistResource.World) : Prop :=
  remote_silent env w ∧ storage_usable (WishlistResource.storage w).

(** The entries the local store holds. *)
Definition stored_items (w : WishlistResource.World) : list WishlistItem.t :=
  match BrowserStorage.item (WishlistResource.storage w) with
  | Some wishlist => Wishlist.items wishlist
  | None => []
  end.

(** Membership of a product, as [hasProduct] tests it. *)
Definition wishes (productId : Z) (items : list WishlistItem.t) : bool :=
  some (λ item, bool_decide
          (Product.id (WishlistItem.product item) = productId)) items.

(** Every snapshot the backend hands out is pure. *)
Definition remote_pure (env : WishlistResource.Env) : Prop :=
  ∀ n wishlist,
    WishlistResource.first_snapshot (WishlistResource.reply env n)
    = Some wishlist →
    wishlist_pure wishlist.

(** The product ids of the entries of a cart, in order. *)
Definition product_ids (items : list CartItem.t) : list Z :=
  (λ item, Product.id (CartItem.product item)) <$> items.

(** No two entries of the stored cart are for the same product. *)
Definition cart_store_distinct (w : CartResource.World) : Prop :=
  ∀ cart, BrowserStorage.item (CartResource.storage w) = Some cart →
          NoDup (product_ids (Cart.items cart)).

(** The product ids of the entries of a wishlist, in order. *)
Definition wished_ids (items : list WishlistItem.t) : list Z :=
  (λ item, Product.id (WishlistItem.product item)) <$> items.

(** Where one of the next [n] fetches yields a snapshot, its entries are
    [items]. *)
Definition fetches_agree (env : WishlistResource.Env)
    (w : WishlistResource.World) (n : nat) (items : list WishlistItem.t)
  : Prop :=
  ∀ k snapshot, (k < n)%nat → WishlistResource.owner w ≠ None →
    WishlistResource.first_snapshot
      (WishlistResource.reply env (WishlistResource.fetches w + k))
    = Some snapshot →
    Wishlist.items snapshot = items.

(** The next [n] reads of the wishlist see the entries [items]: the fetches
    that yield a snapshot yield these entries, and the local store holds
    them unless the first fetch already yields a snapshot. *)
Definition reads (env : WishlistResource.Env) (w : WishlistResource.World)
    (n : nat) (items : list WishlistItem.t) : Prop :=
  fetches_agree env w n items
  ∧ (stored_items w = items
     ∨ WishlistResource.owner w ≠ None
       ∧ WishlistResource.first_snapshot
           (WishlistResource.reply env (WishlistResource.fetches w))
         ≠ None).

(** ** Sample inputs *)

Module Sample.

(** A handler that subscribes a second handler to the event it is
    handling; every other handler does nothing. *)
Definition recruiting_body (h : nat) (_ : unit) : Events.behaviour :=
  if decide (h = 1%nat)
  then {| Events.script := [Events.CallOn "cart:cleared" 2%nat];
          Events.throws := false |}
  else {| Events.script := []; Events.throws := false |}.

(** Handlers that never call back into the emitter. *)
Definition idle_body (h : nat) (_ : unit) : Events.behaviour :=
  {| Events.script := []; Events.throws := false |}.

Definition book : Product.t :=
  {| Product.id := 1; Product.title := "Book"; Product.price := 10 |}.

Definition pen : Product.t :=
  {| Product.id := 2; Product.title := "Pen"; Product.price := 5 |}.

Definition lamp : Product.t :=
  {| Product.id := 3; Product.title := "Lamp"; Product.price := 40 |}.

(** A clock that advances by a millisecond at every reading and a random
    source that never repeats. *)
Definition cart_env : CartResource.Env unit :=
  {| CartResource.now := λ n, 1000 + Z.of_nat n;
     CartResource.random := λ n, "r" +:+ pretty n;
     CartResource.reply := λ _, tt |}.

(** The same clock, and a backend that answers every request with
    [reply]. *)
Definition wishlist_env (reply : WishlistResource.Reply)
  : WishlistResource.Env :=
  {| WishlistResource.now := λ n, 1000 + Z.of_nat n;
     WishlistResource.random := λ n, "r" +:+ pretty n;
     WishlistResource.reply := λ _, reply;
     WishlistResource.localeCompare := λ _ _, 0 |}.

Definition wished (id : string) (product : Product.t) (added : Z)
  : WishlistItem.t :=
  {| WishlistItem.id := id; WishlistItem.product := product;
     WishlistItem.added_at := added |}.

(** A stored wishlist of two entries. *)
Definition two_entries : Wishlist.t :=
  {| Wishlist.items := [wished "wishlist_1_a" book 1;
                        wished "wishlist_2_b" pen 2];
     Wishlist.total_items := 2; Wishlist.updated_at := 2 |}.

(** A browser holding [two_entries], with [user] signed in. *)
Definition seeded (user : option Z) : WishlistResource.World :=
  {| WishlistResource.storage :=
       {| BrowserStorage.available := true; BrowserStorage.writable := true;
          BrowserStorage.item := Some two_entries |};
     WishlistResource.userId := user;
     WishlistResource.clock := 0; WishlistResource.dice := 0;
     WishlistResource.fetches := 0; WishlistResource.emitted := [];
     WishlistResource.requests := [] |}.

(** Server-side rendering: no [localStorage] at all. *)
Definition no_storage : WishlistResource.World :=
  {| WishlistResource.storage :=
       {| BrowserStorage.available := false;
          BrowserStorage.writable := false; BrowserStorage.item := None |};
     WishlistResource.userId := None;
     WishlistResource.clock := 0; WishlistResource.dice := 0;
     WishlistResource.fetches := 0; WishlistResource.emitted := [];
     WishlistResource.requests := [] |}.

(** A first visit with [user] signed in. *)
Definition signed_in (user : Z) : WishlistResource.World :=
  {| WishlistResource.storage := BrowserStorage.fresh;
     WishlistResource.userId := Some user;
     WishlistResource.clock := 0; WishlistResource.dice := 0;
     WishlistResource.fetches := 0; WishlistResource.emitted := [];
     WishlistResource.requests := [] |}.

(** A backend that holds a snapshot and answers every fetch with it. *)
Definition serving (snapshot : Wishlist.t) : WishlistResource.Reply :=
  WishlistResource.Resolved true true (Some [Some snapshot]).

(** A backend whose first fetch fails and whose later fetches serve
    [snapshot]. *)
Definition recovering_env (snapshot : Wishlist.t) : WishlistResource.Env :=
  {| WishlistResource.now := λ n, 1000 + Z.of_nat n;
     WishlistResource.random := λ n, "r" +:+ pretty n;
     WishlistResource.reply :=
       λ n, match n with
            | O => WishlistResource.Rejected
            | S _ => serving snapshot
            end;
     WishlistResource.localeCompare := λ _ _, 0 |}.

End Sample.

(** More sample inputs. *)

Module Scenario.

(** A handler body that throws without touching the emitter. *)
Definition failing (_ : unit) : Events.behaviour :=
  {| Events.script := []; Events.throws := true |}.

(** A browser holding the cart of the default manager and an entry of
    another application. *)
Definition browser : LocalStorage.t :=
  {| LocalStorage.present := true;
     LocalStorage.writable := true;
     LocalStorage.entries := [("inkress:cart", "{}"); ("theme", "dark")] |}.

(** A remote cart of two lines whose stored totals are stale. *)
Definition remote_cart : RemoteCart.t :=
  {| RemoteCart.id := "c1"; RemoteCart.user_id := Some 7;
     RemoteCart.session_id := None;
     RemoteCart.data :=
       {| CartData.total := 0;
          CartData.items :=
            [{| CartLineItem.product_id := 1; CartLineItem.variant_id := 1;
                CartLineItem.quantity := 2; CartLineItem.unit_price := 10;
                CartLineItem.product := None |};
             {| CartLineItem.product_id := 2; CartLineItem.variant_id := 2;
                CartLineItem.quantity := 1; CartLineItem.unit_price := 5;
                CartLineItem.product := None |}];
          CartData.quantity := 0 |};
     RemoteCart.created_at := "2024-01-01";
     RemoteCart.updated_at := "2024-01-02" |}.

(** A backend that answers every request with [remote_cart]. *)
Definition remote_env : RemoteCartResource.Env :=
  {| RemoteCartResource.reply := λ _,
       RemoteCartResource.Resolved
         {| RemoteCartResource.state_ok := true;
            RemoteCartResource.result := Some remote_cart |} |}.

(** A backend that is down. *)
Definition failing_env : RemoteCartResource.Env :=
  {| RemoteCartResource.reply := λ _, RemoteCartResource.Rejected |}.


(** A stored cart whose totals are not those of its entry, as
    [loadFromRemote] leaves one when the remote totals are off. *)
Definition stale_cart : Cart.t :=
  {| Cart.id := "c1";
     Cart.items := [{| CartItem.id := "item_1_1";
                       CartItem.product := Sample.book;
                       CartItem.quantity := 2; CartItem.price := 10 |}];
     Cart.subtotal := 0; Cart.total_items := 0;
     Cart.created_at := 1; Cart.updated_at := 1 |}.

Definition stale_cart_world : CartResource.World :=
  {| CartResource.storage :=
       {| BrowserStorage.available := true; BrowserStorage.writable := true;
          BrowserStorage.item := Some stale_cart |};
     CartResource.clock := 0; CartResource.dice := 0;
     CartResource.emitted := []; CartResource.requests := [] |}.

(** A snapshot of two entries that counts five. *)
Definition stale_snapshot : Wishlist.t :=
  {| Wishlist.items := Wishlist.items Sample.two_entries;
     Wishlist.total_items := 5; Wishlist.updated_at := 2 |}.

(** A browser holding [Sample.two_entries], with user 7 signed in. *)
Definition seeded_reader : WishlistRead.World :=
  WishlistRead.of_world (Sample.seeded (Some 7)).

(** A backend whose record for the user holds an array, not a wishlist. *)
Definition malformed_env : WishlistRead.Env :=
  {| WishlistRead.now := λ n, 1000 + Z.of_nat n;
     WishlistRead.reply := λ _,
       WishlistRead.Resolved true true
         (Some [WishlistRead.Object "[1,2,3]"]) |}.

(** A backend that keeps what it is sent: its first three fetches serve
    [Sample.two_entries], and the later ones serve what the first toggle of
    the lamp saved. *)
Definition keeping_env : WishlistResource.Env :=
  {| WishlistResource.now := λ n, 1000 + Z.of_nat n;
     WishlistResource.random := λ n, "r" +:+ pretty n;
     WishlistResource.reply := λ n,
       if (n <? 3)%nat then Sample.serving Sample.two_entries
       else Sample.serving
              (WishlistResource.toggleProduct
                 (Sample.wishlist_env (Sample.serving Sample.two_entries))
                 Sample.lamp (Sample.signed_in 7)).1.1;
     WishlistResource.localeCompare := λ _ _, 0 |}.

(** A browser whose stored wishlist holds the book twice, nobody signed
    in. *)
Definition twice_held : WishlistResource.World :=
  {| WishlistResource.storage :=
       {| BrowserStorage.available := true; BrowserStorage.writable := true;
          BrowserStorage.item :=
            Some {| Wishlist.items :=
                      [Sample.wished "wishlist_1_a" Sample.book 1;
                       Sample.wished "wishlist_9_z" Sample.book 9];
                    Wishlist.total_items := 2;
                    Wishlist.updated_at := 9 |} |};
     WishlistResource.userId := None;
     WishlistResource.clock := 0; WishlistResource.dice := 0;
     WishlistResource.fetches := 0; WishlistResource.emitted := [];
     WishlistResource.requests := [] |}.

End Scenario.

(** * Properties *)

Ltac run_state :=
  unfold mbind, State_bind, mret, State_ret in *; simpl in *.

Ltac run_goal := unfold mbind, State_bind, mret, State_ret; simpl.

(** ** Arrays *)

Section ArrayFacts.
Context {A : Type}.

Lemma reduce_sum (f : A → Z) (l : list A) (init : Z) :
  reduce (λ total x, total + f x) init l
  = init + foldr (λ x acc, f x + acc) 0 l.
Proof.
  unfold reduce. revert init.
  induction l as [|x l IH]; intros init; simpl; [lia|].
  rewrite IH. lia.
Qed.

Lemma find_findIndex (f : A → bool) (l : list A) :
  find f l = None ↔ findIndex f l = None.
Proof.
  unfold find, findIndex.
  destruct (list_find _ l) as [[i x]|]; simpl; split; congruence.
Qed.

Lemma findIndex_Some (f : A → bool) (l : list A) (i : nat) :
  findIndex f l = Some i →
  ∃ x, l !! i = Some x ∧ f x = true
       ∧ ∀ j y, l !! j = Some y → (j < i)%nat → f y ≠ true.
Proof.
  unfold findIndex. intros H.
  destruct (list_find _ l) as [[i' x]|] eqn:E; simpl in H; [|done].
  injection H as ->. apply list_find_Some in E. exists x. exact E.
Qed.

Lemma findIndex_None (f : A → bool) (l : list A) :
  findIndex f l = None ↔ Forall (λ x, f x ≠ true) l.
Proof.
  unfold findIndex. destruct (list_find _ l) as [[i x]|] eqn:E; simpl.
  - split; [done|]. intros H. apply list_find_Some in E as (Hl & Hf & _).
    rewrite Forall_lookup in H. by destruct (H _ _ Hl).
  - split; [|done]. intros _. by apply list_find_None in E.
Qed.

Lemma findIndex_app_first (f : A → bool) (before after : list A) (x : A) :
  Forall (λ y, f y ≠ true) before → f x = true →
  findIndex f (before ++ x :: after) = Some (length before).
Proof.
  intros Hb Hx. unfold findIndex.
  induction Hb as [|y before Hy Hb IH]; simpl.
  - rewrite decide_True by done. done.
  - rewrite decide_False by done.
    destruct (list_find _ (before ++ x :: after)) as [[i z]|]; simpl in *;
      congruence.
Qed.

Lemma some_false (f : A → bool) (l : list A) :
  some f l = false ↔ Forall (λ x, f x ≠ true) l.
Proof.
  unfold some. induction l as [|x l IH]; simpl.
  - split; [constructor|done].
  - rewrite orb_false_iff, IH, Forall_cons.
    destruct (f x); intuition congruence.
Qed.

Lemma some_true (f : A → bool) (l : list A) :
  some f l = true ↔ Exists (λ x, f x = true) l.
Proof.
  unfold some. induction l as [|x l IH]; simpl.
  - split; [done|]. by intros ?%Exists_nil.
  - rewrite orb_true_iff, IH, Exists_cons. done.
Qed.
End ArrayFacts.

(** ** The event emitter *)

Module EventsFacts.
Import Events.

Lemma set_values_app (s1 s2 : SetData) :
  set_values (s1 ++ s2) = set_values s1 ++ set_values s2.
Proof. unfold set_values. apply omap_app. Qed.

Lemma elem_of_set_values (s : SetData) (h : handler) :
  h ∈ set_values s ↔ Some h ∈ s.
Proof.
  unfold set_values. rewrite list_elem_of_omap. split.
  - intros (x & Hx & Hid). simpl in Hid. by subst.
  - intros H. by exists (Some h).
Qed.

Lemma set_has_spec (s : SetData) (h : handler) :
  set_has s h = true ↔ h ∈ set_values s.
Proof.
  unfold set_has. rewrite bool_decide_eq_true. symmetry.
  apply elem_of_set_values.
Qed.

Lemma set_values_add (s : SetData) (h : handler) :
  set_values (set_add s h)
  = if set_has s h then set_values s else set_values s ++ [h].
Proof.
  unfold set_add. destruct (set_has s h); [done|].
  by rewrite set_values_app.
Qed.

Lemma set_add_idem (s : SetData) (h : handler) :
  set_add (set_add s h) h = set_add s h.
Proof.
  unfold set_add at 1.
  replace (set_has (set_add s h) h) with true; [done|].
  symmetry. apply set_has_spec. rewrite set_values_add.
  destruct (set_has s h) eqn:E.
  - by apply set_has_spec.
  - set_solver.
Qed.

Lemma set_values_delete (s : SetData) (h : handler) :
  set_values (set_delete s h) = filter (λ x, x ≠ h) (set_values s).
Proof.
  unfold set_values, set_delete.
  induction s as [|[x|] s IH]; simpl; [done| |done].
  destruct (decide (Some x = Some h)) as [Heq|Hne]; simpl.
  - injection Heq as ->. rewrite filter_cons_False by (intros ?; done). done.
  - rewrite filter_cons_True by congruence. f_equal. exact IH.
Qed.

Lemma set_add_nodup (s : SetData) (h : handler) :
  NoDup (set_values s) → NoDup (set_values (set_add s h)).
Proof.
  intros Hs. rewrite set_values_add. destruct (set_has s h) eqn:E; [done|].
  apply NoDup_app. split_and!; [done| |apply NoDup_singleton].
  intros x Hx ->%list_elem_of_singleton.
  apply set_has_spec in Hx. congruence.
Qed.

Lemma set_delete_nodup (s : SetData) (h : handler) :
  NoDup (set_values s) → NoDup (set_values (set_delete s h)).
Proof. intros Hs. rewrite set_values_delete. by apply NoDup_filter. Qed.

Lemma deref_lookup (e : EventEmitter) (r : nat) (s : SetData) :
  heap e !! r = Some s → deref e r = s.
Proof. intros H. unfold deref. by rewrite H. Qed.

Lemma empty_wf : wf empty.
Proof. split; simpl; intros *; [by rewrite lookup_empty..|done]. Qed.

Lemma on_wf (e : EventEmitter) (event : string) (h : handler) :
  wf e → wf (on e event h).1.
Proof.
  intros [Hb Hi Hn]. unfold on. simpl.
  destruct (events e !! event) as [r|] eqn:E; simpl.
  - rewrite E. split; simpl.
    + intros ev r' H. rewrite length_insert. eauto.
    + done.
    + intros r' s. destruct (decide (r = r')) as [<-|Hne].
      * pose proof (Hb _ _ E) as Hlt.
        rewrite list_lookup_insert_eq by done. intros [= <-].
        apply set_add_nodup. unfold deref.
        destruct (heap e !! r) eqn:El; simpl; [eauto|constructor].
      * rewrite list_lookup_insert_ne by done. eauto.
  - rewrite lookup_insert_eq. split; simpl.
    + intros ev r'. rewrite length_insert, length_app. simpl.
      rewrite lookup_insert. case_decide; [intros [= <-]; lia|].
      intros H'%Hb. lia.
    + intros ev1 ev2 r'. rewrite !lookup_insert.
      repeat case_decide; subst; try done.
      * intros [= <-] H'%Hb. lia.
      * intros H'%Hb [= <-]. lia.
      * eauto.
    + intros r' s. destruct (decide (length (heap e) = r')) as [<-|Hne].
      * rewrite list_lookup_insert_eq by (rewrite length_app; simpl; lia).
        intros [= <-]. apply set_add_nodup. unfold deref. simpl.
        rewrite lookup_app_r, Nat.sub_diag by done. simpl. constructor.
      * rewrite list_lookup_insert_ne by done.
        intros H. apply lookup_app_Some in H as [H|[_ H]]; [eauto|].
        destruct (r' - length (heap e))%nat; simpl in H; [|done].
        injection H as <-. constructor.
Qed.

Lemma delete_wf (e : EventEmitter) (event : string) :
  wf e → wf {| events := delete event (events e); heap := heap e |}.
Proof.
  intros [Hb Hi Hn]. split; simpl.
  - intros ev r H. apply lookup_delete_Some in H as [_ H]. eauto.
  - intros ev1 ev2 r H1 H2.
    apply lookup_delete_Some in H1 as [_ H1].
    apply lookup_delete_Some in H2 as [_ H2]. eauto.
  - done.
Qed.

Lemma off_wf (e : EventEmitter) (event : string) (h : handler) :
  wf e → wf (off e event h).
Proof.
  intros He. unfold off.
  destruct (events e !! event) as [r|] eqn:E; [|done].
  assert (wf {| events := events e;
                heap := <[r := set_delete (deref e r) h]> (heap e) |}) as H1.
  { destruct He as [Hb Hi Hn]. split; simpl.
    - intros ev r' H. rewrite length_insert. eauto.
    - done.
    - intros r' s. destruct (decide (r = r')) as [<-|Hne].
      + pose proof (Hb _ _ E) as Hlt.
        rewrite list_lookup_insert_eq by done. intros [= <-].
        apply set_delete_nodup. unfold deref.
        destruct (heap e !! r) eqn:El; simpl; [eauto|constructor].
      + rewrite list_lookup_insert_ne by done. eauto. }
  simpl. case_decide; [|done]. by apply (delete_wf _ event) in H1.
Qed.

Lemma removeAllListeners_wf (e : EventEmitter) (event : option string) :
  wf e → wf (removeAllListeners e event).
Proof.
  intros He.
  assert (wf {| events := ∅; heap := heap e |}) as Hclear.
  { destruct He as [Hb Hi Hn].
    split; simpl; intros *; [by rewrite lookup_empty..|eauto]. }
  destruct event as [ev|]; simpl; [|done].
  case_decide; [by apply delete_wf|done].
Qed.

Lemma perform_wf (e : EventEmitter) (a : action) : wf e → wf (perform e a).
Proof.
  intros He. destruct a; simpl.
  - by apply on_wf.
  - by apply off_wf.
  - by apply removeAllListeners_wf.
Qed.

(** Every emitter built by calls of [on], [off] and [removeAllListeners]
    from the empty one is well formed. *)
Lemma reachable_wf (calls : list action) : wf (foldl perform empty calls).
Proof.
  assert (∀ e, wf e → wf (foldl perform e calls)) as H.
  { induction calls as [|a calls IH]; intros e He; simpl; [done|].
    by apply IH, perform_wf. }
  apply H, empty_wf.
Qed.

Lemma perform_quiet (e : EventEmitter) (event : string) (a : action)
    (r : nat) (s : list (option nat)) :
  wf e → quiet event a →
  events e !! event = Some r → heap e !! r = Some s →
  events (perform e a) !! event = Some r ∧ heap (perform e a) !! r = Some s.
Proof.
  intros [Hb Hi Hn] Hq Hev Hs.
  destruct a as [ev h|ev h|[ev|]]; simpl in *; [| | |done].
  - unfold on. simpl. destruct (events e !! ev) as [r'|] eqn:E; simpl.
    + rewrite E. simpl. split; [done|].
      rewrite list_lookup_insert_ne; [done|].
      intros ->. by specialize (Hi _ _ _ E Hev).
    + rewrite lookup_insert_eq. simpl.
      rewrite lookup_insert_ne by done. split; [done|].
      pose proof (Hb _ _ Hev) as Hlt.
      rewrite list_lookup_insert_ne by lia.
      by rewrite lookup_app_l.
  - unfold off. destruct (events e !! ev) as [r'|] eqn:E; [|done].
    assert (r' ≠ r) by (intros ->; by specialize (Hi _ _ _ E Hev)).
    simpl. case_decide; simpl.
    + rewrite lookup_delete_ne by done.
      by rewrite list_lookup_insert_ne.
    + by rewrite list_lookup_insert_ne.
  - destruct Hq as [Hq Hne]. rewrite decide_True by done. simpl.
    by rewrite lookup_delete_ne.
Qed.

Lemma script_quiet (e : EventEmitter) (event : string) (l : list action)
    (r : nat) (s : list (option nat)) :
  wf e → Forall (quiet event) l →
  events e !! event = Some r → heap e !! r = Some s →
  wf (foldl perform e l)
  ∧ events (foldl perform e l) !! event = Some r
  ∧ heap (foldl perform e l) !! r = Some s.
Proof.
  intros He Hl. revert e He.
  induction Hl as [|a l Ha Hl IH]; intros e He Hev Hs; simpl; [done|].
  destruct (perform_quiet e event a r s He Ha Hev Hs) as [Hev' Hs'].
  apply IH; [by apply perform_wf|done..].
Qed.

(** *** Emission with handlers that leave the event alone *)

Section EmitFacts.
Context {D : Type}.
Variable body : nat → D → behaviour.

Lemma forEach_quiet (event : string) (data : D) (r : nat)
    (s : list (option nat)) (fuel index : nat) (e : EventEmitter)
    (trace : list delivery) :
  wf e → events e !! event = Some r → heap e !! r = Some s →
  (∀ h, h ∈ set_values s → Forall (quiet event) (script (body h data))) →
  (length s - index < fuel)%nat →
  ∃ e', forEach body fuel r index data e trace
        = Some (e', trace ++ (deliver body data <$> set_values (drop index s)))
      ∧ wf e' ∧ events e' !! event = Some r ∧ heap e' !! r = Some s.
Proof.
  intros He Hev Hs Hq. revert index e trace He Hev Hs.
  induction fuel as [|fuel IH]; intros index e trace He Hev Hs Hlt; [lia|].
  simpl. rewrite (deref_lookup _ _ _ Hs).
  destruct (s !! index) as [[h|]|] eqn:Ei.
  - unfold invoke.
    destruct (script_quiet e event (script (body h data)) r s He)
      as (He' & Hev' & Hs'); [|done..|].
    { apply Hq. apply elem_of_set_values. by eapply list_elem_of_lookup_2. }
    apply lookup_lt_Some in Ei as Hi.
    destruct (IH (S index) _ (trace ++ [deliver body data h]) He' Hev' Hs')
      as (e' & Heq & ?); [lia|].
    exists e'. split; [|done]. rewrite Heq.
    rewrite (drop_S _ _ _ Ei). simpl. by rewrite <- app_assoc.
  - apply lookup_lt_Some in Ei as Hi.
    destruct (IH (S index) e trace He Hev Hs) as (e' & -> & ?); [lia|].
    exists e'. split; [|done]. by rewrite (drop_S _ _ _ Ei).
  - exists e. apply lookup_ge_None in Ei.
    rewrite drop_ge by done. simpl. by rewrite app_nil_r.
Qed.

Lemma emit_quiet (e : EventEmitter) (event : string) (data : D) :
  wf e →
  (∀ h, h ∈ listeners e event → Forall (quiet event) (script (body h data))) →
  ∃ fuel0, ∀ fuel, (fuel0 ≤ fuel)%nat →
    ∃ e', emit body fuel e event data
          = Some (e', deliver body data <$> listeners e event)
        ∧ wf e' ∧ listeners e' event = listeners e event.
Proof.
  intros He Hq. unfold emit, listeners in *.
  destruct (events e !! event) as [r|] eqn:Hev.
  - pose proof (wf_bound _ He _ _ Hev) as Hlt.
    apply lookup_lt_is_Some in Hlt as [s Hs].
    rewrite (deref_lookup _ _ _ Hs) in *.
    exists (S (length s)). intros fuel Hf.
    destruct (forEach_quiet event data r s fuel 0 e [] He Hev Hs Hq)
      as (e' & -> & He' & Hev' & Hs'); [lia|].
    exists e'. rewrite Hev', (deref_lookup _ _ _ Hs'). done.
  - exists 0%nat. intros fuel _. exists e. by rewrite Hev.
Qed.
End EmitFacts.

Lemma listeners_on (e : EventEmitter) (event : string) (h : nat) :
  wf e →
  listeners (on e event h).1 event
  = if bool_decide (h ∈ listeners e event) then listeners e event
    else listeners e event ++ [h].
Proof.
  intros He. destruct (events e !! event) as [r|] eqn:E.
  - assert (listeners e event = set_values (deref e r)) as ->
      by (unfold listeners; by rewrite E).
    unfold listeners, on. simpl. repeat (rewrite E; simpl).
    pose proof (wf_bound _ He _ _ E) as Hlt.
    unfold deref at 1. simpl. rewrite list_lookup_insert_eq by done. simpl.
    rewrite set_values_add.
    destruct (set_has (deref e r) h) eqn:Eh.
    + rewrite bool_decide_eq_true_2; [done|]. by apply set_has_spec.
    + rewrite bool_decide_eq_false_2; [done|].
      rewrite <- set_has_spec. congruence.
  - assert (listeners e event = []) as ->
      by (unfold listeners; by rewrite E).
    unfold listeners, on. simpl. rewrite E. simpl.
    rewrite lookup_insert_eq. simpl. rewrite lookup_insert_eq.
    unfold deref. simpl.
    rewrite list_lookup_insert_eq by (rewrite length_app; simpl; lia).
    simpl. by rewrite lookup_app_r, Nat.sub_diag by done.
Qed.

Lemma insert_set_add_twice (l : list (list (option nat))) (r h : nat)
    (s : list (option nat)) :
  <[r := set_add (default [] (<[r := set_add s h]> l !! r)) h]>
    (<[r := set_add s h]> l)
  = <[r := set_add s h]> l.
Proof.
  destruct (decide (r < length l)%nat) as [Hlt|Hge].
  - rewrite list_lookup_insert_eq by done. simpl.
    by rewrite set_add_idem, list_insert_insert_eq.
  - rewrite !(list_insert_ge l) by lia. done.
Qed.

Lemma on_on (e : EventEmitter) (event : string) (h : nat) :
  on (on e event h).1 event h = on e event h.
Proof.
  unfold on. simpl. destruct (events e !! event) as [r|] eqn:E; simpl.
  - repeat (rewrite E; simpl). unfold deref at 1. simpl.
    by rewrite insert_set_add_twice.
  - repeat (rewrite lookup_insert_eq; simpl). unfold deref at 1. simpl.
    by rewrite insert_set_add_twice.
Qed.

Lemma listeners_off (e : EventEmitter) (event : string) (h : nat) :
  wf e →
  listeners (off e event h) event = filter (λ x, x ≠ h) (listeners e event).
Proof.
  intros He. unfold listeners, off.
  destruct (events e !! event) as [r|] eqn:E; [|by rewrite E].
  pose proof (wf_bound _ He _ _ E) as Hlt. simpl.
  case_decide as Hz; simpl.
  - rewrite lookup_delete_eq. unfold set_size in Hz.
    rewrite set_values_delete in Hz. by apply nil_length_inv in Hz.
  - rewrite E. unfold deref at 1. simpl.
    rewrite list_lookup_insert_eq by done. simpl. apply set_values_delete.
Qed.

Lemma listeners_nodup (e : EventEmitter) (event : string) :
  wf e → NoDup (listeners e event).
Proof.
  intros He. unfold listeners.
  destruct (events e !! event) as [r|] eqn:E; [|constructor].
  pose proof (wf_bound _ He _ _ E) as Hlt.
  apply lookup_lt_is_Some in Hlt as [s Hs].
  rewrite (deref_lookup _ _ _ Hs). by eapply wf_nodup.
Qed.

Lemma listenerCount_listeners (e : EventEmitter) (event : string) :
  listenerCount e event = length (listeners e event).
Proof.
  unfold listenerCount, listeners. by destruct (events e !! event).
Qed.

Lemma filter_eq_nodup (l : list nat) (h : nat) :
  NoDup l → h ∈ l → filter (λ x, x = h) l = [h].
Proof.
  induction 1 as [|x l Hx Hl IH]; [by intros ?%elem_of_nil|].
  intros [->|Hin]%elem_of_cons.
  - rewrite filter_cons_True by done. f_equal.
    clear IH Hl. induction l as [|y l IH]; [done|].
    rewrite filter_cons_False; [apply IH|]; set_solver.
  - rewrite filter_cons_False; [by apply IH|]. set_solver.
Qed.

Lemma filter_called {D} (body : nat → D → behaviour) (data : D)
    (l : list nat) (h : nat) :
  filter (λ d, called d = h) (deliver body data <$> l)
  = deliver body data <$> filter (λ x, x = h) l.
Proof.
  induction l as [|x l IH]; [done|]. rewrite fmap_cons.
  destruct (decide (x = h)) as [->|Hne].
  - rewrite !filter_cons_True by done. rewrite fmap_cons. by rewrite IH.
  - rewrite !filter_cons_False by done. done.
Qed.

(** C8, as the emitter has it: when no handler registered for the event
    subscribes or unsubscribes on that event while it runs, [emit]
    terminates and calls exactly the handlers registered when it was
    invoked, each once, in registration order, logging those that throw and
    going on; the subscriptions of the event are as before. *)
Theorem emit_delivers_registered {D} (body : nat → D → behaviour)
    (e : EventEmitter) (event : string) (data : D) :
  wf e →
  (∀ h, h ∈ listeners e event → Forall (quiet event) (script (body h data))) →
  ∃ fuel0, ∀ fuel, (fuel0 ≤ fuel)%nat →
    ∃ e', emit body fuel e event data
          = Some (e', deliver body data <$> listeners e event)
        ∧ listeners e' event = listeners e event.
Proof.
  intros He Hq. destruct (emit_quiet body e event data He Hq) as [fuel0 H].
  exists fuel0. intros fuel Hf. destruct (H fuel Hf) as (e' & ? & _ & ?).
  by exists e'.
Qed.

Lemma emit_delivers_registered_witness :
  let e := (on (on empty "cart:cleared" 1%nat).1 "cart:cleared" 2%nat).1 in
  listeners e "cart:cleared" = [1%nat; 2%nat]
  ∧ ∃ fuel0, ∀ fuel, (fuel0 ≤ fuel)%nat →
      ∃ e', emit Sample.idle_body fuel e "cart:cleared" tt
            = Some (e', deliver Sample.idle_body tt
                          <$> listeners e "cart:cleared")
          ∧ listeners e' "cart:cleared" = listeners e "cart:cleared".
Proof.
  split; [vm_compute; reflexivity|].
  apply (emit_delivers_registered Sample.idle_body).
  - apply on_wf, on_wf, empty_wf.
  - intros h _. simpl. constructor.
Defined.

(** C8 fails as stated: handler 2 is not registered when [emit] is invoked,
    handler 1 registers it while it runs, and the same [emit] calls it. *)
Lemma emit_calls_handler_registered_meanwhile :
  let e := (on empty "cart:cleared" 1%nat).1 in
  listeners e "cart:cleared" = [1%nat]
  ∧ match emit Sample.recruiting_body 5 e "cart:cleared" tt with
    | Some (_, trace) => called <$> trace = [1%nat; 2%nat]
    | None => False
    end.
Proof. split; vm_compute; reflexivity. Qed.

(** C10: registering a handler a second time for the same event leaves the
    emitter, and the closure returned, exactly as after the first
    registration; the handler is listed and counted once, an [emit] calls
    it once, and one [off], or either closure returned, removes it. *)
Theorem on_twice_is_on_once (e : EventEmitter) (event : string) (h : nat) :
  wf e →
  let once := on e event h in
  let twice := on once.1 event h in
  twice = once
  ∧ listenerCount twice.1 event
    = (if bool_decide (h ∈ listeners e event) then listenerCount e event
       else S (listenerCount e event))
  ∧ filter (λ x, x = h) (listeners twice.1 event) = [h]
  ∧ (∀ D (body : nat → D → behaviour) (data : D),
       (∀ h', h' ∈ listeners twice.1 event →
              Forall (quiet event) (script (body h' data))) →
       ∃ fuel0, ∀ fuel, (fuel0 ≤ fuel)%nat →
         ∃ e' trace, emit body fuel twice.1 event data = Some (e', trace)
           ∧ filter (λ d, called d = h) trace = [deliver body data h])
  ∧ unsubscribe twice.1 twice.2 = off twice.1 event h
  ∧ unsubscribe twice.1 once.2 = off twice.1 event h
  ∧ listeners (off twice.1 event h) event
    = filter (λ x, x ≠ h) (listeners e event)
  ∧ listenerCount (off twice.1 event h) event
    = length (filter (λ x, x ≠ h) (listeners e event)).
Proof.
  intros He once twice.
  assert (twice = once) as Heq by apply on_on.
  assert (wf once.1) as Hw by by apply on_wf.
  assert (listeners once.1 event
          = if bool_decide (h ∈ listeners e event) then listeners e event
            else listeners e event ++ [h]) as Hl by by apply listeners_on.
  assert (h ∈ listeners once.1 event) as Hin.
  { rewrite Hl. case_bool_decide; set_solver. }
  assert (listeners (off once.1 event h) event
          = filter (λ x, x ≠ h) (listeners e event)) as Hoff.
  { rewrite listeners_off by done. rewrite Hl. case_bool_decide as Hh; [done|].
    rewrite filter_app, filter_cons_False, filter_nil, app_nil_r; [done|].
    by intros ?. }
  rewrite Heq. split_and!; try done.
  - rewrite !listenerCount_listeners, Hl. case_bool_decide; [done|].
    rewrite length_app. simpl. lia.
  - apply filter_eq_nodup; [by apply listeners_nodup|done].
  - intros D body data Hq.
    destruct (emit_quiet body once.1 event data Hw Hq) as [fuel0 H].
    exists fuel0. intros fuel Hf. destruct (H fuel Hf) as (e' & -> & _).
    eexists _, _. split; [done|]. rewrite filter_called. 
    rewrite filter_eq_nodup; [done|by apply listeners_nodup|done].
  - by rewrite listenerCount_listeners, Hoff.
Qed.

Lemma on_twice_is_on_once_witness :
  let once := on empty "wishlist:item:added" 7%nat in
  let twice := on once.1 "wishlist:item:added" 7%nat in
  twice = once
  ∧ listenerCount twice.1 "wishlist:item:added" = 1%nat
  ∧ listeners (off twice.1 "wishlist:item:added" 7%nat) "wishlist:item:added"
    = [].
Proof.
  pose proof (on_twice_is_on_once empty "wishlist:item:added" 7%nat empty_wf)
    as (H1 & H2 & _ & _ & _ & _ & H3 & _).
  split_and!; [exact H1|exact H2|exact H3].
Defined.

End EventsFacts.

(** ** The browser storage *)

Module StorageFacts.

Lemma set_item {T} (s : BrowserStorage.t T) (v : T) :
  (BrowserStorage.set s v).2 = s
  ∨ BrowserStorage.item (BrowserStorage.set s v).2 = Some v.
Proof.
  unfold BrowserStorage.set.
  destruct (BrowserStorage.available s), (BrowserStorage.writable s); auto.
Qed.

Lemma set_item_keeps {T} (P : T → Prop) (s : BrowserStorage.t T) (v : T) :
  (∀ x, BrowserStorage.item s = Some x → P x) → P v →
  ∀ x, BrowserStorage.item (BrowserStorage.set s v).2 = Some x → P x.
Proof.
  intros Hs Hv x. destruct (set_item s v) as [->| ->]; [apply Hs|].
  by intros [= <-].
Qed.

End StorageFacts.

(** ** The cart *)

Module CartFacts.
Import CartResource.
(** *** What [get] reads *)

Section CartBasics.
Context {R : Type}.
Variable env : Env R.

Lemma cart_get_world (w : World) :
  storage (get env w).2 = storage w
  ∧ emitted (get env w).2 = emitted w
  ∧ requests (get env w).2 = requests w.
Proof.
  unfold get, storage_get. run_state.
  by destruct (BrowserStorage.get (storage w)).
Qed.

Lemma cart_get_pure (w : World) : cart_store_pure w → cart_pure (get env w).1.
Proof.
  intros Hw. unfold get, storage_get. run_state.
  unfold BrowserStorage.get.
  destruct (BrowserStorage.available (storage w)); [|by split].
  destruct (BrowserStorage.item (storage w)) eqn:E; [by apply Hw|by split].
Qed.

End CartBasics.

(** *** The aggregates *)

Section CartPurity.
Context {R : Type}.
Variable env : Env R.

Lemma totals_pure (id : string) (items : list CartItem.t)
    (created updated : Z) :
  cart_pure
    {| Cart.id := id; Cart.items := items;
       Cart.subtotal :=
         reduce (λ total item,
                   total + CartItem.price item * CartItem.quantity item)
                0 items;
       Cart.total_items :=
         reduce (λ total item, total + CartItem.quantity item) 0 items;
       Cart.created_at := created; Cart.updated_at := updated |}.
Proof.
  split; simpl; rewrite reduce_sum; [done|].
  unfold sum_of_values. f_equal.
  induction items as [|x l IH]; simpl; [done|]. lia.
Qed.

Lemma empty_pure (id : string) (created updated : Z) :
  cart_pure
    {| Cart.id := id; Cart.items := []; Cart.subtotal := 0;
       Cart.total_items := 0; Cart.created_at := created;
       Cart.updated_at := updated |}.
Proof. by split. Qed.

Lemma store_pure_set (s : BrowserStorage.t Cart.t) (cart : Cart.t)
    (c d : nat) (ev : list (Event CartItem.t Cart.t))
    (rq : list CartPost.t) :
  (∀ cart', BrowserStorage.item s = Some cart' → cart_pure cart') →
  cart_pure cart →
  cart_store_pure
    {| storage := (BrowserStorage.set s cart).2; clock := c; dice := d;
       emitted := ev; requests := rq |}.
Proof.
  intros Hs Hc cart'. simpl.
  destruct (StorageFacts.set_item s cart) as [->| ->]; [apply Hs|].
  by intros [= <-].
Qed.

Lemma get_store_pure (w : World) :
  cart_store_pure w → cart_store_pure (get env w).2.
Proof.
  intros Hw cart. destruct (cart_get_world env w) as (-> & _). apply Hw.
Qed.

Lemma cart_call_pure (m : Mutation) (w : World) :
  cart_store_pure w →
  cart_pure (call env m w).1 ∧ cart_store_pure (call env m w).2.
Proof.
  intros Hw.
  pose proof (cart_get_pure env w Hw) as Hg.
  pose proof (get_store_pure w Hw) as Hg'.
  assert (∀ cart', BrowserStorage.item (storage (get env w).2) = Some cart'
                   → cart_pure cart') as Hs by exact Hg'.
  destruct m as [p q|itemId|itemId q|]; simpl.
  - unfold addItem. run_state.
    destruct (findIndex _ _) as [i|]; simpl;
      (split; [|apply store_pure_set; [done|]]); apply totals_pure.
  - unfold removeItem. run_state.
    destruct (find _ _); simpl; [|done].
    split; [|apply store_pure_set; [done|]]; apply totals_pure.
  - unfold updateItemQuantity. case_decide.
    + unfold removeItem. run_state.
      destruct (find _ _); simpl; [|done].
      split; [|apply store_pure_set; [done|]]; apply totals_pure.
    + run_state. destruct (findIndex _ _); simpl; [|done].
      split; [|apply store_pure_set; [done|]]; apply totals_pure.
  - unfold clear, createEmptyCart. run_state.
    split; [|apply store_pure_set; [apply Hw|]]; apply empty_pure.
Qed.

Lemma cart_session_pure (ms : list Mutation) (w : World) :
  cart_store_pure w →
  Forall (λ r, cart_pure r.1 ∧ cart_store_pure r.2) (session env ms w).
Proof.
  revert w. induction ms as [|m ms IH]; intros w Hw; simpl; [constructor|].
  destruct (cart_call_pure m w Hw) as [H1 H2].
  constructor; [done|]. by apply IH.
Qed.
End CartPurity.

(** *** Quantities and prices *)

Section CartQuantities.
Context {R : Type}.
Variable env : Env R.

Lemma sum_of_values_app (l1 l2 : list CartItem.t) :
  sum_of_values (l1 ++ l2) = sum_of_values l1 + sum_of_values l2.
Proof.
  unfold sum_of_values. induction l1 as [|x l1 IH]; simpl; [done|].
  rewrite IH. lia.
Qed.

Lemma sum_of_quantities_app (l1 l2 : list CartItem.t) :
  sum_of_quantities (l1 ++ l2) = sum_of_quantities l1 + sum_of_quantities l2.
Proof.
  unfold sum_of_quantities. induction l1 as [|x l1 IH]; simpl; [done|].
  rewrite IH. lia.
Qed.

Lemma removeItem_absent (itemId : string) (w : World) :
  find (λ item, bool_decide (CartItem.id item = itemId))
       (Cart.items (get env w).1) = None →
  removeItem env itemId w = get env w.
Proof.
  intros H. unfold removeItem. run_state. rewrite H.
  by destruct (get env w).
Qed.

(** C7: for a quantity of zero or less, [updateItemQuantity] is
    [removeItem]: the same cart returned, the same world left behind (what
    is stored, what was published). *)
Theorem updateItemQuantity_nonpositive_is_removeItem
    (itemId : string) (quantity : Z) (w : World) :
  quantity ≤ 0 →
  updateItemQuantity env itemId quantity w = removeItem env itemId w.
Proof. intros H. unfold updateItemQuantity. by rewrite decide_True. Qed.

(** C9: adding a product that the cart already holds creates no entry; the
    first entry of that product gets the added quantity on top of its own
    and the price the product now carries, so all its units count at the
    new price in the subtotal. *)
Theorem addItem_merges_and_reprices (product : Product.t) (quantity : Z)
    (w : World) (before after : list CartItem.t) (old : CartItem.t) :
  Cart.items (get env w).1 = before ++ old :: after →
  Product.id (CartItem.product old) = Product.id product →
  Forall (λ item, Product.id (CartItem.product item) ≠ Product.id product)
         before →
  let merged :=
    {| CartItem.id := CartItem.id old;
       CartItem.product := CartItem.product old;
       CartItem.quantity := CartItem.quantity old + quantity;
       CartItem.price := Product.price product |} in
  let result := (addItem env product quantity w).1 in
  Cart.items result = before ++ merged :: after
  ∧ length (Cart.items result) = length (Cart.items (get env w).1)
  ∧ Cart.subtotal result
    = sum_of_values before
      + (CartItem.quantity old + quantity) * Product.price product
      + sum_of_values after
  ∧ Cart.total_items result
    = sum_of_quantities (Cart.items (get env w).1) + quantity
  ∧ (storage_usable (storage w) →
     BrowserStorage.item (storage (addItem env product quantity w).2)
     = Some result).
Proof.
  intros Hitems Hold Hbefore merged result.
  assert (findIndex (λ item, bool_decide
            (Product.id (CartItem.product item) = Product.id product))
            (Cart.items (get env w).1) = Some (length before)) as Hfind.
  { rewrite Hitems. apply findIndex_app_first.
    - eapply Forall_impl; [exact Hbefore|]. simpl. intros x Hx.
      by rewrite bool_decide_eq_false_2.
    - by rewrite bool_decide_eq_true_2. }
  assert (Cart.items result = before ++ merged :: after) as Hres.
  { unfold result, addItem. run_state. rewrite Hfind. simpl.
    rewrite Hitems. replace (length before) with (length before + 0)%nat by lia.
    by rewrite alter_app_r. }
  assert (cart_pure result) as [Hq Hv].
  { unfold result, addItem. run_state. rewrite Hfind. simpl.
    apply totals_pure. }
  split_and!.
  - done.
  - rewrite Hres, Hitems, !length_app. done.
  - rewrite Hv, Hres, sum_of_values_app. unfold sum_of_values at 2.
    simpl. fold (sum_of_values after). lia.
  - rewrite Hq, Hres, Hitems, !sum_of_quantities_app.
    unfold sum_of_quantities at 2 4. simpl. 
    fold (sum_of_quantities after). lia.
  - intros [Ha Hw]. unfold result, addItem. run_state. rewrite Hfind. simpl.
    destruct (cart_get_world env w) as (-> & _).
    unfold BrowserStorage.set. by rewrite Ha, Hw.
Qed.
End CartQuantities.

Lemma updateItemQuantity_nonpositive_is_removeItem_witness :
  0 ≤ 0
  ∧ updateItemQuantity Sample.cart_env "item_1003_r1" 0
      (addItem Sample.cart_env Sample.book 2 fresh).2
    = removeItem Sample.cart_env "item_1003_r1"
      (addItem Sample.cart_env Sample.book 2 fresh).2.
Proof.
  split; [lia|].
  apply (updateItemQuantity_nonpositive_is_removeItem Sample.cart_env). lia.
Defined.

Lemma addItem_merges_and_reprices_witness :
  let w := (addItem Sample.cart_env Sample.book 2 fresh).2 in
  let dearer :=
    {| Product.id := 1; Product.title := "Book"; Product.price := 12 |} in
  let result := (addItem Sample.cart_env dearer 3 w).1 in
  length (Cart.items result) = 1%nat
  ∧ Cart.subtotal result = 0 + (2 + 3) * 12 + 0
  ∧ Cart.total_items result = 2 + 3.
Proof.
  intros w dearer result.
  pose proof (addItem_merges_and_reprices Sample.cart_env dearer 3 w [] []
    {| CartItem.id := "item_1003_r1"; CartItem.product := Sample.book;
       CartItem.quantity := 2; CartItem.price := 10 |}
    eq_refl eq_refl (Forall_nil_2 _)) as (_ & H1 & H2 & H3 & _).
  split_and!; [exact H1|exact H2|exact H3].
Defined.

(** *** The events published *)

Section CartEvents.
Context {R : Type}.
Variable env : Env R.

Lemma find_id_None (itemId : string) (items : list CartItem.t) :
  find (λ item, bool_decide (CartItem.id item = itemId)) items = None
  ↔ itemId ∉ CartItem.id <$> items.
Proof.
  rewrite find_findIndex, findIndex_None, list_elem_of_fmap, Forall_forall.
  split.
  - intros H (x & -> & Hx). apply (H x Hx). by apply bool_decide_eq_true_2.
  - intros H x Hx Hb. apply bool_decide_eq_true in Hb. apply H. by exists x.
Qed.

Lemma cart_addItem_emitted (product : Product.t) (quantity : Z) (w : World) :
  ∃ entry,
    emitted (addItem env product quantity w).2
    = emitted w ++ [{| topic := "cart:item:added";
                       data := WithItem (Some entry)
                                 (addItem env product quantity w).1 |}]
    ∧ entry ∈ Cart.items (addItem env product quantity w).1
    ∧ Product.id (CartItem.product entry) = Product.id product.
Proof.
  unfold addItem. run_state.
  destruct (cart_get_world env w) as (_ & Hem & _).
  destruct (findIndex _ _) as [i|] eqn:E; simpl; rewrite Hem.
  - apply findIndex_Some in E as (x & Hx & Hp & _).
    apply bool_decide_eq_true in Hp.
    rewrite list_lookup_alter_eq, Hx. simpl.
    eexists. split; [done|]. split; [|done].
    eapply list_elem_of_lookup_2.
    by rewrite list_lookup_alter_eq, Hx.
  - rewrite length_app. simpl.
    replace (pred (length (Cart.items (get env w).1) + 1))
      with (length (Cart.items (get env w).1) + 0)%nat by lia.
    rewrite lookup_app_r, Nat.add_comm, Nat.add_sub by lia. simpl.
    eexists. split; [done|]. split; [|done].
    apply elem_of_app. right. by apply list_elem_of_singleton.
Qed.

Lemma cart_removeItem_emitted (itemId : string) (w : World) :
  emitted (removeItem env itemId w).2
  = emitted w
    ++ if bool_decide (itemId ∈ CartItem.id <$> Cart.items (get env w).1)
       then [{| topic := "cart:item:removed";
                data := WithItemId itemId (removeItem env itemId w).1 |}]
       else [].
Proof.
  destruct (cart_get_world env w) as (_ & Hem & _).
  destruct (find (λ item, bool_decide (CartItem.id item = itemId))
                 (Cart.items (get env w).1)) as [x|] eqn:E.
  - rewrite bool_decide_eq_true_2.
    2:{ destruct (decide (itemId ∈ CartItem.id <$> Cart.items (get env w).1))
          as [|Hn]; [done|].
        apply find_id_None in Hn. congruence. }
    unfold removeItem. run_state. rewrite E. simpl. by rewrite Hem.
  - rewrite bool_decide_eq_false_2 by by apply find_id_None.
    rewrite removeItem_absent by done. by rewrite Hem, app_nil_r.
Qed.

Lemma updateItemQuantity_emitted (itemId : string) (quantity : Z)
    (w : World) :
  0 < quantity →
  if bool_decide (itemId ∈ CartItem.id <$> Cart.items (get env w).1)
  then ∃ entry,
      emitted (updateItemQuantity env itemId quantity w).2
      = emitted w ++ [{| topic := "cart:item:updated";
                         data := WithItem (Some entry)
                           (updateItemQuantity env itemId quantity w).1 |}]
      ∧ entry ∈ Cart.items (updateItemQuantity env itemId quantity w).1
      ∧ CartItem.id entry = itemId
      ∧ CartItem.quantity entry = quantity
  else updateItemQuantity env itemId quantity w = get env w.
Proof.
  intros Hq. unfold updateItemQuantity. rewrite decide_False by lia.
  run_state.
  destruct (cart_get_world env w) as (_ & Hem & _).
  destruct (findIndex _ _) as [i|] eqn:E; simpl.
  - apply findIndex_Some in E as (x & Hx & Hp & _).
    apply bool_decide_eq_true in Hp.
    rewrite bool_decide_eq_true_2.
    2:{ apply list_elem_of_fmap. exists x. split; [done|].
        by eapply list_elem_of_lookup_2. }
    rewrite Hem, list_lookup_alter_eq, Hx. simpl.
    eexists. split; [done|]. split; [|done].
    eapply list_elem_of_lookup_2. by rewrite list_lookup_alter_eq, Hx.
  - rewrite bool_decide_eq_false_2; [by destruct (get env w)|].
    apply find_id_None. by apply find_findIndex.
Qed.

Lemma cart_clear_emitted (w : World) :
  emitted (clear env w).2
  = emitted w ++ [{| topic := "cart:cleared";
                     data := Bare (clear env w).1 |}].
Proof. reflexivity. Qed.
End CartEvents.

(** *** The backend is left alone *)

Section CartFrame.
Context {R : Type}.

Lemma call_reply_irrelevant (time : nat → Z) (rand : nat → string)
    (reply1 reply2 : nat → R) (m : Mutation) (w : World) :
  call {| now := time; random := rand; reply := reply1 |} m w
  = call {| now := time; random := rand; reply := reply2 |} m w.
Proof. destruct m; reflexivity. Qed.

Lemma call_requests (env : Env R) (m : Mutation) (w : World) :
  requests (call env m w).2 = requests w.
Proof.
  destruct (cart_get_world env w) as (_ & _ & Hr).
  destruct m as [p q|itemId|itemId q|]; simpl.
  - unfold addItem. run_state. by destruct (findIndex _ _).
  - unfold removeItem. run_state. by destruct (find _ _).
  - unfold updateItemQuantity. case_decide.
    + unfold removeItem. run_state. by destruct (find _ _).
    + run_state. by destruct (findIndex _ _).
  - reflexivity.
Qed.
End CartFrame.

End CartFacts.

(** ** The wishlist *)

Module WishlistFacts.
Import WishlistResource.
(** *** What [get] reads, and the aggregates *)

Section WishlistPurity.
Variable env : Env.

Lemma wishlist_store_pure_set (s : BrowserStorage.t Wishlist.t)
    (wishlist : Wishlist.t) (u : option Z) (c d f : nat)
    (ev : list (Event WishlistItem.t Wishlist.t)) (rq : list Request) :
  (∀ x, BrowserStorage.item s = Some x → wishlist_pure x) →
  wishlist_pure wishlist →
  wishlist_store_pure
    {| storage := (BrowserStorage.set s wishlist).2; userId := u;
       clock := c; dice := d; fetches := f; emitted := ev;
       requests := rq |}.
Proof.
  intros Hs Hc x. simpl.
  destruct (StorageFacts.set_item s wishlist) as [->| ->]; [apply Hs|].
  by intros [= <-].
Qed.

Lemma getRemoteWishlist_world (w : World) :
  storage (getRemoteWishlist env w).2 = storage w
  ∧ userId (getRemoteWishlist env w).2 = userId w
  ∧ clock (getRemoteWishlist env w).2 = clock w
  ∧ dice (getRemoteWishlist env w).2 = dice w
  ∧ emitted (getRemoteWishlist env w).2 = emitted w.
Proof.
  unfold getRemoteWishlist, this_owner. run_state.
  by destruct (owner w).
Qed.

Lemma getRemoteWishlist_result (w : World) :
  (getRemoteWishlist env w).1
  = match owner w with
    | Some _ => first_snapshot (reply env (fetches w))
    | None => None
    end.
Proof.
  unfold getRemoteWishlist, this_owner. run_state.
  by destruct (owner w).
Qed.

Lemma wishlist_get_pure (w : World) :
  wishlist_store_pure w → remote_pure env →
  wishlist_pure (get env w).1 ∧ wishlist_store_pure (get env w).2
  ∧ userId (get env w).2 = userId w.
Proof.
  intros Hw Hr. unfold get. run_state.
  pose proof (getRemoteWishlist_result w) as Hres.
  destruct (getRemoteWishlist_world w) as (Hst & Hu & _).
  destruct (getRemoteWishlist env w).1 as [remote|] eqn:E; simpl.
  - assert (wishlist_pure remote) as Hp.
    { destruct (owner w); [|done]. by eapply Hr. }
    split_and!; [done| |done].
    apply wishlist_store_pure_set; [|done]. rewrite Hst. apply Hw.
  - unfold storage_get, createEmptyWishlist. run_state.
    unfold BrowserStorage.get. rewrite Hst.
    destruct (BrowserStorage.available (storage w)); simpl.
    + destruct (BrowserStorage.item (storage w)) eqn:Ei; simpl.
      * split_and!; [by apply Hw| |done]. intros x. rewrite Hst. apply Hw.
      * split_and!; [done| |done]. intros x. simpl. rewrite Hst. apply Hw.
    + split_and!; [done| |done]. intros x. simpl. rewrite Hst. apply Hw.
Qed.

Lemma saveToRemote_world (wishlist : Wishlist.t) (w : World) :
  storage (saveToRemote wishlist w).2 = storage w
  ∧ userId (saveToRemote wishlist w).2 = userId w
  ∧ clock (saveToRemote wishlist w).2 = clock w
  ∧ dice (saveToRemote wishlist w).2 = dice w
  ∧ fetches (saveToRemote wishlist w).2 = fetches w
  ∧ emitted (saveToRemote wishlist w).2 = emitted w.
Proof.
  unfold saveToRemote, this_owner. run_state. by destruct (owner w).
Qed.

Lemma hasProduct_eq (productId : Z) (w : World) :
  hasProduct env productId w
  = (some (λ item, bool_decide
             (Product.id (WishlistItem.product item) = productId))
          (Wishlist.items (get env w).1),
     (get env w).2).
Proof. reflexivity. Qed.

Lemma meta_pure (items : list WishlistItem.t) (updated : Z) :
  wishlist_pure
    {| Wishlist.items := items;
       Wishlist.total_items := Z.of_nat (length items);
       Wishlist.updated_at := updated |}.
Proof. reflexivity. Qed.

Lemma addItem_pure (product : Product.t) (w : World) :
  wishlist_store_pure w → remote_pure env →
  wishlist_pure (addItem env product w).1
  ∧ wishlist_store_pure (addItem env product w).2.
Proof.
  intros Hw Hr.
  destruct (wishlist_get_pure w Hw Hr) as (H1 & H2 & H3).
  destruct (wishlist_get_pure _ H2 Hr) as (H4 & H5 & H6).
  unfold addItem. run_state. simpl.
  destruct (some _ _); simpl; [done|].
  split; [apply meta_pure|].
  intros x. simpl.
  match goal with
  | |- context [saveToRemote ?a ?b] =>
      destruct (saveToRemote_world a b) as (-> & _)
  end.
  simpl. revert x.
  apply (StorageFacts.set_item_keeps wishlist_pure); [exact H5|apply meta_pure].
Qed.

Lemma removeItem_pure (itemId : string) (w : World) :
  wishlist_store_pure w → remote_pure env →
  wishlist_pure (removeItem env itemId w).1
  ∧ wishlist_store_pure (removeItem env itemId w).2.
Proof.
  intros Hw Hr.
  destruct (wishlist_get_pure w Hw Hr) as (H1 & H2 & H3).
  unfold removeItem. run_state.
  split; [apply meta_pure|].
  intros x. simpl.
  match goal with
  | |- context [saveToRemote ?a ?b] =>
      destruct (saveToRemote_world a b) as (-> & _)
  end.
  simpl. revert x.
  apply (StorageFacts.set_item_keeps wishlist_pure); [exact H2|apply meta_pure].
Qed.

Lemma removeProduct_pure (productId : Z) (w : World) :
  wishlist_store_pure w → remote_pure env →
  wishlist_pure (removeProduct env productId w).1
  ∧ wishlist_store_pure (removeProduct env productId w).2.
Proof.
  intros Hw Hr.
  destruct (wishlist_get_pure w Hw Hr) as (H1 & H2 & H3).
  unfold removeProduct. run_state.
  destruct (find _ _); simpl; [|done].
  by apply removeItem_pure.
Qed.

Lemma clear_pure (w : World) :
  wishlist_store_pure w →
  wishlist_pure (clear env w).1 ∧ wishlist_store_pure (clear env w).2.
Proof.
  intros Hw. unfold clear, createEmptyWishlist. run_state.
  split; [done|]. intros x. simpl.
  match goal with
  | |- context [saveToRemote ?a ?b] =>
      destruct (saveToRemote_world a b) as (-> & _)
  end.
  simpl. revert x.
  apply (StorageFacts.set_item_keeps wishlist_pure); [exact Hw|done].
Qed.

Lemma wishlist_call_pure (m : Mutation) (w : World) :
  wishlist_store_pure w → remote_pure env →
  wishlist_pure (call env m w).1 ∧ wishlist_store_pure (call env m w).2.
Proof.
  intros Hw Hr. destruct m as [p|itemId|productId|p|]; simpl.
  - by apply addItem_pure.
  - by apply removeItem_pure.
  - by apply removeProduct_pure.
  - unfold toggleProduct. run_state. simpl.
    destruct (wishlist_get_pure w Hw Hr) as (H1 & H2 & H3).
    destruct (some _ _); simpl.
    + by apply removeProduct_pure.
    + by apply addItem_pure.
  - by apply clear_pure.
Qed.

Lemma wishlist_session_pure (ms : list Mutation) (w : World) :
  wishlist_store_pure w → remote_pure env →
  Forall (λ r, wishlist_pure r.1 ∧ wishlist_store_pure r.2)
         (session env ms w).
Proof.
  intros Hw Hr. revert w Hw.
  induction ms as [|m ms IH]; intros w Hw; simpl; [constructor|].
  destruct (wishlist_call_pure m w Hw Hr) as [H1 H2].
  constructor; [done|]. by apply IH.
Qed.
End WishlistPurity.

(** *** The events published *)

Section WishlistEvents.
Variable env : Env.

Lemma wishlist_get_world (w : World) :
  userId (get env w).2 = userId w
  ∧ dice (get env w).2 = dice w
  ∧ emitted (get env w).2 = emitted w.
Proof.
  unfold get. run_state.
  destruct (getRemoteWishlist_world env w) as (_ & Hu & _ & Hd & He).
  destruct (getRemoteWishlist env w).1; simpl; [done|].
  unfold storage_get, createEmptyWishlist. run_state.
  by destruct (BrowserStorage.get _).
Qed.

Lemma wishlist_addItem_emitted (product : Product.t) (w : World) :
  if (hasProduct env (Product.id product) (get env w).2).1
  then emitted (addItem env product w).2 = emitted w
       ∧ (addItem env product w).1 = (get env w).1
  else ∃ entry,
      emitted (addItem env product w).2
      = emitted w ++ [{| topic := "wishlist:item:added";
                         data := WithItem (Some entry)
                                   (addItem env product w).1 |}]
      ∧ Wishlist.items (addItem env product w).1
        = Wishlist.items (get env w).1 ++ [entry]
      ∧ WishlistItem.product entry = product.
Proof.
  unfold addItem. run_state.
  destruct (wishlist_get_world w) as (_ & _ & He1).
  destruct (wishlist_get_world (get env w).2) as (_ & _ & He2).
  destruct (some _ _); simpl.
  - by rewrite He2, He1.
  - match goal with
    | |- context [saveToRemote ?a ?b] =>
        destruct (saveToRemote_world a b) as (_ & _ & _ & _ & _ & ->)
    end.
    simpl. rewrite He2, He1. eexists. split; [done|]. done.
Qed.

Lemma wishlist_removeItem_emitted (itemId : string) (w : World) :
  emitted (removeItem env itemId w).2
  = emitted w ++ [{| topic := "wishlist:item:removed";
                     data := WithItemId itemId (removeItem env itemId w).1 |}].
Proof.
  unfold removeItem. run_state.
  destruct (wishlist_get_world w) as (_ & _ & He1).
  match goal with
  | |- context [saveToRemote ?a ?b] =>
      destruct (saveToRemote_world a b) as (_ & _ & _ & _ & _ & ->)
  end.
  simpl. by rewrite He1.
Qed.

Lemma wishlist_clear_emitted (w : World) :
  emitted (clear env w).2
  = emitted w ++ [{| topic := "wishlist:cleared";
                     data := Bare (clear env w).1 |}].
Proof.
  unfold clear. run_state.
  match goal with
  | |- context [saveToRemote ?a ?b] =>
      destruct (saveToRemote_world a b) as (_ & _ & _ & _ & _ & ->)
  end.
  done.
Qed.

Lemma sort_emitted
    (compareFn : option (WishlistItem.t → WishlistItem.t → Z)) (w : World) :
  emitted (sort env compareFn w).2 = emitted w.
Proof.
  unfold sort. run_state.
  destruct (wishlist_get_world w) as (_ & _ & He1).
  match goal with
  | |- context [saveToRemote ?a ?b] =>
      destruct (saveToRemote_world a b) as (_ & _ & _ & _ & _ & ->)
  end.
  simpl. by rewrite He1.
Qed.

Lemma call_sort_emitted (s : Sort) (w : World) :
  emitted (call_sort env s w).2 = emitted w.
Proof.
  destruct s; unfold call_sort, sortByName, sortByPrice, sortByDateAdded;
    apply sort_emitted.
Qed.
End WishlistEvents.

(** *** Without an owner *)

Section WishlistLocal.
Variable env : Env.

Lemma owner_userId (w w' : World) :
  userId w' = userId w → owner w' = owner w.
Proof. unfold owner. by intros ->. Qed.

Lemma get_no_owner (w : World) :
  owner w = None → get env w = getLocal env w.
Proof.
  intros H. unfold get, getLocal, getRemoteWishlist, this_owner. run_state.
  by rewrite H.
Qed.

Lemma saveToRemote_no_owner (wishlist : Wishlist.t) (w : World) :
  owner w = None → saveToRemote wishlist w = (tt, w).
Proof.
  intros H. unfold saveToRemote, this_owner. run_state. by rewrite H.
Qed.

Lemma getLocal_world (w : World) :
  storage (getLocal env w).2 = storage w
  ∧ userId (getLocal env w).2 = userId w
  ∧ dice (getLocal env w).2 = dice w
  ∧ fetches (getLocal env w).2 = fetches w
  ∧ emitted (getLocal env w).2 = emitted w
  ∧ requests (getLocal env w).2 = requests w.
Proof.
  unfold getLocal, storage_get, createEmptyWishlist. run_state.
  by destruct (BrowserStorage.get (storage w)).
Qed.

Lemma getLocal_owner (w : World) : owner (getLocal env w).2 = owner w.
Proof. apply owner_userId, getLocal_world. Qed.
End WishlistLocal.

(** *** Without an owner, the replies of the backend do not matter *)

Section Independence.
Variables (time : nat → Z) (rand : nat → string).
Variables (reply1 reply2 : nat → Reply) (lc : string → string → Z).
Local Abbreviation env1 :=
  {| now := time; random := rand; reply := reply1; localeCompare := lc |}.
Local Abbreviation env2 :=
  {| now := time; random := rand; reply := reply2; localeCompare := lc |}.

Lemma getLocal_indep (w : World) : getLocal env2 w = getLocal env1 w.
Proof. reflexivity. Qed.

Lemma addItem_indep (product : Product.t) (w : World) :
  owner w = None → addItem env1 product w = addItem env2 product w.
Proof.
  intros H.
  assert (owner (getLocal env1 w).2 = None) as H1
    by by rewrite getLocal_owner.
  assert (owner (getLocal env1 (getLocal env1 w).2).2 = None) as H2
    by by rewrite getLocal_owner.
  unfold addItem. run_state.
  rewrite !(get_no_owner env1 w H), !(get_no_owner env2 w H).
  rewrite !getLocal_indep.
  rewrite !(get_no_owner env1 _ H1), !(get_no_owner env2 _ H1).
  rewrite !getLocal_indep.
  destruct (some _ _); simpl; [done|].
  by rewrite !saveToRemote_no_owner by (unfold owner; simpl; exact H2).
Qed.

Lemma removeItem_indep (itemId : string) (w : World) :
  owner w = None → removeItem env1 itemId w = removeItem env2 itemId w.
Proof.
  intros H.
  assert (owner (getLocal env1 w).2 = None) as H1
    by by rewrite getLocal_owner.
  unfold removeItem. run_state.
  rewrite !(get_no_owner env1 w H), !(get_no_owner env2 w H).
  rewrite !getLocal_indep.
  by rewrite !saveToRemote_no_owner by (unfold owner; simpl; exact H1).
Qed.

Lemma removeProduct_indep (productId : Z) (w : World) :
  owner w = None →
  removeProduct env1 productId w = removeProduct env2 productId w.
Proof.
  intros H.
  assert (owner (getLocal env1 w).2 = None) as H1
    by by rewrite getLocal_owner.
  unfold removeProduct. run_state.
  rewrite !(get_no_owner env1 w H), !(get_no_owner env2 w H).
  rewrite !getLocal_indep.
  destruct (find _ _); [|done].
  by apply removeItem_indep.
Qed.

Lemma clear_indep (w : World) : clear env1 w = clear env2 w.
Proof. reflexivity. Qed.

Lemma call_indep (m : Mutation) (w : World) :
  owner w = None → call env1 m w = call env2 m w.
Proof.
  intros H. destruct m as [p|itemId|productId|p|]; simpl.
  - by apply addItem_indep.
  - by apply removeItem_indep.
  - by apply removeProduct_indep.
  - assert (owner (getLocal env1 w).2 = None) as H1
      by by rewrite getLocal_owner.
    unfold toggleProduct. run_state.
    rewrite !(get_no_owner env1 w H), !(get_no_owner env2 w H).
    rewrite !getLocal_indep.
    destruct (some _ _); simpl.
    + by rewrite removeProduct_indep.
    + by rewrite addItem_indep.
  - apply clear_indep.
Qed.
End Independence.

(** *** The requests sent *)

Section WishlistRequests.
Variable env : Env.

Lemma get_requests (w : World) :
  requests (get env w).2
  = requests w ++ match owner w with
                  | Some u => [GET "/generis" ("wishlist_" +:+ pretty u)
                                   wishlistKind 1]
                  | None => []
                  end.
Proof.
  unfold get, getRemoteWishlist, this_owner. run_state.
  destruct (owner w); simpl.
  - destruct (first_snapshot _); simpl; [done|].
    unfold storage_get, createEmptyWishlist. run_state.
    by destruct (BrowserStorage.get _).
  - unfold storage_get, createEmptyWishlist. run_state.
    rewrite app_nil_r. by destruct (BrowserStorage.get _).
Qed.

Lemma get_fetched (w : World) (u : Z) (snapshot : Wishlist.t) :
  owner w = Some u → first_snapshot (reply env (fetches w)) = Some snapshot →
  (get env w).1 = snapshot.
Proof.
  intros Hu Hf. unfold get, getRemoteWishlist, this_owner. run_goal.
  rewrite Hu. simpl. by rewrite Hf.
Qed.

Lemma saveToRemote_requests (wishlist : Wishlist.t) (w : World) :
  ∃ rest, requests (saveToRemote wishlist w).2 = requests w ++ rest.
Proof.
  unfold saveToRemote, this_owner. run_state.
  destruct (owner w); simpl; [by eexists|].
  exists []. by rewrite app_nil_r.
Qed.

Lemma get_grows (w : World) :
  ∃ rest, requests (get env w).2 = requests w ++ rest.
Proof. rewrite get_requests. by eexists. Qed.

Lemma grows_trans (l l1 l2 : list Request) :
  (∃ rest, l1 = l ++ rest) → (∃ rest, l2 = l1 ++ rest) →
  ∃ rest, l2 = l ++ rest.
Proof.
  intros [r1 ->] [r2 ->]. exists (r1 ++ r2). by rewrite app_assoc.
Qed.

Lemma addItem_grows (product : Product.t) (w : World) :
  ∃ rest, requests (addItem env product w).2 = requests w ++ rest.
Proof.
  eapply grows_trans; [apply get_grows|].
  unfold addItem. run_state.
  destruct (some _ _); simpl; [apply get_grows|].
  eapply grows_trans; [apply get_grows|].
  match goal with
  | |- context [saveToRemote ?a ?b] =>
      destruct (saveToRemote_requests a b) as [rest ->]
  end.
  simpl. by eexists.
Qed.

Lemma removeItem_grows (itemId : string) (w : World) :
  ∃ rest, requests (removeItem env itemId w).2 = requests w ++ rest.
Proof.
  eapply grows_trans; [apply get_grows|].
  unfold removeItem. run_state.
  match goal with
  | |- context [saveToRemote ?a ?b] =>
      destruct (saveToRemote_requests a b) as [rest ->]
  end.
  simpl. by eexists.
Qed.

Lemma removeProduct_grows (productId : Z) (w : World) :
  ∃ rest, requests (removeProduct env productId w).2 = requests w ++ rest.
Proof.
  eapply grows_trans; [apply get_grows|].
  unfold removeProduct. run_state.
  destruct (find _ _); [apply removeItem_grows|].
  exists []. by rewrite app_nil_r.
Qed.

Lemma call_begins_with_fetch (m : Mutation) (w : World) (u : Z) :
  owner w = Some u → m ≠ Clear →
  ∃ rest, requests (call env m w).2
          = requests w ++ GET "/generis" ("wishlist_" +:+ pretty u)
                              wishlistKind 1 :: rest.
Proof.
  intros Hu Hm.
  assert (∀ w', (∃ rest, requests w' = requests (get env w).2 ++ rest) →
                ∃ rest, requests w'
                        = requests w ++ GET "/generis" ("wishlist_" +:+ pretty u)
                                            wishlistKind 1 :: rest) as Hstart.
  { intros w' [rest ->]. rewrite get_requests, Hu, <- app_assoc. by eexists. }
  destruct m as [p|itemId|productId|p|]; simpl; [| | | |done]; apply Hstart.
  - unfold addItem. run_state.
    destruct (some _ _); simpl; [apply get_grows|].
    eapply grows_trans; [apply get_grows|].
    match goal with
    | |- context [saveToRemote ?a ?b] =>
        destruct (saveToRemote_requests a b) as [rest ->]
    end.
    simpl. by eexists.
  - unfold removeItem. run_state.
    match goal with
    | |- context [saveToRemote ?a ?b] =>
        destruct (saveToRemote_requests a b) as [rest ->]
    end.
    simpl. by eexists.
  - unfold removeProduct. run_state.
    destruct (find _ _); [apply removeItem_grows|].
    exists []. by rewrite app_nil_r.
  - unfold toggleProduct. run_state.
    destruct (some _ _); simpl.
    + apply removeProduct_grows.
    + apply addItem_grows.
Qed.

Lemma getLocal_no_owner (w : World) :
  owner w = None →
  requests (getLocal env w).2 = requests w
  ∧ fetches (getLocal env w).2 = fetches w
  ∧ owner (getLocal env w).2 = None.
Proof.
  intros H. destruct (getLocal_world env w) as (_ & _ & _ & ? & _ & ?).
  by rewrite getLocal_owner.
Qed.

Lemma removeItem_no_owner (itemId : string) (w : World) :
  owner w = None →
  requests (removeItem env itemId w).2 = requests w
  ∧ fetches (removeItem env itemId w).2 = fetches w
  ∧ owner (removeItem env itemId w).2 = None.
Proof.
  intros H. destruct (getLocal_no_owner w H) as (? & ? & H1).
  unfold removeItem. run_goal. rewrite !(get_no_owner env w H).
  by rewrite !saveToRemote_no_owner by (unfold owner; simpl; exact H1).
Qed.

Lemma addItem_no_owner (product : Product.t) (w : World) :
  owner w = None →
  requests (addItem env product w).2 = requests w
  ∧ fetches (addItem env product w).2 = fetches w
  ∧ owner (addItem env product w).2 = None.
Proof.
  intros H. destruct (getLocal_no_owner w H) as (Hr1 & Hf1 & H1).
  destruct (getLocal_no_owner _ H1) as (Hr2 & Hf2 & H2).
  unfold addItem. run_goal. rewrite !(get_no_owner env w H).
  rewrite !(get_no_owner env _ H1).
  destruct (some _ _); simpl; [by rewrite Hr2, Hf2, Hr1, Hf1|].
  rewrite !saveToRemote_no_owner by (unfold owner; simpl; exact H2).
  simpl. by rewrite Hr2, Hf2, Hr1, Hf1.
Qed.

Lemma removeProduct_no_owner (productId : Z) (w : World) :
  owner w = None →
  requests (removeProduct env productId w).2 = requests w
  ∧ fetches (removeProduct env productId w).2 = fetches w
  ∧ owner (removeProduct env productId w).2 = None.
Proof.
  intros H. destruct (getLocal_no_owner w H) as (Hr1 & Hf1 & H1).
  unfold removeProduct. run_goal. rewrite !(get_no_owner env w H).
  destruct (find _ _) as [x|]; cbv beta iota; [|done].
  destruct (removeItem_no_owner (WishlistItem.id x) _ H1) as (E1 & E2 & E3).
  by rewrite E1, E2, E3.
Qed.

Lemma call_no_owner (m : Mutation) (w : World) :
  owner w = None →
  requests (call env m w).2 = requests w
  ∧ fetches (call env m w).2 = fetches w
  ∧ owner (call env m w).2 = None.
Proof.
  intros H. destruct m as [p|itemId|productId|p|]; simpl.
  - by apply addItem_no_owner.
  - by apply removeItem_no_owner.
  - by apply removeProduct_no_owner.
  - destruct (getLocal_no_owner w H) as (Hr1 & Hf1 & H1).
    unfold toggleProduct, mbind, State_bind, mret, State_ret.
    rewrite hasProduct_eq. cbn [fst snd]. rewrite !(get_no_owner env w H).
    destruct (some _ _); cbn [fst snd].
    + destruct (removeProduct_no_owner (Product.id p) _ H1) as (E1 & E2 & E3).
      by rewrite E1, E2, E3.
    + destruct (addItem_no_owner p _ H1) as (E1 & E2 & E3).
      by rewrite E1, E2, E3.
  - unfold clear. run_goal.
    by rewrite !saveToRemote_no_owner by (unfold owner; simpl; exact H).
Qed.

Lemma clear_fetches (w : World) : fetches (clear env w).2 = fetches w.
Proof.
  unfold clear. run_state.
  match goal with
  | |- context [saveToRemote ?a ?b] =>
      destruct (saveToRemote_world a b) as (_ & _ & _ & _ & -> & _)
  end.
  done.
Qed.
End WishlistRequests.

(** *** On local state only *)

Section WishlistLocalOnly.
Variable env : Env.

Lemma local_only_after (w w' : World) :
  userId w' = userId w → storage_usable (storage w') →
  local_only env w → local_only env w'.
Proof.
  intros Hu Hs [Hsil _]. split; [|done].
  destruct Hsil as [Ho|Hn]; [left|by right].
  by rewrite (owner_userId w w').
Qed.

Lemma get_local_only (w : World) :
  local_only env w →
  Wishlist.items (get env w).1 = stored_items w
  ∧ storage (get env w).2 = storage w
  ∧ emitted (get env w).2 = emitted w
  ∧ local_only env (get env w).2.
Proof.
  intros Hl. pose proof Hl as [Hsil [Ha Hw]].
  assert ((getRemoteWishlist env w).1 = None) as Hnone.
  { rewrite getRemoteWishlist_result.
    destruct Hsil as [-> | Hn]; [done|]. by destruct (owner w). }
  destruct (getRemoteWishlist_world env w) as (Hst & Hu & _ & _ & He).
  assert (Wishlist.items (get env w).1 = stored_items w
          ∧ storage (get env w).2 = storage w
          ∧ emitted (get env w).2 = emitted w) as (H1 & H2 & H3).
  { unfold get. run_goal. rewrite Hnone.
    unfold storage_get, createEmptyWishlist. run_goal.
    rewrite Hst. unfold BrowserStorage.get, stored_items. rewrite Ha.
    by destruct (BrowserStorage.item (storage w)). }
  split_and!; try done.
  apply (local_only_after w); [apply wishlist_get_world|by rewrite H2|done].
Qed.

Lemma set_usable (s : BrowserStorage.t Wishlist.t) (x : Wishlist.t) :
  storage_usable s →
  storage_usable (BrowserStorage.set s x).2
  ∧ BrowserStorage.item (BrowserStorage.set s x).2 = Some x.
Proof.
  intros [Ha Hw]. unfold BrowserStorage.set. rewrite Ha, Hw. by split.
Qed.

Lemma removeItem_local_only (itemId : string) (w : World) :
  local_only env w →
  let r := removeItem env itemId w in
  Wishlist.items r.1
  = filter (λ item, WishlistItem.id item ≠ itemId) (stored_items w)
  ∧ stored_items r.2 = Wishlist.items r.1
  ∧ emitted r.2
    = emitted w ++ [{| topic := "wishlist:item:removed";
                       data := WithItemId itemId r.1 |}]
  ∧ local_only env r.2.
Proof.
  intros Hl r.
  destruct (get_local_only w Hl) as (Hi & Hs & He & Hl1).
  pose proof (wishlist_removeItem_emitted env itemId w) as Hem.
  assert (Wishlist.items r.1
          = filter (λ item, WishlistItem.id item ≠ itemId) (stored_items w))
    as Hitems.
  { unfold r, removeItem. run_goal. by rewrite Hi. }
  assert (storage r.2 = (BrowserStorage.set (storage w) r.1).2
          ∧ userId r.2 = userId w) as [Hst Hu].
  { unfold r, removeItem. run_goal.
    match goal with
    | |- context [saveToRemote ?a ?b] =>
        destruct (saveToRemote_world a b) as (-> & -> & _)
    end.
    simpl. rewrite Hs. split; [done|]. apply wishlist_get_world. }
  destruct Hl as [Hsil Hus].
  destruct (set_usable (storage w) r.1 Hus) as [Hus' Hit].
  split_and!; [done| |done|].
  - unfold stored_items. by rewrite Hst, Hit.
  - apply (local_only_after w); [done|by rewrite Hst|done].
Qed.

Lemma addItem_local_only (product : Product.t) (w : World) :
  local_only env w →
  let r := addItem env product w in
  if wishes (Product.id product) (stored_items w)
  then Wishlist.items r.1 = stored_items w
       ∧ stored_items r.2 = stored_items w
       ∧ emitted r.2 = emitted w
       ∧ local_only env r.2
  else ∃ entry,
      WishlistItem.product entry = product
      ∧ Wishlist.items r.1 = stored_items w ++ [entry]
      ∧ stored_items r.2 = Wishlist.items r.1
      ∧ emitted r.2
        = emitted w ++ [{| topic := "wishlist:item:added";
                           data := WithItem (Some entry) r.1 |}]
      ∧ local_only env r.2.
Proof.
  intros Hl r.
  destruct (get_local_only w Hl) as (Hi & Hs & He & Hl1).
  destruct (get_local_only _ Hl1) as (Hi2 & Hs2 & He2 & Hl2).
  pose proof (wishlist_addItem_emitted env product w) as Hem.
  rewrite hasProduct_eq in Hem. cbn [fst snd] in Hem.
  assert (stored_items (get env w).2 = stored_items w) as Hsi
    by (unfold stored_items; by rewrite Hs).
  rewrite Hi2, Hsi in Hem. fold (wishes (Product.id product) (stored_items w)) in Hem.
  assert (userId r.2 = userId w
          ∧ storage r.2
            = if wishes (Product.id product) (stored_items w)
              then storage w
              else (BrowserStorage.set (storage w) r.1).2) as [Hu Hst].
  { unfold r, addItem. run_goal. rewrite Hi2, Hsi.
    fold (wishes (Product.id product) (stored_items w)).
    destruct (wishlist_get_world env w) as (Hu1 & _).
    destruct (wishlist_get_world env (get env w).2) as (Hu2 & _).
    destruct (wishes _ _); simpl.
    - by rewrite Hu2, Hu1, Hs2, Hs.
    - match goal with
      | |- context [saveToRemote ?a ?b] =>
          destruct (saveToRemote_world a b) as (-> & -> & _)
      end.
      simpl. by rewrite Hu2, Hu1, Hs2, Hs. }
  destruct Hl as [Hsil Hus].
  destruct (wishes (Product.id product) (stored_items w)).
  - destruct Hem as [Hem Hr]. fold r in Hem, Hr. split_and!.
    + by rewrite Hr.
    + unfold stored_items. by rewrite Hst.
    + done.
    + apply (local_only_after w); [done|by rewrite Hst|by split].
  - destruct Hem as (entry & Hem & Hit & Hp). fold r in Hem, Hit.
    destruct (set_usable (storage w) r.1 Hus) as [Hus' Hitem].
    exists entry. split_and!.
    + done.
    + by rewrite Hit, Hi.
    + unfold stored_items. by rewrite Hst, Hitem.
    + done.
    + apply (local_only_after w); [done|by rewrite Hst|by split].
Qed.
End WishlistLocalOnly.

(** *** Toggling *)

Section WishlistToggle.
Variable env : Env.

Lemma wishes_false (productId : Z) (items : list WishlistItem.t) :
  wishes productId items = false
  ↔ ∀ item, item ∈ items →
            Product.id (WishlistItem.product item) ≠ productId.
Proof.
  unfold wishes. rewrite some_false, Forall_forall. split.
  - intros H item Hin Heq. apply (H item Hin). by apply bool_decide_eq_true_2.
  - intros H item Hin Hb. apply bool_decide_eq_true in Hb. by apply (H item).
Qed.

Lemma wishes_true (productId : Z) (items : list WishlistItem.t) :
  wishes productId items = true
  ↔ ∃ item, item ∈ items
            ∧ Product.id (WishlistItem.product item) = productId.
Proof.
  unfold wishes. rewrite some_true, Exists_exists. split.
  - intros (item & Hin & Hb). apply bool_decide_eq_true in Hb. eauto.
  - intros (item & Hin & Heq). exists item. split; [done|].
    by apply bool_decide_eq_true_2.
Qed.

Lemma find_wished (productId : Z) (items : list WishlistItem.t) :
  wishes productId items = true →
  ∃ x, find (λ item, bool_decide
               (Product.id (WishlistItem.product item) = productId)) items
       = Some x
     ∧ x ∈ items ∧ Product.id (WishlistItem.product x) = productId.
Proof.
  intros H.
  destruct (find _ items) as [x|] eqn:E.
  - exists x. split; [done|]. unfold find in E.
    destruct (list_find _ items) as [[i y]|] eqn:El; simpl in E; [|done].
    injection E as ->. apply list_find_Some in El as (Hl & Hb & _).
    apply bool_decide_eq_true in Hb. split; [|done].
    by eapply list_elem_of_lookup_2.
  - apply find_findIndex, findIndex_None in E.
    apply some_false in E. unfold wishes in H. congruence.
Qed.

Lemma removeProduct_local_only (productId : Z) (w : World) :
  local_only env w → wishes productId (stored_items w) = true →
  let r := removeProduct env productId w in
  ∃ x, x ∈ stored_items w
     ∧ Product.id (WishlistItem.product x) = productId
     ∧ Wishlist.items r.1
       = filter (λ item, WishlistItem.id item ≠ WishlistItem.id x)
                (stored_items w)
     ∧ stored_items r.2 = Wishlist.items r.1
     ∧ emitted r.2
       = emitted w ++ [{| topic := "wishlist:item:removed";
                          data := WithItemId (WishlistItem.id x) r.1 |}]
     ∧ local_only env r.2.
Proof.
  intros Hl Hin r.
  destruct (get_local_only env w Hl) as (Hi & Hs & He & Hl1).
  destruct (find_wished productId (stored_items w) Hin) as (x & Hf & Hx & Hp).
  assert (r = removeItem env (WishlistItem.id x) (get env w).2) as ->.
  { unfold r, removeProduct. run_goal. by rewrite Hi, Hf. }
  destruct (removeItem_local_only env (WishlistItem.id x) _ Hl1)
    as (H1 & H2 & H3 & H4).
  assert (stored_items (get env w).2 = stored_items w) as Hsi
    by (unfold stored_items; by rewrite Hs).
  exists x. rewrite Hsi in H1. rewrite He in H3. done.
Qed.

Lemma toggleProduct_local_only (product : Product.t) (w : World) :
  local_only env w →
  let r := toggleProduct env product w in
  if wishes (Product.id product) (stored_items w)
  then ∃ x, x ∈ stored_items w
          ∧ Product.id (WishlistItem.product x) = Product.id product
          ∧ r.1.2 = false
          ∧ Wishlist.items r.1.1
            = filter (λ item, WishlistItem.id item ≠ WishlistItem.id x)
                     (stored_items w)
          ∧ stored_items r.2 = Wishlist.items r.1.1
          ∧ emitted r.2
            = emitted w ++ [{| topic := "wishlist:item:removed";
                               data := WithItemId (WishlistItem.id x) r.1.1 |}]
          ∧ local_only env r.2
  else ∃ entry,
      WishlistItem.product entry = product
      ∧ r.1.2 = true
      ∧ Wishlist.items r.1.1 = stored_items w ++ [entry]
      ∧ stored_items r.2 = Wishlist.items r.1.1
      ∧ emitted r.2
        = emitted w ++ [{| topic := "wishlist:item:added";
                           data := WithItem (Some entry) r.1.1 |}]
      ∧ local_only env r.2.
Proof.
  intros Hl r.
  destruct (get_local_only env w Hl) as (Hi & Hs & He & Hl1).
  assert (stored_items (get env w).2 = stored_items w) as Hsi
    by (unfold stored_items; by rewrite Hs).
  assert (r = if wishes (Product.id product) (stored_items w)
              then (((removeProduct env (Product.id product) (get env w).2).1,
                     false),
                    (removeProduct env (Product.id product) (get env w).2).2)
              else (((addItem env product (get env w).2).1, true),
                    (addItem env product (get env w).2).2)) as Hr.
  { unfold r, toggleProduct, mbind, State_bind, mret, State_ret.
    rewrite hasProduct_eq. cbn [fst snd]. rewrite Hi.
    fold (wishes (Product.id product) (stored_items w)).
    by destruct (wishes _ _). }
  destruct (wishes (Product.id product) (stored_items w)) eqn:Hw.
  - destruct (removeProduct_local_only (Product.id product) (get env w).2 Hl1)
      as (x & H1 & H2 & H3 & H4 & H5 & H6); [by rewrite Hsi|].
    rewrite Hr. cbn [fst snd]. exists x.
    rewrite Hsi in H1, H3. rewrite He in H5. done.
  - pose proof (addItem_local_only env product (get env w).2 Hl1) as Ha.
    rewrite Hsi, Hw in Ha. destruct Ha as (entry & H1 & H2 & H3 & H4 & H5).
    rewrite Hr. cbn [fst snd]. exists entry. rewrite He in H4. done.
Qed.

Lemma wishes_app_entry (product : Product.t) (items : list WishlistItem.t)
    (entry : WishlistItem.t) :
  WishlistItem.product entry = product →
  wishes (Product.id product) (items ++ [entry]) = true.
Proof.
  intros H. apply wishes_true. exists entry. split; [set_solver|].
  by rewrite H.
Qed.

Lemma filter_product_app_entry (product : Product.t)
    (items : list WishlistItem.t) (entry : WishlistItem.t) :
  wishes (Product.id product) items = false →
  WishlistItem.product entry = product →
  filter (λ item, Product.id (WishlistItem.product item) = Product.id product)
         (items ++ [entry])
  = [entry].
Proof.
  intros Hw He. rewrite filter_app.
  rewrite wishes_false in Hw.
  assert (filter (λ item, Product.id (WishlistItem.product item)
                          = Product.id product) items = []) as ->.
  { induction items as [|y l IH]; [done|].
    rewrite filter_cons_False by (apply Hw; set_solver).
    apply IH. intros item Hin. apply Hw. set_solver. }
  rewrite filter_cons_True by by rewrite He. done.
Qed.

Lemma wishes_filter_out (productId : Z) (items : list WishlistItem.t)
    (P : WishlistItem.t → Prop) `{∀ x, Decision (P x)} :
  (∀ item, item ∈ items →
           Product.id (WishlistItem.product item) = productId → ¬ P item) →
  wishes productId (filter P items) = false.
Proof.
  intros Hout. apply wishes_false. intros item Hin Heq.
  apply list_elem_of_filter in Hin as [HP Hin]. by apply (Hout item).
Qed.

Lemma same_product_same_entry (items : list WishlistItem.t)
    (x y : WishlistItem.t) :
  NoDup ((λ item, Product.id (WishlistItem.product item)) <$> items) →
  x ∈ items → y ∈ items →
  Product.id (WishlistItem.product x) = Product.id (WishlistItem.product y) →
  x = y.
Proof.
  intros Hnd [i Hi]%list_elem_of_lookup [j Hj]%list_elem_of_lookup Heq.
  assert (i = j) as ->.
  { eapply NoDup_lookup; [exact Hnd| |].
    - rewrite list_lookup_fmap, Hi. done.
    - rewrite list_lookup_fmap, Hj. simpl. by rewrite Heq. }
  congruence.
Qed.
End WishlistToggle.

End WishlistFacts.

(** ** What a mutation recomputes *)

Section Recomputation.
Context {R : Type}.
Variable cenv : CartResource.Env R.
Variable wenv : WishlistResource.Env.

Lemma cart_call_recomputes (m : CartResource.Mutation)
    (w : CartResource.World) :
  match m with
  | CartResource.AddItem _ _ | CartResource.Clear =>
      cart_pure (CartResource.call cenv m w).1
  | CartResource.RemoveItem itemId
  | CartResource.UpdateItemQuantity itemId _ =>
      if bool_decide
           (itemId ∈ CartItem.id <$> Cart.items (CartResource.get cenv w).1)
      then cart_pure (CartResource.call cenv m w).1
      else CartResource.call cenv m w = CartResource.get cenv w
  end.
Proof.
  assert (∀ itemId,
    if bool_decide
         (itemId ∈ CartItem.id <$> Cart.items (CartResource.get cenv w).1)
    then cart_pure (CartResource.removeItem cenv itemId w).1
    else CartResource.removeItem cenv itemId w = CartResource.get cenv w)
    as Hremove.
  { intros itemId. case_bool_decide as Hin.
    - unfold CartResource.removeItem. run_goal.
      destruct (find _ _) as [x|] eqn:E.
      + simpl. apply CartFacts.totals_pure.
      + apply CartFacts.find_id_None in E. done.
    - by apply CartFacts.removeItem_absent, CartFacts.find_id_None. }
  destruct m as [p q|itemId|itemId q|]; unfold CartResource.call.
  - unfold CartResource.addItem. run_goal.
    destruct (findIndex _ _) as [i|]; simpl; apply CartFacts.totals_pure.
  - apply Hremove.
  - destruct (decide (q ≤ 0)) as [Hq|Hq].
    + unfold CartResource.updateItemQuantity. rewrite decide_True by done.
      apply Hremove.
    + pose proof (CartFacts.updateItemQuantity_emitted cenv itemId q w) as H.
      case_bool_decide as Hin; [|apply H; lia].
      unfold CartResource.updateItemQuantity. rewrite decide_False by done.
      run_goal. destruct (findIndex _ _) as [i|] eqn:E; simpl.
      * apply CartFacts.totals_pure.
      * exfalso. apply find_findIndex, CartFacts.find_id_None in E. done.
  - split; reflexivity.
Qed.

Lemma wishlist_call_recomputes (m : WishlistResource.Mutation)
    (w : WishlistResource.World) :
  match m with
  | WishlistResource.RemoveItem _ | WishlistResource.Clear =>
      wishlist_pure (WishlistResource.call wenv m w).1
  | WishlistResource.AddItem product =>
      if (WishlistResource.hasProduct wenv (Product.id product)
            (WishlistResource.get wenv w).2).1
      then (WishlistResource.call wenv m w).1
           = (WishlistResource.get wenv w).1
      else wishlist_pure (WishlistResource.call wenv m w).1
  | _ => True
  end.
Proof.
  destruct m as [p|itemId|productId|p|]; unfold WishlistResource.call;
    [| | done | done |].
  - unfold WishlistResource.addItem, mbind, State_bind, mret, State_ret.
    cbn [fst snd].
    destruct (WishlistResource.hasProduct wenv (Product.id p)
                (WishlistResource.get wenv w).2).1; [done|].
    apply WishlistFacts.meta_pure.
  - unfold WishlistResource.removeItem. run_goal.
    apply WishlistFacts.meta_pure.
  - reflexivity.
Qed.
End Recomputation.

(** ** [get] before the cast *)

Module ReadFacts.
Import WishlistRead.

Lemma get_fetched_value (env : Env) (w : World) (u : Z) :
  owner w = Some u →
  truthy (first_data (reply env (fetches w))) = true →
  (get env w).1 = first_data (reply env (fetches w))
  ∧ storage (get env w).2
    = (BrowserStorage.set (storage w)
         (first_data (reply env (fetches w)))).2
  ∧ requests (get env w).2
    = requests w ++ [WishlistResource.GET "/generis"
                       ("wishlist_" +:+ pretty u)
                       WishlistResource.wishlistKind 1].
Proof.
  intros Hu Ht. unfold get, getRemoteWishlist, this_owner. run_goal.
  rewrite Hu. simpl. by rewrite Ht.
Qed.

Lemma get_local_value (env : Env) (w : World) :
  owner w = None ∨ truthy (first_data (reply env (fetches w))) = false →
  match BrowserStorage.get (storage w) with
  | Some v =>
      if truthy v then (get env w).1 = v
      else ∃ updated,
          (get env w).1
          = Typed {| Wishlist.items := []; Wishlist.total_items := 0;
                     Wishlist.updated_at := updated |}
  | None =>
      ∃ updated,
        (get env w).1
        = Typed {| Wishlist.items := []; Wishlist.total_items := 0;
                   Wishlist.updated_at := updated |}
  end
  ∧ storage (get env w).2 = storage w.
Proof.
  intros Hnone. unfold get, getRemoteWishlist, this_owner. run_goal.
  destruct (owner w) as [u|] eqn:Hu; simpl.
  - destruct Hnone as [?|Ht]; [done|]. rewrite Ht.
    unfold storage_get, createEmptyWishlist. run_goal.
    destruct (BrowserStorage.get (storage w)) as [v|]; simpl;
      [destruct (truthy v)|]; simpl; eauto.
  - unfold storage_get, createEmptyWishlist. run_goal.
    destruct (BrowserStorage.get (storage w)) as [v|]; simpl;
      [destruct (truthy v)|]; simpl; eauto.
Qed.

(** On values that are wishlists the two models of [get] agree. *)
Lemma get_of_world (env : WishlistResource.Env)
    (w : WishlistResource.World) :
  get (of_env env) (of_world w)
  = (Typed (WishlistResource.get env w).1,
     of_world (WishlistResource.get env w).2).
Proof.
  unfold get, getRemoteWishlist, this_owner, WishlistResource.get,
    WishlistResource.getRemoteWishlist, WishlistResource.this_owner.
  run_goal.
  change (owner (of_world w)) with (WishlistResource.owner w).
  destruct w as [[a wr it] u c d f em rq].
  destruct (WishlistResource.owner _) as [u'|]; simpl.
  - destruct (WishlistResource.reply env f) as [|[] [] [[|[x|] l]|]]; simpl;
      destruct a, wr, it; done.
  - destruct a, wr, it; done.
Qed.
End ReadFacts.

(** ** Reads that agree with the last write *)

Module ReadsFacts.
Import WishlistResource WishlistFacts.

Section Reads.
Variable env : Env.

Lemma get_fetches (w : World) :
  fetches (get env w).2
  = (fetches w + if owner w is Some _ then 1 else 0)%nat.
Proof.
  unfold get, getRemoteWishlist, this_owner. run_goal.
  destruct (owner w); simpl.
  - destruct (first_snapshot _); simpl; [lia|].
    unfold storage_get, createEmptyWishlist. run_goal.
    destruct (BrowserStorage.get _); simpl; lia.
  - unfold storage_get, createEmptyWishlist. run_goal.
    destruct (BrowserStorage.get _); simpl; lia.
Qed.

Lemma fetches_agree_after (w w' : World) (n m : nat)
    (items : list WishlistItem.t) :
  userId w' = userId w →
  (fetches w' = fetches w + m)%nat ∨ owner w = None →
  fetches_agree env w (m + n) items → fetches_agree env w' n items.
Proof.
  intros Hu Hf Ha k snapshot Hk Ho. rewrite (owner_userId w w' Hu) in Ho.
  destruct Hf as [Hf|Hf]; [|done].
  rewrite Hf, <- Nat.add_assoc. apply Ha; [lia|done].
Qed.

Lemma get_reads (w : World) (n : nat) (items : list WishlistItem.t) :
  storage_usable (storage w) → reads env w (S n) items →
  Wishlist.items (get env w).1 = items
  ∧ stored_items (get env w).2 = items
  ∧ storage_usable (storage (get env w).2)
  ∧ emitted (get env w).2 = emitted w
  ∧ reads env (get env w).2 n items.
Proof.
  intros Hus [Ha Hst].
  destruct (wishlist_get_world env w) as (Hu & _ & He).
  pose proof (get_fetches w) as Hf.
  pose proof (getRemoteWishlist_result env w) as Hres.
  destruct (getRemoteWishlist_world env w) as (Hs & _).
  assert ((getRemoteWishlist env w).1 = None →
          Wishlist.items (get env w).1 = stored_items w
          ∧ storage (get env w).2 = storage w) as Hlocal.
  { intros Hnone. unfold get. run_goal. rewrite Hnone.
    unfold storage_get, createEmptyWishlist. run_goal. rewrite Hs.
    unfold BrowserStorage.get, stored_items. destruct Hus as [-> _].
    by destruct (BrowserStorage.item (storage w)). }
  assert (Wishlist.items (get env w).1 = items
          ∧ stored_items (get env w).2 = items
          ∧ storage_usable (storage (get env w).2)) as (H1 & H2 & H3).
  { assert (∀ x, (getRemoteWishlist env w).1 = Some x →
              Wishlist.items x = items →
              Wishlist.items (get env w).1 = items
              ∧ stored_items (get env w).2 = items
              ∧ storage_usable (storage (get env w).2)) as Hremote.
    { intros x Hx Hitems.
      destruct (set_usable (storage w) x Hus) as [Hus' Hit].
      assert ((get env w).1 = x
              ∧ storage (get env w).2 = (BrowserStorage.set (storage w) x).2)
        as [-> Hset].
      { unfold get. run_goal. rewrite Hx. simpl. by rewrite Hs. }
      split_and!; [done| |by rewrite Hset].
      unfold stored_items. by rewrite Hset, Hit. }
    assert ((getRemoteWishlist env w).1 = None →
            stored_items w = items →
            Wishlist.items (get env w).1 = items
            ∧ stored_items (get env w).2 = items
            ∧ storage_usable (storage (get env w).2)) as Hnone.
    { intros Hx Hstored. destruct (Hlocal Hx) as [Hi Hsame].
      split_and!; [by rewrite Hi| |by rewrite Hsame].
      unfold stored_items. rewrite Hsame. exact Hstored. }
    rewrite Hres in Hremote, Hnone.
    destruct (owner w) as [u|] eqn:Ho.
    - destruct (first_snapshot (reply env (fetches w))) as [x|] eqn:Hx.
      + apply (Hremote x); [done|].
        apply (Ha 0%nat x); [lia|by rewrite Ho|].
        by rewrite Nat.add_0_r.
      + apply Hnone; [done|]. by destruct Hst as [?|[_ ?]].
    - apply Hnone; [done|]. by destruct Hst as [?|[? _]]. }
  split_and!; [done..|]. split; [|by left].
  apply (fetches_agree_after w _ n (if owner w is Some _ then 1 else 0)%nat);
    [done| |].
  - by left.
  - intros k snapshot Hk. apply Ha. destruct (owner w); lia.
Qed.

Lemma removeItem_reads (itemId : string) (w : World)
    (items : list WishlistItem.t) :
  storage_usable (storage w) → reads env w 1 items →
  let r := removeItem env itemId w in
  Wishlist.items r.1 = filter (λ item, WishlistItem.id item ≠ itemId) items
  ∧ stored_items r.2 = Wishlist.items r.1
  ∧ storage_usable (storage r.2)
  ∧ emitted r.2
    = emitted w ++ [{| topic := "wishlist:item:removed";
                       data := WithItemId itemId r.1 |}].
Proof.
  intros Hus Hr r.
  destruct (get_reads w 0 items Hus Hr) as (Hi & _ & Hus1 & _ & _).
  pose proof (wishlist_removeItem_emitted env itemId w) as Hem.
  assert (Wishlist.items r.1
          = filter (λ item, WishlistItem.id item ≠ itemId) items) as Hitems.
  { unfold r, removeItem. run_goal. by rewrite Hi. }
  assert (storage r.2 = (BrowserStorage.set (storage (get env w).2) r.1).2)
    as Hst.
  { unfold r, removeItem. run_goal.
    match goal with
    | |- context [saveToRemote ?a ?b] =>
        by destruct (saveToRemote_world a b) as (-> & _)
    end. }
  destruct (set_usable _ r.1 Hus1) as [Hus' Hit].
  split_and!; [done| |by rewrite Hst|done].
  unfold stored_items. by rewrite Hst, Hit.
Qed.

Lemma addItem_reads (product : Product.t) (w : World)
    (items : list WishlistItem.t) :
  storage_usable (storage w) → reads env w 2 items →
  let r := addItem env product w in
  if wishes (Product.id product) items
  then Wishlist.items r.1 = items
       ∧ stored_items r.2 = items
       ∧ storage_usable (storage r.2)
       ∧ emitted r.2 = emitted w
  else ∃ entry,
      WishlistItem.product entry = product
      ∧ Wishlist.items r.1 = items ++ [entry]
      ∧ stored_items r.2 = Wishlist.items r.1
      ∧ storage_usable (storage r.2)
      ∧ emitted r.2
        = emitted w ++ [{| topic := "wishlist:item:added";
                           data := WithItem (Some entry) r.1 |}].
Proof.
  intros Hus Hr r.
  destruct (get_reads w 1 items Hus Hr) as (Hi & _ & Hus1 & _ & Hr1).
  destruct (get_reads _ 0 items Hus1 Hr1) as (Hi2 & Hsi2 & Hus2 & _ & _).
  pose proof (wishlist_addItem_emitted env product w) as Hem.
  rewrite hasProduct_eq in Hem. cbn [fst snd] in Hem.
  rewrite Hi2 in Hem. fold (wishes (Product.id product) items) in Hem.
  assert (storage r.2
          = if wishes (Product.id product) items
            then storage (get env (get env w).2).2
            else (BrowserStorage.set (storage (get env (get env w).2).2)
                    r.1).2) as Hst.
  { unfold r, addItem. run_goal. rewrite Hi2.
    fold (wishes (Product.id product) items).
    destruct (wishes _ _); simpl; [done|].
    match goal with
    | |- context [saveToRemote ?a ?b] =>
        destruct (saveToRemote_world a b) as (-> & _)
    end.
    simpl. reflexivity. }
  fold r in Hem.
  destruct (wishes (Product.id product) items).
  - destruct Hem as [Hem Hres].
    split_and!; [by rewrite Hres| |by rewrite Hst|done].
    unfold stored_items. rewrite Hst. exact Hsi2.
  - destruct Hem as (entry & Hem & Hit & Hp).
    destruct (set_usable _ r.1 Hus2) as [Hus' Hitem].
    exists entry.
    split_and!; [done|by rewrite Hit, Hi| |by rewrite Hst|done].
    unfold stored_items. by rewrite Hst, Hitem.
Qed.

Lemma removeProduct_reads (productId : Z) (w : World)
    (items : list WishlistItem.t) :
  storage_usable (storage w) → reads env w 2 items →
  wishes productId items = true →
  let r := removeProduct env productId w in
  ∃ x, x ∈ items
     ∧ Product.id (WishlistItem.product x) = productId
     ∧ Wishlist.items r.1
       = filter (λ item, WishlistItem.id item ≠ WishlistItem.id x) items
     ∧ stored_items r.2 = Wishlist.items r.1
     ∧ storage_usable (storage r.2)
     ∧ emitted r.2
       = emitted w ++ [{| topic := "wishlist:item:removed";
                          data := WithItemId (WishlistItem.id x) r.1 |}].
Proof.
  intros Hus Hr Hin r.
  destruct (get_reads w 1 items Hus Hr) as (Hi & _ & Hus1 & He & Hr1).
  destruct (find_wished productId items Hin) as (x & Hf & Hx & Hp).
  assert (r = removeItem env (WishlistItem.id x) (get env w).2) as ->.
  { unfold r, removeProduct. run_goal. by rewrite Hi, Hf. }
  destruct (removeItem_reads (WishlistItem.id x) _ items Hus1 Hr1)
    as (H1 & H2 & H3 & H4).
  exists x. rewrite He in H4. done.
Qed.

Lemma toggleProduct_reads (product : Product.t) (w : World)
    (items : list WishlistItem.t) :
  storage_usable (storage w) → reads env w 3 items →
  let r := toggleProduct env product w in
  stored_items r.2 = Wishlist.items r.1.1
  ∧ storage_usable (storage r.2)
  ∧ if wishes (Product.id product) items
    then ∃ x, x ∈ items
            ∧ Product.id (WishlistItem.product x) = Product.id product
            ∧ r.1.2 = false
            ∧ Wishlist.items r.1.1
              = filter (λ item, WishlistItem.id item ≠ WishlistItem.id x)
                       items
            ∧ emitted r.2
              = emitted w
                ++ [{| topic := "wishlist:item:removed";
                       data := WithItemId (WishlistItem.id x) r.1.1 |}]
    else ∃ entry,
        WishlistItem.product entry = product
        ∧ r.1.2 = true
        ∧ Wishlist.items r.1.1 = items ++ [entry]
        ∧ emitted r.2
          = emitted w ++ [{| topic := "wishlist:item:added";
                             data := WithItem (Some entry) r.1.1 |}].
Proof.
  intros Hus Hr r.
  destruct (get_reads w 2 items Hus Hr) as (Hi & _ & Hus1 & He & Hr1).
  assert (r = if wishes (Product.id product) items
              then (((removeProduct env (Product.id product) (get env w).2).1,
                     false),
                    (removeProduct env (Product.id product) (get env w).2).2)
              else (((addItem env product (get env w).2).1, true),
                    (addItem env product (get env w).2).2)) as Heq.
  { unfold r, toggleProduct, mbind, State_bind, mret, State_ret.
    rewrite hasProduct_eq. cbn [fst snd]. rewrite Hi.
    fold (wishes (Product.id product) items).
    by destruct (wishes _ _). }
  destruct (wishes (Product.id product) items) eqn:Hw.
  - destruct (removeProduct_reads (Product.id product) _ items Hus1 Hr1 Hw)
      as (x & H1 & H2 & H3 & H4 & H5 & H6).
    rewrite Heq. cbn [fst snd]. split_and!; [done..|].
    exists x. rewrite He in H6. done.
  - pose proof (addItem_reads product _ items Hus1 Hr1) as Ha.
    cbv zeta in Ha. rewrite Hw in Ha.
    destruct Ha as (entry & H1 & H2 & H3 & H4 & H5).
    rewrite Heq. cbn [fst snd]. split_and!; [done..|].
    exists entry. rewrite He in H5. done.
Qed.

Lemma silent_reads (w : World) (n : nat) :
  remote_silent env w → reads env w n (stored_items w).
Proof.
  intros Hsil. split; [|by left].
  intros k snapshot _ Ho Hs. destruct Hsil as [?|Hnone]; [done|].
  by rewrite Hnone in Hs.
Qed.

Lemma silent_fetches_agree (w w' : World) (n : nat)
    (items : list WishlistItem.t) :
  remote_silent env w → userId w' = userId w → fetches_agree env w' n items.
Proof.
  intros Hsil Hu k snapshot _ Ho Hs. rewrite (owner_userId w w' Hu) in Ho.
  destruct Hsil as [?|Hnone]; [done|]. by rewrite Hnone in Hs.
Qed.
End Reads.
End ReadsFacts.

(** ** Both engines *)

(** C1, as the engines have it.  A mutation that changes the collection
    recomputes the aggregates from the entries, whatever the collection it
    read: the cart's [addItem] and [clear] always, its [removeItem] and
    [updateItemQuantity] when an entry has the identifier, the wishlist's
    [removeItem] and [clear] always, its [addItem] when the product is not
    yet held.  A mutation that changes nothing returns the collection it
    read, aggregates included.  So after every call of a session of
    mutations the collection returned and the collection stored carry
    aggregates that are the sums over their entries (the cart's
    [total_items] the sum of the quantities and its [subtotal] the sum of
    quantity times price, the wishlist's [total_items] the number of
    entries), provided the session starts from a store that is empty or
    holds such a collection and the backend hands out such snapshots
    only. *)
Theorem aggregates_pure_after_every_mutation {R}
    (cenv : CartResource.Env R) (cms : list CartResource.Mutation)
    (cw : CartResource.World)
    (wenv : WishlistResource.Env) (wms : list WishlistResource.Mutation)
    (ww : WishlistResource.World) :
  (∀ cm,
     match cm with
     | CartResource.AddItem _ _ | CartResource.Clear =>
         cart_pure (CartResource.call cenv cm cw).1
     | CartResource.RemoveItem itemId
     | CartResource.UpdateItemQuantity itemId _ =>
         if bool_decide
              (itemId
               ∈ CartItem.id <$> Cart.items (CartResource.get cenv cw).1)
         then cart_pure (CartResource.call cenv cm cw).1
         else CartResource.call cenv cm cw = CartResource.get cenv cw
     end)
  ∧ (∀ wm,
       match wm with
       | WishlistResource.RemoveItem _ | WishlistResource.Clear =>
           wishlist_pure (WishlistResource.call wenv wm ww).1
       | WishlistResource.AddItem product =>
           if (WishlistResource.hasProduct wenv (Product.id product)
                 (WishlistResource.get wenv ww).2).1
           then (WishlistResource.call wenv wm ww).1
                = (WishlistResource.get wenv ww).1
           else wishlist_pure (WishlistResource.call wenv wm ww).1
       | _ => True
       end)
  ∧ (cart_store_pure cw → wishlist_store_pure ww → remote_pure wenv →
     Forall (λ r, cart_pure r.1 ∧ cart_store_pure r.2)
            (CartResource.session cenv cms cw)
     ∧ Forall (λ r, wishlist_pure r.1 ∧ wishlist_store_pure r.2)
              (WishlistResource.session wenv wms ww)).
Proof.
  split_and!.
  - intros cm. apply cart_call_recomputes.
  - intros wm. apply wishlist_call_recomputes.
  - intros Hc Hw Hr. split.
    + by apply CartFacts.cart_session_pure.
    + by apply WishlistFacts.wishlist_session_pure.
Qed.

Lemma aggregates_pure_after_every_mutation_witness :
  Forall (λ r, cart_pure r.1 ∧ cart_store_pure r.2)
    (CartResource.session Sample.cart_env
       [CartResource.AddItem Sample.book 2;
        CartResource.AddItem Sample.pen 1;
        CartResource.UpdateItemQuantity "item_1003_r1" 0;
        CartResource.Clear]
       CartResource.fresh)
  ∧ Forall (λ r, wishlist_pure r.1 ∧ wishlist_store_pure r.2)
      (WishlistResource.session
         (Sample.wishlist_env (Sample.serving Sample.two_entries))
         [WishlistResource.AddItem Sample.book;
          WishlistResource.RemoveItem "wishlist_2_b";
          WishlistResource.ToggleProduct Sample.pen;
          WishlistResource.Clear]
         (Sample.signed_in 7)).
Proof.
  apply aggregates_pure_after_every_mutation.
  - intros cart H. discriminate H.
  - intros wl H. discriminate H.
  - intros n wl H. injection H as <-. reflexivity.
Defined.

(** C1 fails as stated.  The store holds a cart of one entry of quantity 2
    whose totals are 0; [removeItem] and [updateItemQuantity] of an
    identifier the cart does not hold return it as it is, with a
    [total_items] of 0 for entries that sum to 2.  With an owner whose
    backend serves a snapshot of two entries that counts five, [addItem] of
    a product the snapshot holds returns the snapshot as fetched, and that
    is what the local store now holds. *)
Lemma noop_returns_stale_aggregates :
  (let r := CartResource.removeItem Sample.cart_env "item_0_none"
              Scenario.stale_cart_world in
   let u := CartResource.updateItemQuantity Sample.cart_env "item_0_none" 3
              Scenario.stale_cart_world in
   r.1 = Scenario.stale_cart ∧ u.1 = Scenario.stale_cart
   ∧ Cart.total_items r.1 = 0 ∧ sum_of_quantities (Cart.items r.1) = 2
   ∧ Cart.subtotal r.1 = 0 ∧ sum_of_values (Cart.items r.1) = 20
   ∧ ¬ cart_pure r.1)
  ∧ (let env := Sample.wishlist_env (Sample.serving Scenario.stale_snapshot) in
     let r := WishlistResource.addItem env Sample.book (Sample.signed_in 7) in
     r.1 = Scenario.stale_snapshot
     ∧ Wishlist.total_items r.1 = 5
     ∧ length (Wishlist.items r.1) = 2%nat
     ∧ ¬ wishlist_pure r.1
     ∧ BrowserStorage.item (WishlistResource.storage r.2)
       = Some Scenario.stale_snapshot).
Proof.
  split.
  - vm_compute. split_and!; try reflexivity. intros [H _]. discriminate H.
  - vm_compute. split_and!; try reflexivity. intros H. discriminate H.
Qed.

(** The scenario of the specification: an empty cart, two of a product at
    10, one of a product at 5, the first entry set to quantity 0, then
    cleared. *)
Example cart_scenario :
  (λ r, (Cart.total_items r.1, Cart.subtotal r.1,
         length (CartResource.emitted r.2)))
    <$> CartResource.session Sample.cart_env
          [CartResource.AddItem Sample.book 2;
           CartResource.AddItem Sample.pen 1;
           CartResource.UpdateItemQuantity "item_1003_r1" 0;
           CartResource.Clear]
          CartResource.fresh
  = [(2, 20, 1%nat); (3, 25, 2%nat); (1, 5, 3%nat); (0, 0, 4%nat)].
Proof. vm_compute. reflexivity. Qed.

(** The wishlist scenario of the specification, on local state: once a
    product is added, both accessors find it. *)
Example wishlist_scenario :
  let env := Sample.wishlist_env WishlistResource.Rejected in
  let w := (WishlistResource.addItem env Sample.lamp
              WishlistResource.fresh).2 in
  (WishlistResource.hasProduct env 3 w).1 = true
  ∧ (WishlistResource.hasProductLocal env 3 w).1 = true.
Proof. vm_compute. split; reflexivity. Qed.

(** C3, as the engines have it: a mutation call that changes the collection
    publishes exactly one event, on the topic of the call, carrying the
    entry or the identifier and the collection returned.  The cart's
    [addItem] and both [clear]s always publish one; the cart's [removeItem]
    and [updateItemQuantity] publish one when the entry identifier is in the
    cart and none when it is not; the wishlist's [addItem] publishes one
    when the product is not yet in the wishlist and none when it is; the
    wishlist's [removeItem] publishes one when the entry identifier is in
    the wishlist.  The sort calls publish nothing. *)
Theorem one_event_per_change {R}
    (cenv : CartResource.Env R) (cw : CartResource.World)
    (wenv : WishlistResource.Env) (ww : WishlistResource.World) :
  let held itemId :=
    bool_decide (itemId ∈ CartItem.id
                   <$> Cart.items (CartResource.get cenv cw).1) in
  (∀ product quantity,
     let r := CartResource.addItem cenv product quantity cw in
     ∃ entry,
       CartResource.emitted r.2
       = CartResource.emitted cw
         ++ [{| topic := "cart:item:added";
                data := WithItem (Some entry) r.1 |}]
       ∧ entry ∈ Cart.items r.1
       ∧ Product.id (CartItem.product entry) = Product.id product)
  ∧ (∀ itemId,
       let r := CartResource.removeItem cenv itemId cw in
       CartResource.emitted r.2
       = CartResource.emitted cw
         ++ if held itemId
            then [{| topic := "cart:item:removed";
                     data := WithItemId itemId r.1 |}]
            else [])
  ∧ (∀ itemId quantity,
       let r := CartResource.updateItemQuantity cenv itemId quantity cw in
       if decide (quantity ≤ 0)
       then CartResource.emitted r.2
            = CartResource.emitted cw
              ++ if held itemId
                 then [{| topic := "cart:item:removed";
                          data := WithItemId itemId r.1 |}]
                 else []
       else if held itemId
       then ∃ entry,
           CartResource.emitted r.2
           = CartResource.emitted cw
             ++ [{| topic := "cart:item:updated";
                    data := WithItem (Some entry) r.1 |}]
           ∧ entry ∈ Cart.items r.1
           ∧ CartItem.id entry = itemId
           ∧ CartItem.quantity entry = quantity
       else CartResource.emitted r.2 = CartResource.emitted cw)
  ∧ (let r := CartResource.clear cenv cw in
     CartResource.emitted r.2
     = CartResource.emitted cw
       ++ [{| topic := "cart:cleared"; data := Bare r.1 |}])
  ∧ (∀ product,
       let r := WishlistResource.addItem wenv product ww in
       if (WishlistResource.hasProduct wenv (Product.id product)
             (WishlistResource.get wenv ww).2).1
       then WishlistResource.emitted r.2 = WishlistResource.emitted ww
       else ∃ entry,
           WishlistResource.emitted r.2
           = WishlistResource.emitted ww
             ++ [{| topic := "wishlist:item:added";
                    data := WithItem (Some entry) r.1 |}]
           ∧ Wishlist.items r.1
             = Wishlist.items (WishlistResource.get wenv ww).1 ++ [entry]
           ∧ WishlistItem.product entry = product)
  ∧ (∀ itemId,
       itemId ∈ WishlistItem.id
                  <$> Wishlist.items (WishlistResource.get wenv ww).1 →
       let r := WishlistResource.removeItem wenv itemId ww in
       WishlistResource.emitted r.2
       = WishlistResource.emitted ww
         ++ [{| topic := "wishlist:item:removed";
                data := WithItemId itemId r.1 |}])
  ∧ (let r := WishlistResource.clear wenv ww in
     WishlistResource.emitted r.2
     = WishlistResource.emitted ww
       ++ [{| topic := "wishlist:cleared"; data := Bare r.1 |}])
  ∧ (∀ s, WishlistResource.emitted (WishlistResource.call_sort wenv s ww).2
          = WishlistResource.emitted ww).
Proof.
  intros held. split_and!.
  - intros product quantity. apply CartFacts.cart_addItem_emitted.
  - intros itemId. apply CartFacts.cart_removeItem_emitted.
  - intros itemId quantity. simpl. case_decide as Hq.
    + unfold CartResource.updateItemQuantity. rewrite decide_True by done.
      apply CartFacts.cart_removeItem_emitted.
    + pose proof (CartFacts.updateItemQuantity_emitted cenv itemId quantity cw)
        as H.
      unfold held. destruct (bool_decide _); [apply H; lia|].
      rewrite H by lia.
      by destruct (CartFacts.cart_get_world cenv cw) as (_ & -> & _).
  - apply CartFacts.cart_clear_emitted.
  - intros product. cbv zeta.
    pose proof (WishlistFacts.wishlist_addItem_emitted wenv product ww) as H.
    destruct (WishlistResource.hasProduct _ _ _).1; [apply H|apply H].
  - intros itemId _. apply WishlistFacts.wishlist_removeItem_emitted.
  - apply WishlistFacts.wishlist_clear_emitted.
  - intros s. apply WishlistFacts.call_sort_emitted.
Qed.

Lemma one_event_per_change_witness :
  let env := Sample.wishlist_env WishlistResource.Rejected in
  let r := WishlistResource.removeItem env "wishlist_2_b"
             (Sample.seeded None) in
  WishlistResource.emitted r.2
  = [] ++ [{| topic := "wishlist:item:removed";
              data := WithItemId "wishlist_2_b" r.1 |}].
Proof.
  intros env r.
  pose proof (one_event_per_change Sample.cart_env CartResource.fresh
                env (Sample.seeded None))
    as (_ & _ & _ & _ & _ & H & _).
  apply H. right. left.
Defined.

(** C3 fails as stated: removing an entry identifier the cart does not hold
    is a mutation call that publishes no event. *)
Lemma removeItem_unknown_publishes_nothing :
  CartResource.emitted
    (CartResource.removeItem Sample.cart_env "item_0_none"
       CartResource.fresh).2
  = [].
Proof. vm_compute. reflexivity. Qed.

(** C2, as the engines have it.  [get()] of the cart, which has no owner
    identity, returns what the local store holds, or an empty cart when it
    holds nothing, and makes no request.  [get()] of the wishlist, with an
    owner set, first sends a fetch for the owner's record.  When the answer
    is ok and the first record holds a value that is truthy, that value is
    returned and written over what the local store held, whether or not it
    is a wishlist: nothing checks it.  When the fetch yields none (the
    request fails, the answer is not ok, holds no record or no data), or
    when no owner is set, what the local store holds is returned, or an
    empty wishlist when it holds nothing.  With two entries stored and a
    fetch that yields nothing, the two entries are returned.  On values
    that are wishlists, [WishlistResource.get] is this [get]. *)
Theorem get_read_contract {R}
    (cenv : CartResource.Env R) (cw : CartResource.World)
    (wenv : WishlistResource.Env) (ww : WishlistResource.World)
    (renv : WishlistRead.Env) (rw : WishlistRead.World) :
  let cget := CartResource.get cenv cw in
  let wget := WishlistResource.get wenv ww in
  let fetched :=
    WishlistResource.first_snapshot
      (WishlistResource.reply wenv (WishlistResource.fetches ww)) in
  let rget := WishlistRead.get renv rw in
  let value :=
    WishlistRead.first_data
      (WishlistRead.reply renv (WishlistRead.fetches rw)) in
  (match BrowserStorage.get (CartResource.storage cw) with
   | Some cart => cget.1 = cart
   | None => Cart.items cget.1 = [] ∧ Cart.total_items cget.1 = 0
             ∧ Cart.subtotal cget.1 = 0
   end
   ∧ CartResource.storage cget.2 = CartResource.storage cw
   ∧ CartResource.requests cget.2 = CartResource.requests cw)
  ∧ (∀ u, WishlistResource.owner ww = Some u →
       WishlistResource.requests wget.2
       = WishlistResource.requests ww
         ++ [WishlistResource.GET "/generis" ("wishlist_" +:+ pretty u)
               WishlistResource.wishlistKind 1])
  ∧ (∀ u snapshot,
       WishlistResource.owner ww = Some u → fetched = Some snapshot →
       wget.1 = snapshot
       ∧ WishlistResource.storage wget.2
         = (BrowserStorage.set (WishlistResource.storage ww) snapshot).2
       ∧ (storage_usable (WishlistResource.storage ww) →
          BrowserStorage.get (WishlistResource.storage wget.2)
          = Some snapshot))
  ∧ (WishlistResource.owner ww = None ∨ fetched = None →
       match BrowserStorage.get (WishlistResource.storage ww) with
       | Some wishlist => wget.1 = wishlist
       | None => Wishlist.items wget.1 = []
                 ∧ Wishlist.total_items wget.1 = 0
       end
       ∧ WishlistResource.storage wget.2 = WishlistResource.storage ww)
  ∧ (WishlistResource.owner ww = None →
       WishlistResource.requests wget.2 = WishlistResource.requests ww)
  ∧ (∀ stored a b,
       BrowserStorage.get (WishlistResource.storage ww) = Some stored →
       Wishlist.items stored = [a; b] →
       fetched = None →
       Wishlist.items wget.1 = [a; b])
  ∧ (∀ u, WishlistRead.owner rw = Some u →
       WishlistRead.truthy value = true →
       rget.1 = value
       ∧ WishlistRead.storage rget.2
         = (BrowserStorage.set (WishlistRead.storage rw) value).2
       ∧ WishlistRead.requests rget.2
         = WishlistRead.requests rw
           ++ [WishlistResource.GET "/generis" ("wishlist_" +:+ pretty u)
                 WishlistResource.wishlistKind 1]
       ∧ (storage_usable (WishlistRead.storage rw) →
          BrowserStorage.get (WishlistRead.storage rget.2) = Some value))
  ∧ (WishlistRead.owner rw = None ∨ WishlistRead.truthy value = false →
       match BrowserStorage.get (WishlistRead.storage rw) with
       | Some v =>
           if WishlistRead.truthy v then rget.1 = v
           else ∃ updated,
               rget.1
               = WishlistRead.Typed
                   {| Wishlist.items := []; Wishlist.total_items := 0;
                      Wishlist.updated_at := updated |}
       | None =>
           ∃ updated,
             rget.1
             = WishlistRead.Typed
                 {| Wishlist.items := []; Wishlist.total_items := 0;
                    Wishlist.updated_at := updated |}
       end
       ∧ WishlistRead.storage rget.2 = WishlistRead.storage rw)
  ∧ WishlistRead.get (WishlistRead.of_env wenv) (WishlistRead.of_world ww)
    = (WishlistRead.Typed wget.1, WishlistRead.of_world wget.2).
Proof.
  intros cget wget fetched rget value.
  assert (WishlistResource.owner ww = None ∨ fetched = None →
          match BrowserStorage.get (WishlistResource.storage ww) with
          | Some wishlist => wget.1 = wishlist
          | None => Wishlist.items wget.1 = []
                    ∧ Wishlist.total_items wget.1 = 0
          end
          ∧ WishlistResource.storage wget.2 = WishlistResource.storage ww)
    as Hlocal.
  { intros Hnone. unfold wget, WishlistResource.get. run_state.
    pose proof (WishlistFacts.getRemoteWishlist_result wenv ww) as Hres.
    destruct (WishlistFacts.getRemoteWishlist_world wenv ww) as (Hst & _).
    assert ((WishlistResource.getRemoteWishlist wenv ww).1 = None) as ->.
    { rewrite Hres. destruct Hnone as [-> | Hf]; [done|].
      by destruct (WishlistResource.owner ww). }
    unfold WishlistResource.storage_get, WishlistResource.createEmptyWishlist.
    run_state. rewrite Hst.
    by destruct (BrowserStorage.get (WishlistResource.storage ww)). }
  split_and!.
  - unfold cget, CartResource.get, CartResource.storage_get. run_state.
    by destruct (BrowserStorage.get (CartResource.storage cw)).
  - apply CartFacts.cart_get_world.
  - apply CartFacts.cart_get_world.
  - intros u Hu. unfold wget, WishlistResource.get,
      WishlistResource.getRemoteWishlist, WishlistResource.this_owner.
    run_state. rewrite Hu. simpl.
    destruct (WishlistResource.first_snapshot _); simpl; [done|].
    unfold WishlistResource.storage_get, WishlistResource.createEmptyWishlist.
    run_state. by destruct (BrowserStorage.get _).
  - intros u snapshot Hu Hf. unfold wget, WishlistResource.get,
      WishlistResource.getRemoteWishlist, WishlistResource.this_owner.
    run_state. rewrite Hu. simpl. fold fetched. rewrite Hf. simpl.
    split_and!; [done..|].
    intros [Ha Hw]. unfold BrowserStorage.set, BrowserStorage.get.
    by rewrite Ha, Hw.
  - exact Hlocal.
  - intros Hu. unfold wget, WishlistResource.get,
      WishlistResource.getRemoteWishlist, WishlistResource.this_owner.
    run_state. rewrite Hu. simpl.
    unfold WishlistResource.storage_get, WishlistResource.createEmptyWishlist.
    run_state. by destruct (BrowserStorage.get _).
  - intros stored a b Hs Hi Hnone.
    destruct Hlocal as [Hl _]; [by right|].
    rewrite Hs in Hl. by rewrite Hl.
  - intros u Hu Ht.
    destruct (ReadFacts.get_fetched_value renv rw u Hu Ht) as (H1 & H2 & H3).
    split_and!; [done..|].
    intros [Ha Hw]. fold rget in H2. rewrite H2.
    unfold BrowserStorage.set, BrowserStorage.get. by rewrite Ha, Hw.
  - apply ReadFacts.get_local_value.
  - apply ReadFacts.get_of_world.
Qed.

Lemma get_read_contract_witness :
  Wishlist.items
    (WishlistResource.get (Sample.wishlist_env WishlistResource.Rejected)
                          (Sample.seeded (Some 7))).1
  = [Sample.wished "wishlist_1_a" Sample.book 1;
     Sample.wished "wishlist_2_b" Sample.pen 2]
  ∧ (WishlistResource.get
       (Sample.wishlist_env (Sample.serving Sample.two_entries))
       (Sample.signed_in 7)).1
    = Sample.two_entries
  ∧ (WishlistRead.get Scenario.malformed_env Scenario.seeded_reader).1
    = WishlistRead.Object "[1,2,3]".
Proof.
  split_and!.
  - pose proof (get_read_contract Sample.cart_env CartResource.fresh
      (Sample.wishlist_env WishlistResource.Rejected) (Sample.seeded (Some 7))
      Scenario.malformed_env Scenario.seeded_reader)
      as (_ & _ & _ & _ & _ & H & _).
    apply (H Sample.two_entries); reflexivity.
  - pose proof (get_read_contract Sample.cart_env CartResource.fresh
      (Sample.wishlist_env (Sample.serving Sample.two_entries))
      (Sample.signed_in 7) Scenario.malformed_env Scenario.seeded_reader)
      as (_ & _ & H & _).
    apply (H 7 Sample.two_entries); reflexivity.
  - pose proof (get_read_contract Sample.cart_env CartResource.fresh
      (Sample.wishlist_env WishlistResource.Rejected) (Sample.seeded (Some 7))
      Scenario.malformed_env Scenario.seeded_reader)
      as (_ & _ & _ & _ & _ & _ & H & _).
    destruct (H 7) as [H1 _]; [reflexivity..|]. exact H1.
Defined.

(** C2 fails as stated.  The local store holds two entries, user 7 is
    signed in and the backend's record for the user holds an array instead
    of a wishlist.  [get()] does not fall back: it returns the array, and
    the array is what the local store holds afterwards. *)
Lemma get_keeps_malformed_snapshot :
  let r := WishlistRead.get Scenario.malformed_env Scenario.seeded_reader in
  BrowserStorage.get (WishlistRead.storage Scenario.seeded_reader)
  = Some (WishlistRead.Typed Sample.two_entries)
  ∧ r.1 = WishlistRead.Object "[1,2,3]"
  ∧ BrowserStorage.get (WishlistRead.storage r.2)
    = Some (WishlistRead.Object "[1,2,3]").
Proof. vm_compute. repeat split. Qed.

(** C6, as the engines have it: a cart mutation never consults the backend;
    its result and the world it leaves are the same whatever the backend
    would answer, and it sends no request.  The same holds for a wishlist
    mutation when no owner is set, and [clear] of the wishlist never
    fetches.  With an owner set, every other wishlist mutation begins by
    fetching the owner's record, as [get()] does, and works on the snapshot
    fetched when there is one: [removeItem] then returns the entries of the
    snapshot without the entry removed. *)
Theorem mutations_and_remote_state {R}
    (ctime : nat → Z) (crand : nat → string) (creply1 creply2 : nat → R)
    (cm : CartResource.Mutation) (cw : CartResource.World)
    (time : nat → Z) (rand : nat → string)
    (reply1 reply2 : nat → WishlistResource.Reply)
    (lc : string → string → Z)
    (wm : WishlistResource.Mutation) (ww : WishlistResource.World) :
  let cenv1 := {| CartResource.now := ctime; CartResource.random := crand;
                  CartResource.reply := creply1 |} in
  let cenv2 := {| CartResource.now := ctime; CartResource.random := crand;
                  CartResource.reply := creply2 |} in
  let wenv1 := {| WishlistResource.now := time;
                  WishlistResource.random := rand;
                  WishlistResource.reply := reply1;
                  WishlistResource.localeCompare := lc |} in
  let wenv2 := {| WishlistResource.now := time;
                  WishlistResource.random := rand;
                  WishlistResource.reply := reply2;
                  WishlistResource.localeCompare := lc |} in
  (CartResource.call cenv1 cm cw = CartResource.call cenv2 cm cw
   ∧ CartResource.requests (CartResource.call cenv1 cm cw).2
     = CartResource.requests cw)
  ∧ (WishlistResource.owner ww = None →
     WishlistResource.call wenv1 wm ww = WishlistResource.call wenv2 wm ww
     ∧ WishlistResource.requests (WishlistResource.call wenv1 wm ww).2
       = WishlistResource.requests ww
     ∧ WishlistResource.fetches (WishlistResource.call wenv1 wm ww).2
       = WishlistResource.fetches ww)
  ∧ ((WishlistResource.clear wenv1 ww).1 = (WishlistResource.clear wenv2 ww).1
     ∧ WishlistResource.storage (WishlistResource.clear wenv1 ww).2
       = WishlistResource.storage (WishlistResource.clear wenv2 ww).2
     ∧ WishlistResource.fetches (WishlistResource.clear wenv1 ww).2
       = WishlistResource.fetches ww)
  ∧ (∀ u, WishlistResource.owner ww = Some u →
          wm ≠ WishlistResource.Clear →
          ∃ rest,
            WishlistResource.requests (WishlistResource.call wenv1 wm ww).2
            = WishlistResource.requests ww
              ++ WishlistResource.GET "/generis" ("wishlist_" +:+ pretty u)
                   WishlistResource.wishlistKind 1 :: rest)
  ∧ (∀ u snapshot itemId,
       WishlistResource.owner ww = Some u →
       WishlistResource.first_snapshot (reply1 (WishlistResource.fetches ww))
       = Some snapshot →
       Wishlist.items (WishlistResource.removeItem wenv1 itemId ww).1
       = filter (λ item, WishlistItem.id item ≠ itemId)
                (Wishlist.items snapshot)).
Proof.
  intros cenv1 cenv2 wenv1 wenv2. split_and!.
  - apply CartFacts.call_reply_irrelevant.
  - apply CartFacts.call_requests.
  - intros H. split; [by apply WishlistFacts.call_indep|].
    destruct (WishlistFacts.call_no_owner wenv1 wm ww H) as (? & ? & _).
    done.
  - reflexivity.
  - reflexivity.
  - apply WishlistFacts.clear_fetches.
  - intros u Hu Hm. by apply WishlistFacts.call_begins_with_fetch.
  - intros u snapshot itemId Hu Hf.
    rewrite <- (WishlistFacts.get_fetched wenv1 ww u snapshot Hu Hf).
    reflexivity.
Qed.

Lemma mutations_and_remote_state_witness :
  let wenv reply :=
    {| WishlistResource.now := λ n, 1000 + Z.of_nat n;
       WishlistResource.random := λ n, "r" +:+ pretty n;
       WishlistResource.reply := λ _ : nat, reply;
       WishlistResource.localeCompare := λ _ _, 0 |} in
  WishlistResource.call (wenv (Sample.serving Sample.two_entries))
    (WishlistResource.AddItem Sample.lamp) (Sample.seeded None)
  = WishlistResource.call (wenv WishlistResource.Rejected)
      (WishlistResource.AddItem Sample.lamp) (Sample.seeded None)
  ∧ ∃ rest,
      WishlistResource.requests
        (WishlistResource.call (wenv (Sample.serving Sample.two_entries))
           (WishlistResource.AddItem Sample.lamp) (Sample.signed_in 7)).2
      = [] ++ WishlistResource.GET "/generis" ("wishlist_" +:+ pretty 7)
                WishlistResource.wishlistKind 1 :: rest.
Proof.
  intros wenv. split.
  - pose proof (mutations_and_remote_state
      (λ n, 1000 + Z.of_nat n) (λ n, "r" +:+ pretty n)
      (λ _, tt) (λ _, tt) CartResource.Clear CartResource.fresh
      (λ n, 1000 + Z.of_nat n) (λ n, "r" +:+ pretty n)
      (λ _, Sample.serving Sample.two_entries)
      (λ _, WishlistResource.Rejected) (λ _ _, 0)
      (WishlistResource.AddItem Sample.lamp) (Sample.seeded None))
      as (_ & H & _).
    apply H. reflexivity.
  - pose proof (mutations_and_remote_state
      (λ n, 1000 + Z.of_nat n) (λ n, "r" +:+ pretty n)
      (λ _, tt) (λ _, tt) CartResource.Clear CartResource.fresh
      (λ n, 1000 + Z.of_nat n) (λ n, "r" +:+ pretty n)
      (λ _, Sample.serving Sample.two_entries)
      (λ _, WishlistResource.Rejected) (λ _ _, 0)
      (WishlistResource.AddItem Sample.lamp) (Sample.signed_in 7))
      as (_ & _ & _ & H & _).
    apply (H 7); [reflexivity|discriminate].
Defined.

(** C6 fails as stated: with an owner set, [addItem] of the wishlist fetches
    before it adds, and what it returns and stores depends on what the
    backend holds.  On the same first visit, against a backend holding two
    entries the call returns and stores three entries; against a backend
    that fails it returns and stores one. *)
Lemma addItem_pulls_remote_state :
  let w := Sample.signed_in 7 in
  let served :=
    WishlistResource.addItem
      (Sample.wishlist_env (Sample.serving Sample.two_entries))
      Sample.lamp w in
  let failed :=
    WishlistResource.addItem (Sample.wishlist_env WishlistResource.Rejected)
      Sample.lamp w in
  (WishlistItem.product <$> Wishlist.items served.1)
  = [Sample.book; Sample.pen; Sample.lamp]
  ∧ (WishlistItem.product <$> Wishlist.items failed.1) = [Sample.lamp]
  ∧ stored_items served.2 = Wishlist.items served.1
  ∧ stored_items failed.2 = Wishlist.items failed.1
  ∧ head (WishlistResource.requests served.2)
    = Some (WishlistResource.GET "/generis" "wishlist_7" 2 1).
Proof. vm_compute. repeat split. Qed.

(** C5, as the wishlist has it.  The local store can be read and written,
    and every read of the wishlist made during the calls sees the entries
    last written: no owner is set, or the fetches yield nothing, or the
    backend serves what was last saved.  Then every call of [toggleProduct]
    does exactly one of add and remove: it appends exactly one event, an
    addition when the product was absent and a removal when it was present,
    and reports which.  Toggling an absent product leaves exactly one entry
    of that product; toggling it again leaves none.  In a wishlist that
    holds a product at most once, toggling a present product leaves none and
    toggling it again leaves it present: two calls restore the membership of
    the product. *)
Theorem toggle_exclusive (env : WishlistResource.Env)
    (product : Product.t) (w : WishlistResource.World)
    (current : list WishlistItem.t) :
  storage_usable (WishlistResource.storage w) → reads env w 3 current →
  let productId := Product.id product in
  let first := WishlistResource.toggleProduct env product w in
  let second := WishlistResource.toggleProduct env product first.2 in
  (∃ e, WishlistResource.emitted first.2 = WishlistResource.emitted w ++ [e]
        ∧ collection_of (data e) = first.1.1
        ∧ topic e = if first.1.2 then "wishlist:item:added"
                    else "wishlist:item:removed")
  ∧ first.1.2 = negb (wishes productId current)
  ∧ stored_items first.2 = Wishlist.items first.1.1
  ∧ (wishes productId current = false →
     length (filter (λ item, Product.id (WishlistItem.product item)
                             = productId)
                    (Wishlist.items first.1.1)) = 1%nat)
  ∧ (wishes productId current = true →
     NoDup ((λ item, Product.id (WishlistItem.product item)) <$> current) →
     wishes productId (Wishlist.items first.1.1) = false)
  ∧ (fetches_agree env first.2 3 (Wishlist.items first.1.1) →
     (∃ e, WishlistResource.emitted second.2
           = WishlistResource.emitted first.2 ++ [e]
           ∧ collection_of (data e) = second.1.1
           ∧ topic e = if second.1.2 then "wishlist:item:added"
                       else "wishlist:item:removed")
     ∧ second.1.2 = negb (wishes productId (Wishlist.items first.1.1))
     ∧ stored_items second.2 = Wishlist.items second.1.1
     ∧ (wishes productId current = false →
        second.1.2 = false
        ∧ wishes productId (Wishlist.items second.1.1) = false
        ∧ wishes productId (stored_items second.2) = false)
     ∧ (wishes productId current = true →
        NoDup ((λ item, Product.id (WishlistItem.product item))
                 <$> current) →
        second.1.2 = true
        ∧ wishes productId (Wishlist.items second.1.1) = true
        ∧ wishes productId (stored_items second.2) = true))
  ∧ (remote_silent env w →
     reads env w 3 (stored_items w)
     ∧ fetches_agree env first.2 3 (Wishlist.items first.1.1)).
Proof.
  intros Hus Hr productId first second.
  assert (∀ w' items,
    storage_usable (WishlistResource.storage w') → reads env w' 3 items →
    let r := WishlistResource.toggleProduct env product w' in
    (∃ e, WishlistResource.emitted r.2 = WishlistResource.emitted w' ++ [e]
          ∧ collection_of (data e) = r.1.1
          ∧ topic e = if r.1.2 then "wishlist:item:added"
                      else "wishlist:item:removed")
    ∧ r.1.2 = negb (wishes productId items)) as Hone.
  { intros w' items Hus' Hr' r.
    destruct (ReadsFacts.toggleProduct_reads env product w' items Hus' Hr')
      as (_ & _ & H). fold r productId in H.
    destruct (wishes productId items).
    - destruct H as (x & _ & _ & Hrem & _ & Hem).
      split; [|done]. eexists. split; [exact Hem|]. by rewrite Hrem.
    - destruct H as (entry & _ & Hadd & _ & Hem).
      split; [|done]. eexists. split; [exact Hem|]. by rewrite Hadd. }
  destruct (Hone w current Hus Hr) as [Hev1 Hflag1].
  destruct (ReadsFacts.toggleProduct_reads env product w current Hus Hr)
    as (Hst1 & Hus1 & H1). fold first productId in Hst1, Hus1, H1.
  assert (wishes productId current = false →
          ∃ entry, WishlistItem.product entry = product
                   ∧ Wishlist.items first.1.1 = current ++ [entry])
    as Habsent.
  { intros Hw. rewrite Hw in H1. destruct H1 as (entry & ? & _ & ? & _).
    by exists entry. }
  assert (wishes productId current = true →
          NoDup ((λ item, Product.id (WishlistItem.product item))
                   <$> current) →
          wishes productId (Wishlist.items first.1.1) = false) as Hpresent.
  { intros Hw Hnd. rewrite Hw in H1.
    destruct H1 as (x & Hx & Hp & _ & Hit & _).
    rewrite Hit. apply WishlistFacts.wishes_filter_out.
    intros item Hin Heq Hne. apply Hne. f_equal.
    apply (WishlistFacts.same_product_same_entry current); [done..|].
    by rewrite Heq, Hp. }
  split_and!; [done..| | | |].
  - intros Hw. destruct (Habsent Hw) as (entry & He & ->).
    unfold productId. by rewrite WishlistFacts.filter_product_app_entry.
  - exact Hpresent.
  - intros Hagree.
    assert (reads env first.2 3 (Wishlist.items first.1.1)) as Hr2
      by (split; [done|by left]).
    destruct (Hone first.2 _ Hus1 Hr2) as [Hev2 Hflag2].
    destruct (ReadsFacts.toggleProduct_reads env product first.2 _ Hus1 Hr2)
      as (Hst2 & _ & H2). fold second productId in Hst2, H2.
    fold second in Hev2, Hflag2.
    split_and!; [done..| |].
    + intros Hw. destruct (Habsent Hw) as (entry & He & Hit).
      assert (wishes productId (Wishlist.items first.1.1) = true) as Hw1.
      { rewrite Hit. by apply WishlistFacts.wishes_app_entry. }
      rewrite Hw1 in H2, Hflag2.
      destruct H2 as (x & Hx & Hp & _ & Hit2 & _).
      assert (x = entry) as ->.
      { rewrite Hit in Hx.
        apply elem_of_app in Hx as [Hx|Hx];
          [|by apply list_elem_of_singleton].
        by destruct (proj1 (WishlistFacts.wishes_false _ _) Hw x Hx). }
      assert (wishes productId (Wishlist.items second.1.1) = false) as Hgone.
      { rewrite Hit2, Hit. apply WishlistFacts.wishes_filter_out.
        intros item Hin Heq Hne.
        apply elem_of_app in Hin as [Hin|Hin].
        - by destruct (proj1 (WishlistFacts.wishes_false _ _) Hw item Hin).
        - apply list_elem_of_singleton in Hin. by subst. }
      split_and!; [done|done|by rewrite Hst2].
    + intros Hw Hnd. rewrite (Hpresent Hw Hnd) in H2, Hflag2.
      destruct H2 as (entry & He & _ & Hit2 & _).
      split_and!; [done| |].
      * rewrite Hit2. by apply WishlistFacts.wishes_app_entry.
      * rewrite Hst2, Hit2. by apply WishlistFacts.wishes_app_entry.
  - intros Hsil. split; [by apply ReadsFacts.silent_reads|].
    assert (local_only env w) as Hl by by split.
    pose proof (WishlistFacts.toggleProduct_local_only env product w Hl) as Ht.
    cbv zeta in Ht. fold first in Ht.
    assert (remote_silent env first.2) as Hsil1.
    { destruct (wishes (Product.id product) (stored_items w)).
      - by destruct Ht as (? & _ & _ & _ & _ & _ & _ & [? _]).
      - by destruct Ht as (? & _ & _ & _ & _ & _ & [? _]). }
    by apply (ReadsFacts.silent_fetches_agree env first.2 first.2).
Qed.

Lemma toggle_exclusive_witness :
  let env := Scenario.keeping_env in
  let first := WishlistResource.toggleProduct env Sample.lamp
                 (Sample.signed_in 7) in
  let second := WishlistResource.toggleProduct env Sample.lamp first.2 in
  first.1.2 = true
  ∧ length (filter (λ item, Product.id (WishlistItem.product item) = 3)
                   (Wishlist.items first.1.1)) = 1%nat
  ∧ second.1.2 = false
  ∧ wishes 3 (stored_items second.2) = false.
Proof.
  intros env first second.
  pose proof (toggle_exclusive env Sample.lamp (Sample.signed_in 7)
                (Wishlist.items Sample.two_entries)) as H.
  destruct H as (_ & H1 & _ & H2 & _ & H3 & _).
  - split; reflexivity.
  - split.
    + intros k snapshot Hk _.
      destruct k as [|[|[|k]]]; [| | |lia]; simpl; by intros [= <-].
    + right. split; [done|]. simpl. done.
  - destruct H3 as (_ & _ & _ & H3 & _).
    + assert (WishlistResource.fetches
                (WishlistResource.toggleProduct env Sample.lamp
                   (Sample.signed_in 7)).2 = 3%nat) as Hf
        by (vm_compute; reflexivity).
      intros k snapshot Hk _. rewrite Hf.
      change (WishlistResource.reply env (3 + k))
        with (Sample.serving
                (WishlistResource.toggleProduct
                   (Sample.wishlist_env (Sample.serving Sample.two_entries))
                   Sample.lamp (Sample.signed_in 7)).1.1).
      intros [= <-]. vm_compute. reflexivity.
    + destruct H3 as (H3 & _ & H4); [reflexivity|].
      split_and!; [exact H1|by apply H2|exact H3|exact H4].
Defined.

(** C5 fails as stated.  Without a local store nothing is kept between
    calls, and the second toggle adds again.  With an owner whose backend
    keeps serving a snapshot without the product, the second toggle adds
    again.  With a backend whose first fetch fails and whose later fetches
    serve a snapshot that holds the product, one toggle reports an addition
    and neither adds nor removes.  In a wishlist that holds the product
    twice, one toggle removes one of the two entries and the product is
    still held; the second toggle removes again. *)
Lemma toggle_not_exclusive :
  (let env := Sample.wishlist_env WishlistResource.Rejected in
   let first := WishlistResource.toggleProduct env Sample.lamp
                  Sample.no_storage in
   let second := WishlistResource.toggleProduct env Sample.lamp first.2 in
   first.1.2 = true ∧ second.1.2 = true
   ∧ wishes 3 (Wishlist.items second.1.1) = true)
  ∧ (let env := Sample.wishlist_env (Sample.serving Sample.two_entries) in
     let first := WishlistResource.toggleProduct env Sample.lamp
                    (Sample.signed_in 7) in
     let second := WishlistResource.toggleProduct env Sample.lamp first.2 in
     first.1.2 = true ∧ second.1.2 = true
     ∧ wishes 3 (Wishlist.items second.1.1) = true
     ∧ wishes 3 (stored_items second.2) = true)
  ∧ (let env := Sample.recovering_env Sample.two_entries in
     let call := WishlistResource.toggleProduct env Sample.book
                   (Sample.signed_in 7) in
     call.1.2 = true
     ∧ WishlistResource.emitted call.2 = []
     ∧ Wishlist.items call.1.1 = Wishlist.items Sample.two_entries)
  ∧ (let env := Sample.wishlist_env WishlistResource.Rejected in
     let first := WishlistResource.toggleProduct env Sample.book
                    Scenario.twice_held in
     let second := WishlistResource.toggleProduct env Sample.book first.2 in
     first.1.2 = false
     ∧ wishes 1 (Wishlist.items first.1.1) = true
     ∧ second.1.2 = false
     ∧ wishes 1 (Wishlist.items second.1.1) = false).
Proof. vm_compute. repeat split. Qed.

(** C4 on the wishlist: the stored wishlist holds two entries and was last
    modified at instant 2; [removeItem] of an identifier it does not hold
    returns the same two entries under a new timestamp, writes that to the
    local store and publishes a removal. *)
Lemma wishlist_removeItem_unknown_rewrites :
  let env := Sample.wishlist_env WishlistResource.Rejected in
  let w := Sample.seeded None in
  let r := WishlistResource.removeItem env "wishlist_0_none" w in
  (WishlistResource.getLocal env w).1 = Sample.two_entries
  ∧ Wishlist.items r.1 = Wishlist.items Sample.two_entries
  ∧ Wishlist.updated_at Sample.two_entries = 2
  ∧ Wishlist.updated_at r.1 = 1000
  ∧ BrowserStorage.item (WishlistResource.storage w)
    = Some Sample.two_entries
  ∧ BrowserStorage.item (WishlistResource.storage r.2) = Some r.1
  ∧ WishlistResource.emitted r.2
    = [{| topic := "wishlist:item:removed";
          data := WithItemId "wishlist_0_none" r.1 |}].
Proof. vm_compute. repeat split. Qed.

(** C4 on the cart: [removeItem] of an identifier the cart does not hold
    returns the cart that [get()] returns and leaves the world as [get()]
    leaves it: nothing written, nothing published. *)
Lemma cart_removeItem_unknown_is_get {R} (env : CartResource.Env R)
    (itemId : string) (w : CartResource.World) :
  itemId ∉ CartItem.id <$> Cart.items (CartResource.get env w).1 →
  CartResource.removeItem env itemId w = CartResource.get env w
  ∧ CartResource.storage (CartResource.removeItem env itemId w).2
    = CartResource.storage w
  ∧ CartResource.emitted (CartResource.removeItem env itemId w).2
    = CartResource.emitted w.
Proof.
  intros H. apply CartFacts.find_id_None in H.
  rewrite (CartFacts.removeItem_absent env itemId w H).
  destruct (CartFacts.cart_get_world env w) as (? & ? & _). done.
Qed.

(** * Further properties *)

(** ** The event emitter, continued *)

Module EventsMore.
Import Events EventsFacts.

Lemma listeners_perform_quiet (e : EventEmitter) (event : string)
    (a : action) :
  wf e → quiet event a → listeners (perform e a) event = listeners e event.
Proof.
  intros He Hq. unfold listeners.
  destruct (events e !! event) as [r|] eqn:Hev.
  - pose proof (wf_bound _ He _ _ Hev) as Hlt.
    apply lookup_lt_is_Some in Hlt as [s Hs].
    destruct (perform_quiet e event a r s He Hq Hev Hs) as [-> Hs'].
    by rewrite (deref_lookup _ _ _ Hs), (deref_lookup _ _ _ Hs').
  - assert (events (perform e a) !! event = None) as ->; [|done].
    destruct a as [ev h|ev h|[ev|]]; simpl in *; [| | |done].
    + unfold on. simpl. destruct (events e !! ev) as [r'|] eqn:E; simpl.
      * rewrite E. done.
      * rewrite lookup_insert_eq. simpl. by rewrite lookup_insert_ne.
    + unfold off. destruct (events e !! ev) as [r'|] eqn:E; [|done].
      simpl. case_decide; simpl; [|done]. by rewrite lookup_delete_ne.
    + destruct Hq as [Hq Hne]. rewrite decide_True by done. simpl.
      by rewrite lookup_delete_ne.
Qed.

(** X1: subscribing to one event, unsubscribing from it or removing its
    listeners leaves the listeners of every other event, and their number,
    as they were.  For [removeAllListeners] this needs the event to be a
    non-empty string: called with the empty string it does what it does
    without an argument, and no event keeps a listener. *)
Theorem other_events_untouched (e : EventEmitter) (event other : string)
    (h : nat) :
  wf e → event ≠ other →
  listeners (on e event h).1 other = listeners e other
  ∧ listeners (off e event h) other = listeners e other
  ∧ listenerCount (on e event h).1 other = listenerCount e other
  ∧ listenerCount (off e event h) other = listenerCount e other
  ∧ (event ≠ "" →
     listeners (removeAllListeners e (Some event)) other = listeners e other
     ∧ listenerCount (removeAllListeners e (Some event)) other
       = listenerCount e other)
  ∧ removeAllListeners e (Some "") = removeAllListeners e None
  ∧ listeners (removeAllListeners e None) other = []
  ∧ listenerCount (removeAllListeners e None) other = 0%nat.
Proof.
  intros He Hne.
  pose proof (listeners_perform_quiet e other (CallOn event h) He Hne) as H1.
  pose proof (listeners_perform_quiet e other (CallOff event h) He Hne) as H2.
  change (perform e (CallOn event h)) with (on e event h).1 in H1.
  change (perform e (CallOff event h)) with (off e event h) in H2.
  rewrite !listenerCount_listeners. rewrite H1, H2.
  split_and!; [done..| |done|done|done].
  intros Hev.
  pose proof (listeners_perform_quiet e other (CallRemoveAll (Some event))
                He (conj Hne Hev)) as H3.
  change (perform e (CallRemoveAll (Some event)))
    with (removeAllListeners e (Some event)) in H3.
  by rewrite H3.
Qed.

Lemma other_events_untouched_witness :
  let e := (on (on empty "cart:cleared" 1%nat).1 "cart:item:added" 2%nat).1 in
  listeners (off e "cart:item:added" 2%nat) "cart:cleared" = [1%nat]
  ∧ listeners (on e "cart:item:added" 3%nat).1 "cart:cleared" = [1%nat]
  ∧ listeners (removeAllListeners e (Some "cart:item:added")) "cart:cleared"
    = [1%nat].
Proof.
  intros e.
  assert (wf e) as He by apply on_wf, on_wf, empty_wf.
  destruct (other_events_untouched e "cart:item:added" "cart:cleared" 2%nat He)
    as (_ & H2 & _); [done|].
  destruct (other_events_untouched e "cart:item:added" "cart:cleared" 3%nat He)
    as (H1 & _ & _ & _ & H3 & _); [done|].
  destruct H3 as [H3 _]; [done|].
  split_and!; [rewrite H2|rewrite H1|rewrite H3]; reflexivity.
Defined.

(** X2: subscribing a handler that was not registered for the event and then
    calling the closure [on] returned restores the listeners of every event.
    *)
Theorem on_then_unsubscribe (e : EventEmitter) (event : string) (h : nat) :
  wf e → h ∉ listeners e event →
  ∀ any, listeners (unsubscribe (on e event h).1 (on e event h).2) any
         = listeners e any.
Proof.
  intros He Hh any.
  assert (wf (on e event h).1) as He' by by apply on_wf.
  change (unsubscribe (on e event h).1 (on e event h).2)
    with (off (on e event h).1 event h).
  destruct (decide (event = any)) as [<-|Hne].
  - rewrite listeners_off by done. rewrite listeners_on by done.
    rewrite bool_decide_eq_false_2 by done.
    rewrite filter_app, filter_cons_False, filter_nil, app_nil_r
      by (by intros ?).
    clear He'. induction (listeners e event) as [|x l IH]; [done|].
    rewrite filter_cons_True by set_solver. f_equal. apply IH. set_solver.
  - etrans; [exact (listeners_perform_quiet _ any (CallOff event h) He' Hne)|].
    exact (listeners_perform_quiet e any (CallOn event h) He Hne).
Qed.

Lemma on_then_unsubscribe_witness :
  let e := (on empty "cart:cleared" 1%nat).1 in
  listeners (unsubscribe (on e "cart:cleared" 2%nat).1
                         (on e "cart:cleared" 2%nat).2) "cart:cleared"
  = listeners e "cart:cleared".
Proof.
  intros e. apply on_then_unsubscribe.
  - apply on_wf, empty_wf.
  - vm_compute. intros H. inversion H as [|? ? ? H']; inversion H'.
Defined.

Lemma events_perform_quiet (e : EventEmitter) (event : string) (a : action) :
  quiet event a → events (perform e a) !! event = events e !! event.
Proof.
  intros Hq. destruct a as [ev h|ev h|[ev|]]; simpl in *; [| | |done].
  - unfold on. simpl. destruct (events e !! ev) as [r'|] eqn:E; simpl.
    + by rewrite E.
    + rewrite lookup_insert_eq. simpl. by rewrite lookup_insert_ne.
  - unfold off. destruct (events e !! ev) as [r'|] eqn:E; [|done].
    simpl. case_decide; simpl; [|done]. by rewrite lookup_delete_ne.
  - destruct Hq as [Hq Hne]. rewrite decide_True by done. simpl.
    by rewrite lookup_delete_ne.
Qed.

Lemma perform_no_empty_set (e : EventEmitter) (a : action) :
  wf e →
  (∀ ev, events e !! ev = None ↔ listenerCount e ev = 0%nat) →
  ∀ ev, events (perform e a) !! ev = None
        ↔ listenerCount (perform e a) ev = 0%nat.
Proof.
  intros He HJ ev.
  assert (∀ e', events e' !! ev = None → listenerCount e' ev = 0%nat) as Hnone.
  { intros e' H. unfold listenerCount. by rewrite H. }
  split; [apply Hnone|]. intros Hc.
  assert (quiet ev a → events (perform e a) !! ev = None) as Hquiet.
  { intros Hq. rewrite events_perform_quiet by done. apply HJ.
    rewrite listenerCount_listeners in *.
    by rewrite listeners_perform_quiet in Hc. }
  destruct a as [ev' h|ev' h|[ev'|]]; [| | |done].
  3:{ destruct (decide (ev' ≠ "")) as [Hev|Hev].
      - destruct (decide (ev' = ev)) as [->|Hne]; [|by apply Hquiet].
        simpl. rewrite decide_True by done. simpl.
        by rewrite lookup_delete_eq.
      - simpl. by rewrite decide_False. }
  all: destruct (decide (ev' = ev)) as [->|Hne]; [|by apply Hquiet];
    clear Hquiet.
  - exfalso. change (perform e (CallOn ev h)) with (on e ev h).1 in Hc.
    rewrite listenerCount_listeners, listeners_on in Hc by done.
    case_bool_decide as Hin.
    + destruct (listeners e ev); [by apply not_elem_of_nil in Hin|done].
    + rewrite length_app in Hc. simpl in Hc. lia.
  - revert Hc. simpl. unfold listenerCount, off.
    destruct (events e !! ev) as [r|] eqn:E; [|by rewrite E].
    pose proof (wf_bound _ He _ _ E) as Hlt. simpl.
    case_decide as Hz; simpl; [by rewrite lookup_delete_eq|].
    rewrite E. unfold deref. simpl.
    by rewrite list_lookup_insert_eq.
Qed.

(** X3: however an emitter was built from the empty one, an event is a key
    of the map exactly when it has a listener: [off] drops the entry with
    the last handler, so no empty [Set] is ever left behind. *)
Theorem no_empty_set_kept (calls : list action) (event : string) :
  events (foldl perform empty calls) !! event = None
  ↔ listenerCount (foldl perform empty calls) event = 0%nat.
Proof.
  revert event.
  assert (∀ e, wf e →
    (∀ ev, events e !! ev = None ↔ listenerCount e ev = 0%nat) →
    ∀ ev, events (foldl perform e calls) !! ev = None
          ↔ listenerCount (foldl perform e calls) ev = 0%nat) as H.
  { induction calls as [|a calls IH]; intros e He HJ; simpl; [done|].
    apply IH; [by apply perform_wf|by apply perform_no_empty_set]. }
  apply H; [apply empty_wf|]. intros ev. done.
Qed.
End EventsMore.

(** ** [once] *)

Module OnceFacts.
Import Events EventsFacts Once EventsMore.

Lemma set_delete_absent (s : list (option nat)) (h : nat) :
  h ∉ set_values s → set_delete s h = s.
Proof.
  rewrite elem_of_set_values. unfold set_delete.
  induction s as [|x s IH]; intros Hh; [done|]. rewrite fmap_cons.
  rewrite decide_False by set_solver. f_equal. apply IH. set_solver.
Qed.

Lemma set_delete_at (s : list (option nat)) (i h : nat) :
  NoDup (set_values s) → s !! i = Some (Some h) →
  set_delete s h = <[i := None]> s.
Proof.
  revert i. induction s as [|x s IH]; intros i Hnd Hi; [done|].
  destruct i as [|i]; simpl in Hi.
  - injection Hi as ->. simpl in Hnd. apply NoDup_cons in Hnd as [Hh _].
    unfold set_delete. rewrite fmap_cons, decide_True by done. simpl.
    f_equal. by apply set_delete_absent.
  - assert (h ∈ set_values s) as Hin
      by (apply elem_of_set_values; by eapply list_elem_of_lookup_2).
    assert (x ≠ Some h) as Hx.
    { intros ->. simpl in Hnd. by apply NoDup_cons in Hnd as [? _]. }
    unfold set_delete. rewrite fmap_cons, decide_False by done. simpl.
    f_equal. apply IH; [|done].
    destruct x; simpl in Hnd; [by apply NoDup_cons in Hnd as [_ ?]|done].
Qed.

Lemma perform_quiet_object (e : EventEmitter) (event : string) (a : action)
    (r : nat) (s : list (option nat)) :
  wf e → quiet event a → heap e !! r = Some s →
  (∀ ev, events e !! ev = Some r → ev = event) →
  heap (perform e a) !! r = Some s
  ∧ (∀ ev, events (perform e a) !! ev = Some r → ev = event).
Proof.
  intros He Hq Hs Hr. apply lookup_lt_Some in Hs as Hlt.
  destruct a as [ev h|ev h|[ev|]]; simpl in *; [| | |done].
  - unfold on. simpl. destruct (events e !! ev) as [r'|] eqn:E; simpl.
    + rewrite E. simpl. split; [|done].
      rewrite list_lookup_insert_ne; [done|]. intros ->. by apply Hq, Hr.
    + rewrite lookup_insert_eq. simpl. split.
      * rewrite list_lookup_insert_ne by lia. by rewrite lookup_app_l.
      * intros ev0. destruct (decide (ev = ev0)) as [->|Hne].
        -- rewrite lookup_insert_eq. intros [= <-]. lia.
        -- rewrite lookup_insert_ne by done. apply Hr.
  - unfold off. destruct (events e !! ev) as [r'|] eqn:E; [|done].
    assert (r' ≠ r) by (intros ->; by apply Hq, Hr).
    simpl. case_decide; simpl.
    + rewrite list_lookup_insert_ne by done. split; [done|].
      intros ev0 [_ ?]%lookup_delete_Some. by apply Hr.
    + by rewrite list_lookup_insert_ne.
  - destruct Hq as [Hq Hne]. rewrite decide_True by done. simpl.
    split; [done|]. intros ev0 [_ ?]%lookup_delete_Some. by apply Hr.
Qed.

Lemma script_quiet_object (e : EventEmitter) (event : string)
    (l : list action) (r : nat) (s : list (option nat)) :
  wf e → Forall (quiet event) l → heap e !! r = Some s →
  (∀ ev, events e !! ev = Some r → ev = event) →
  wf (foldl perform e l)
  ∧ heap (foldl perform e l) !! r = Some s
  ∧ (∀ ev, events (foldl perform e l) !! ev = Some r → ev = event)
  ∧ events (foldl perform e l) !! event = events e !! event.
Proof.
  intros He Hl. revert e He.
  induction Hl as [|a l Ha Hl IH]; intros e He Hs Hr; simpl; [done|].
  destruct (perform_quiet_object e event a r s He Ha Hs Hr) as [Hs' Hr'].
  destruct (IH (perform e a)) as (? & ? & ? & ->); [by apply perform_wf|done..|].
  by rewrite events_perform_quiet.
Qed.

Lemma off_object (e : EventEmitter) (event : string) (h r : nat)
    (s : list (option nat)) :
  wf e → events e !! event = Some r → heap e !! r = Some s →
  (∀ ev, events e !! ev = Some r → ev = event) →
  heap (off e event h) !! r = Some (set_delete s h)
  ∧ (∀ ev, events (off e event h) !! ev = Some r → ev = event)
  ∧ (events (off e event h) !! event = Some r
     ∨ events (off e event h) !! event = None
       ∧ set_values (set_delete s h) = []).
Proof.
  intros He Hev Hs Hr. apply lookup_lt_Some in Hs as Hlt.
  unfold off. rewrite Hev, (deref_lookup _ _ _ Hs). simpl.
  case_decide as Hz; simpl.
  - rewrite list_lookup_insert_eq by done. split; [done|]. split.
    + intros ev0 [_ ?]%lookup_delete_Some. by apply Hr.
    + right. rewrite lookup_delete_eq. split; [done|].
      by apply nil_length_inv.
  - rewrite list_lookup_insert_eq by done. auto.
Qed.

Section Tame.
Context {D : Type}.
Variable body : nat → D → behaviour.
Variable event : string.
Variable data : D.
(** The handlers that unsubscribe themselves as their last step. *)
Variable retiring : nat → bool.

Local Abbreviation tame s :=
  (∀ h, h ∈ set_values s →
     ∃ q, Forall (quiet event) q
          ∧ script (body h data)
            = q ++ (if retiring h then [CallOff event h] else [])).

Lemma forEach_tame (r : nat) (fuel : nat) :
  ∀ (index : nat) (s : list (option nat)) (e : EventEmitter)
    (trace : list delivery),
  wf e → heap e !! r = Some s →
  (∀ ev, events e !! ev = Some r → ev = event) →
  (events e !! event = Some r
   ∨ events e !! event = None ∧ set_values s = []) →
  tame s →
  (length s - index < fuel)%nat →
  ∃ e' s', forEach body fuel r index data e trace
           = Some (e', trace
                       ++ (deliver body data <$> set_values (drop index s)))
    ∧ wf e' ∧ heap e' !! r = Some s'
    ∧ (events e' !! event = Some r
       ∨ events e' !! event = None ∧ set_values s' = [])
    ∧ set_values s'
      = set_values (take index s)
        ++ filter (λ h, retiring h = false) (set_values (drop index s)).
Proof.
  induction fuel as [|fuel' IH]; intros index s e trace He Hs Hr Hev Ht Hlt;
    [lia|].
  simpl. rewrite (deref_lookup _ _ _ Hs).
  destruct (s !! index) as [[h|]|] eqn:Ei.
  - apply lookup_lt_Some in Ei as Hi.
    assert (h ∈ set_values s) as Hin
      by (apply elem_of_set_values; by eapply list_elem_of_lookup_2).
    destruct (Ht h Hin) as (q & Hq & Hscript).
    assert (events e !! event = Some r) as Hev0.
    { destruct Hev as [?|[_ Hnil]]; [done|]. rewrite Hnil in Hin.
      by apply not_elem_of_nil in Hin. }
    unfold invoke. rewrite Hscript, foldl_app.
    destruct (script_quiet_object e event q r s He Hq Hs Hr)
      as (He1 & Hs1 & Hr1 & Hev1).
    rewrite Hev0 in Hev1.
    rewrite (drop_S _ _ _ Ei). simpl.
    destruct (retiring h) eqn:Eh; simpl.
    + destruct (off_object _ event h r s He1 Hev1 Hs1 Hr1)
        as (Hs2 & Hr2 & Hev2).
      pose proof (wf_nodup _ He _ _ Hs) as Hnd.
      rewrite (set_delete_at s index h Hnd Ei) in Hs2, Hev2.
      destruct (IH (S index) (<[index := None]> s) _
                  (trace ++ [deliver body data h])
                  (off_wf _ event h He1) Hs2 Hr2 Hev2)
        as (e' & s' & Heq & He' & Hs' & Hev' & Hval).
      { intros h' Hh'. apply Ht. revert Hh'.
        rewrite <- (set_delete_at s index h Hnd Ei), set_values_delete.
        by intros [_ ?]%list_elem_of_filter. }
      { rewrite length_insert. lia. }
      exists e', s'. rewrite Heq. split_and!; [|done..|].
      * rewrite drop_insert_lt by lia. by rewrite <- app_assoc.
      * rewrite Hval, drop_insert_lt by lia.
        rewrite (take_S_r _ _ None)
          by (by rewrite list_lookup_insert_eq).
        rewrite take_insert_ge by lia.
        rewrite set_values_app. simpl. rewrite app_nil_r.
        by rewrite filter_cons_False by (by rewrite Eh).
    + destruct (IH (S index) s (foldl perform e q)
                  (trace ++ [deliver body data h]) He1 Hs1 Hr1)
        as (e' & s' & Heq & He' & Hs' & Hev' & Hval); [by left|done|lia|].
      exists e', s'. rewrite Heq. split_and!; [|done..|].
      * by rewrite <- app_assoc.
      * rewrite Hval, (take_S_r _ _ _ Ei), set_values_app. simpl.
        rewrite filter_cons_True by done. by rewrite <- app_assoc.
  - apply lookup_lt_Some in Ei as Hi.
    destruct (IH (S index) s e trace He Hs Hr Hev Ht)
      as (e' & s' & Heq & He' & Hs' & Hev' & Hval); [lia|].
    exists e', s'. rewrite Heq. split_and!; [|done..|].
    * by rewrite (drop_S _ _ _ Ei).
    * rewrite Hval, (take_S_r _ _ _ Ei), (drop_S _ _ _ Ei), set_values_app.
      simpl. by rewrite app_nil_r.
  - exists e, s. apply lookup_ge_None in Ei.
    rewrite drop_ge, take_ge by done. simpl.
    rewrite filter_nil, !app_nil_r. done.
Qed.

Lemma emit_tame (e : EventEmitter) :
  wf e →
  (∀ h, h ∈ listeners e event →
     ∃ q, Forall (quiet event) q
          ∧ script (body h data)
            = q ++ (if retiring h then [CallOff event h] else [])) →
  ∃ fuel0, ∀ fuel, (fuel0 ≤ fuel)%nat →
    ∃ e', emit body fuel e event data
          = Some (e', deliver body data <$> listeners e event)
        ∧ wf e'
        ∧ listeners e' event
          = filter (λ h, retiring h = false) (listeners e event).
Proof.
  intros He Ht. unfold emit, listeners in *.
  destruct (events e !! event) as [r|] eqn:Hev.
  - pose proof (wf_bound _ He _ _ Hev) as Hlt.
    apply lookup_lt_is_Some in Hlt as [s Hs].
    rewrite (deref_lookup _ _ _ Hs) in *.
    exists (S (length s)). intros fuel Hf.
    destruct (forEach_tame r fuel 0 s e [] He Hs)
      as (e' & s' & -> & He' & Hs' & Hev' & Hval); [|by left|done|lia|].
    { intros ev Hev0. by eapply (wf_inj _ He). }
    exists e'. split_and!; [done..|].
    rewrite take_0, drop_0 in Hval. simpl in Hval. rewrite <- Hval.
    destruct Hev' as [->|[-> ->]]; [|done].
    by rewrite (deref_lookup _ _ _ Hs').
  - exists 0%nat. intros fuel _. exists e. by rewrite Hev.
Qed.
End Tame.

Lemma filter_not_last (l : list nat) (k : nat) (keep : bool) :
  k ∉ l →
  filter (λ h, bool_decide (h = k) && negb keep = false) (l ++ [k])
  = l ++ (if keep then [k] else []).
Proof.
  intros Hk. rewrite filter_app. f_equal.
  - induction l as [|x l IH]; [done|].
    rewrite filter_cons_True, IH; [done|set_solver|].
    rewrite bool_decide_eq_false_2; [done|set_solver].
  - destruct keep.
    + rewrite filter_cons_True, filter_nil; [done|].
      by rewrite andb_false_r.
    + rewrite filter_cons_False, filter_nil; [done|].
      by rewrite bool_decide_eq_true_2.
Qed.

(** X4: a handler subscribed with [once] is called by the next [emit] of its
    event, after the handlers registered before it. If the wrapped handler
    returns, the closure has unsubscribed itself and the listeners are those
    from before the [once]; if it throws, the [off] is never reached and the
    closure stays subscribed. *)
Theorem once_fires_then_retires {D} (body : nat → D → behaviour)
    (e : EventEmitter) (event : string) (k : nat) (inner : D → behaviour)
    (data : D) :
  wf e → k ∉ listeners e event →
  (∀ h, h ∈ listeners e event → Forall (quiet event) (script (body h data))) →
  Forall (quiet event) (script (inner data)) →
  ∃ fuel0, ∀ fuel, (fuel0 ≤ fuel)%nat →
    ∃ e', emit (once body e event k inner).1 fuel
            (once body e event k inner).2 event data
          = Some (e', (deliver body data <$> listeners e event)
                      ++ [{| called := k;
                             logged_error := throws (inner data) |}])
        ∧ listeners e' event
          = listeners e event ++ (if throws (inner data) then [k] else []).
Proof.
  intros He Hk Hq Hinner. unfold once. cbn [fst snd].
  set (body' := λ h, if decide (h = k) then onceHandler event k inner
                     else body h).
  assert (wf (on e event k).1) as He1 by by apply on_wf.
  assert (listeners (on e event k).1 event = listeners e event ++ [k]) as Hl.
  { rewrite listeners_on by done. by rewrite bool_decide_eq_false_2. }
  destruct (emit_tame body' event data
              (λ h, bool_decide (h = k) && negb (throws (inner data)))
              (on e event k).1 He1) as [fuel0 Hfuel].
  { intros h. rewrite Hl. intros Hin. unfold body'.
    destruct (decide (h = k)) as [->|Hne].
    - exists (script (inner data)). split; [done|].
      rewrite bool_decide_eq_true_2 by done. simpl.
      by destruct (throws (inner data)).
    - exists (script (body h data)).
      rewrite bool_decide_eq_false_2 by done. simpl.
      rewrite app_nil_r. split; [|done]. apply Hq.
      apply elem_of_app in Hin as [?|Hin]; [done|].
      by apply list_elem_of_singleton in Hin. }
  exists fuel0. intros fuel Hf.
  destruct (Hfuel fuel Hf) as (e' & -> & _ & Hl'). exists e'.
  rewrite Hl', Hl, filter_not_last by done. split; [|done].
  rewrite fmap_app.
  assert (deliver body' data <$> listeners e event
          = deliver body data <$> listeners e event) as ->.
  { apply list_fmap_ext. intros i h Hh. unfold deliver, body'.
    rewrite decide_False; [done|].
    intros ->. by apply list_elem_of_lookup_2 in Hh. }
  simpl. unfold deliver, body'. by rewrite decide_True.
Qed.

Lemma once_fires_then_retires_witness :
  let e := (on empty "cart:cleared" 1%nat).1 in
  ∃ fuel0, ∀ fuel, (fuel0 ≤ fuel)%nat →
    ∃ e', emit (once Sample.idle_body e "cart:cleared" 2%nat
                  Scenario.failing).1 fuel
            (once Sample.idle_body e "cart:cleared" 2%nat
               Scenario.failing).2 "cart:cleared" tt
          = Some (e', [{| called := 1%nat; logged_error := false |};
                       {| called := 2%nat; logged_error := true |}])
        ∧ listeners e' "cart:cleared" = [1%nat; 2%nat].
Proof.
  intros e.
  apply (once_fires_then_retires Sample.idle_body e "cart:cleared" 2%nat
           Scenario.failing tt).
  - apply on_wf, empty_wf.
  - vm_compute. intros H. inversion H as [|? ? ? H']; inversion H'.
  - intros h _. constructor.
  - constructor.
Defined.
End OnceFacts.

(** ** The browser storage over [localStorage] *)

Module StorageMore.
Import LocalStorage Storage.

Lemma lookup_put_eq (k v : string) (l : list (string * string)) :
  lookup_entry k (put_entry k v l) = Some v.
Proof.
  induction l as [|[k' v'] l IH]; simpl.
  - by rewrite decide_True.
  - destruct (decide (k' = k)) as [->|Hne]; simpl.
    + by rewrite decide_True.
    + by rewrite decide_False.
Qed.

Lemma lookup_put_ne (k k' v : string) (l : list (string * string)) :
  k ≠ k' → lookup_entry k' (put_entry k v l) = lookup_entry k' l.
Proof.
  intros Hne. induction l as [|[k0 v0] l IH]; simpl.
  - by rewrite decide_False.
  - destruct (decide (k0 = k)) as [->|Hne0]; simpl.
    + by rewrite !decide_False.
    + by rewrite IH.
Qed.

Lemma lookup_filter (k k' : string) (l : list (string * string)) :
  lookup_entry k' (filter (λ kv, kv.1 ≠ k) l)
  = if decide (k = k') then None else lookup_entry k' l.
Proof.
  induction l as [|[k0 v0] l IH]; simpl; [by case_decide|].
  destruct (decide (k0 = k)) as [->|Hne0].
  - rewrite filter_cons_False by (simpl; by intros ?). rewrite IH.
    by destruct (decide (k = k')).
  - rewrite filter_cons_True by done. simpl. rewrite IH.
    destruct (decide (k = k')) as [<-|?]; [|done]. by rewrite decide_False.
Qed.

Lemma elem_of_keys (k : string) (l : list (string * string)) :
  k ∈ l.*1 ↔ is_Some (lookup_entry k l).
Proof.
  induction l as [|[k0 v0] l IH]; simpl.
  - split; [by intros ?%elem_of_nil|by intros [? ?]].
  - rewrite elem_of_cons, IH.
    destruct (decide (k0 = k)) as [->|Hne]; [by split; eauto|].
    split; [by intros [?|?]|by right].
Qed.

Lemma append_nil_l (s : string) : "" +:+ s = s.
Proof. reflexivity. Qed.

Lemma append_cons (c : ascii) (s t : string) :
  String c s +:+ t = String c (s +:+ t).
Proof. reflexivity. Qed.

Lemma append_assoc (s t u : string) : (s +:+ t) +:+ u = s +:+ (t +:+ u).
Proof.
  induction s as [|c s IH]; [done|]. by rewrite !append_cons, IH.
Qed.

Lemma prefix_append (p s : string) : String.prefix p (p +:+ s) = true.
Proof.
  induction p as [|c p IH]; [by destruct s|].
  rewrite append_cons. simpl. by destruct (Ascii.ascii_dec c c).
Qed.

Lemma string_drop_append (p s : string) :
  string_drop (String.length p) (p +:+ s) = s.
Proof. induction p as [|c p IH]; [done|]. by rewrite append_cons. Qed.

Lemma prefix_split (p s : string) :
  String.prefix p s = true → s = p +:+ string_drop (String.length p) s.
Proof.
  revert s. induction p as [|c p IH]; intros s; [done|].
  destruct s as [|d s]; [done|]. simpl.
  destruct (Ascii.ascii_dec c d) as [->|]; [|done].
  intros H. rewrite append_cons. f_equal. by apply IH.
Qed.

Lemma replace_unfold (p r s : string) :
  replace p r s
  = if String.prefix p s then r +:+ string_drop (String.length p) s
    else match s with
         | EmptyString => EmptyString
         | String c s' => String c (replace p r s')
         end.
Proof. by destruct s. Qed.

Lemma replace_prefix (p s : string) : replace p "" (p +:+ s) = s.
Proof.
  rewrite replace_unfold, prefix_append, append_nil_l.
  apply string_drop_append.
Qed.

Lemma storage_key_inj_cons (p1 p2 k1 k2 : string) :
  colon_free p1 = true → colon_free p2 = true →
  p1 +:+ String ":" k1 = p2 +:+ String ":" k2 → p1 = p2 ∧ k1 = k2.
Proof.
  revert p2. induction p1 as [|c p1 IH]; intros [|d p2]; simpl.
  - intros _ _. rewrite (append_nil_l (String ":" k1)).
    rewrite (append_nil_l (String ":" k2)). by intros [= ->].
  - intros _. case_decide as Hd; [done|]. intros _.
    rewrite (append_nil_l (String ":" k1)), append_cons.
    intros [= <- _]. done.
  - case_decide as Hc; [done|]. intros _ _.
    rewrite (append_nil_l (String ":" k2)), append_cons.
    intros [= -> _]. done.
  - case_decide; [done|]. case_decide; [done|]. intros H1 H2.
    rewrite !append_cons. intros [= -> Heq].
    by destruct (IH p2 H1 H2 Heq) as [-> ->].
Qed.

Lemma storage_key_inj (p1 p2 k1 k2 : string) :
  colon_free p1 = true → colon_free p2 = true →
  p1 +:+ ":" +:+ k1 = p2 +:+ ":" +:+ k2 → p1 = p2 ∧ k1 = k2.
Proof. apply storage_key_inj_cons. Qed.

Lemma getStorageKey_inj (a b : BrowserStorage) :
  colon_free (prefix a) = true → colon_free (prefix b) = true →
  getStorageKey a = getStorageKey b → a = b.
Proof.
  intros Ha Hb Heq. destruct a as [ka pa], b as [kb pb]. simpl in *.
  by destruct (storage_key_inj pa pb ka kb Ha Hb Heq) as [-> ->].
Qed.

(** X5: one [BrowserStorage] over [localStorage] behaves as the one-slot
    store the engines are written against: reading, writing and removing
    through it are the operations of that store on its slot, provided the
    value written survives [JSON.stringify] followed by [JSON.parse]. *)
Theorem browser_storage_is_one_slot {T} (stringify : T → string)
    (parse : string → option T) (this : BrowserStorage)
    (ls : LocalStorage.t) (value : T) :
  parse (stringify value) = Some value →
  get parse this ls = BrowserStorage.get (slot parse this ls)
  ∧ (set stringify this ls value).1
    = (BrowserStorage.set (slot parse this ls) value).1
  ∧ slot parse this (set stringify this ls value).2
    = (BrowserStorage.set (slot parse this ls) value).2
  ∧ (remove this ls).1 = (BrowserStorage.remove (slot parse this ls)).1
  ∧ slot parse this (remove this ls).2
    = (BrowserStorage.remove (slot parse this ls)).2
  ∧ clear this ls = remove this ls.
Proof.
  intros Hjson.
  unfold get, set, remove, clear, slot, isStorageAvailable, setItem,
    removeItem, getItem, BrowserStorage.get, BrowserStorage.set,
    BrowserStorage.remove.
  destruct ls as [[] [] l]; simpl;
    rewrite ?lookup_put_eq, ?lookup_filter, ?decide_True by done; simpl;
    rewrite ?Hjson; split_and!; try done;
    by destruct (lookup_entry (getStorageKey this) l).
Qed.

Lemma browser_storage_is_one_slot_witness :
  let cart := {| key := "cart"; prefix := "inkress" |} in
  slot Some cart (set id cart Scenario.browser "[]").2
  = (BrowserStorage.set (slot Some cart Scenario.browser) "[]").2.
Proof.
  intros cart.
  by destruct (browser_storage_is_one_slot id Some cart Scenario.browser "[]")
    as (_ & _ & H & _).
Defined.

(** X6: writing or removing through one [BrowserStorage] leaves what every
    other one reads unchanged, as long as the prefixes hold no colon: then
    two storages with the same key of [localStorage] are the same storage.
    *)
Theorem storages_do_not_interfere {T} (stringify : T → string)
    (parse : string → option T) (a b : BrowserStorage)
    (ls : LocalStorage.t) (value : T) :
  colon_free (prefix a) = true → colon_free (prefix b) = true → a ≠ b →
  get parse b (set stringify a ls value).2 = get parse b ls
  ∧ get parse b (remove a ls).2 = get parse b ls.
Proof.
  intros Ha Hb Hab.
  assert (getStorageKey a ≠ getStorageKey b) as Hne
    by (intros ?; by apply Hab, getStorageKey_inj).
  unfold get, set, remove, isStorageAvailable, setItem, removeItem, getItem.
  destruct ls as [[] [] l]; simpl; split; try done.
  - by rewrite lookup_put_ne.
  - by rewrite lookup_filter, decide_False.
Qed.

Lemma storages_do_not_interfere_witness :
  let cart := {| key := "cart"; prefix := "inkress" |} in
  let wishlist := {| key := "wishlist"; prefix := "inkress" |} in
  get Some wishlist (set id cart Scenario.browser "[]").2
  = get Some wishlist Scenario.browser.
Proof.
  intros cart wishlist.
  by destruct (storages_do_not_interfere id Some cart wishlist
                 Scenario.browser "[]") as [H _].
Defined.

Lemma clearAll_fold (pattern : string) (ks : list string)
    (ls : LocalStorage.t) :
  writable ls = true →
  ∃ ls', foldl (clearAll_step pattern) (ls, true) ks = (ls', true)
    ∧ present ls' = present ls ∧ writable ls' = true
    ∧ ∀ k, getItem ls' k
           = if String.prefix pattern k && bool_decide (k ∈ ks) then None
             else getItem ls k.
Proof.
  revert ls. induction ks as [|k0 ks IH]; intros ls Hw; simpl.
  - exists ls. split_and!; [done..|]. intros k. by rewrite andb_false_r.
  - unfold clearAll_step at 2. cbn [fst snd].
    destruct (String.prefix pattern k0) eqn:Ep.
    + unfold removeItem. rewrite Hw.
      match goal with |- context [foldl _ (?l, true) ks] =>
        destruct (IH l) as (ls' & -> & H2 & H3 & H4); [done|] end.
      exists ls'. split_and!; [done..|]. intros k. rewrite H4.
      unfold getItem. simpl. rewrite lookup_filter.
      destruct (decide (k0 = k)) as [->|Hne].
      * rewrite Ep. simpl. rewrite (bool_decide_eq_true_2 (k ∈ k :: ks))
          by (by left).
        by case_bool_decide.
      * destruct (String.prefix pattern k); [|done]. simpl.
        destruct (decide (k ∈ ks)) as [Hin|Hin].
        -- rewrite !bool_decide_eq_true_2; [done|by right|done].
        -- rewrite !bool_decide_eq_false_2; [done| |done].
           intros [?|?]%elem_of_cons; [by apply Hne|done].
    + destruct (IH ls Hw) as (ls' & Heq & H2 & H3 & H4).
      exists ls'. split_and!; [done..|].
      intros k. rewrite H4.
      destruct (String.prefix pattern k) eqn:Ek; [|done]. simpl.
      destruct (decide (k ∈ ks)) as [Hin|Hin].
      * rewrite !bool_decide_eq_true_2; [done|by right|done].
      * rewrite !bool_decide_eq_false_2; [done| |done].
        intros [->|?]%elem_of_cons; [congruence|done].
Qed.

Lemma clearAll_getItem (manager : string) (ls : LocalStorage.t) :
  present ls = true → writable ls = true →
  (clearAll manager ls).1 = true
  ∧ present (clearAll manager ls).2 = true
  ∧ ∀ k, getItem (clearAll manager ls).2 k
         = if String.prefix (manager +:+ ":") k then None else getItem ls k.
Proof.
  intros Hp Hw. unfold clearAll. rewrite Hp. cbn [fst snd].
  destruct (clearAll_fold (manager +:+ ":") (keys ls) ls Hw)
    as (ls' & -> & H2 & H3 & H4). cbn [fst snd].
  split_and!; [done|congruence|]. intros k. rewrite H4.
  destruct (String.prefix (manager +:+ ":") k); [|done]. simpl.
  case_bool_decide as Hin; [done|].
  unfold getItem. destruct (lookup_entry k (entries ls)) eqn:E; [|done].
  exfalso. apply Hin. apply elem_of_keys. by rewrite E.
Qed.

Lemma getStorageKey_createStorage (manager key : string) :
  getStorageKey (createStorage manager key) = (manager +:+ ":") +:+ key.
Proof. unfold getStorageKey. simpl. by rewrite append_assoc. Qed.

Lemma getAllKeys_in_use (manager key : string) (ls : LocalStorage.t) :
  present ls = true →
  key ∈ getAllKeys manager ls
  ↔ is_Some (getItem ls (getStorageKey (createStorage manager key))).
Proof.
  intros Hp. unfold getAllKeys. rewrite Hp, getStorageKey_createStorage.
  rewrite list_elem_of_fmap. unfold getItem. rewrite <- elem_of_keys.
  split.
  - intros (k & -> & [Hk Hin]%list_elem_of_filter).
    rewrite replace_unfold, Hk, append_nil_l.
    by rewrite <- (prefix_split _ _ Hk).
  - intros Hin. exists ((manager +:+ ":") +:+ key).
    rewrite replace_prefix. split; [done|].
    apply list_elem_of_filter. split; [apply prefix_append|done].
Qed.

(** X7: [getAllKeys] lists exactly the keys under which a [BrowserStorage]
    of this manager holds an item. *)
Theorem getAllKeys_lists_the_slots_in_use (manager key : string)
    (ls : LocalStorage.t) :
  present ls = true →
  key ∈ getAllKeys manager ls
  ↔ is_Some (getItem ls (getStorageKey (createStorage manager key))).
Proof. apply getAllKeys_in_use. Qed.

Lemma getAllKeys_lists_the_slots_in_use_witness :
  "cart" ∈ getAllKeys "inkress" Scenario.browser.
Proof.
  apply getAllKeys_lists_the_slots_in_use; [reflexivity|].
  vm_compute. by eexists.
Defined.

(** X8: on a working [localStorage], [clearAll] empties every storage of its
    manager, after which [getAllKeys] is empty; every key of [localStorage]
    that does not begin with the manager's prefix and a colon keeps its
    item, and so does every storage of a manager with another prefix when
    neither prefix holds a colon. *)
Theorem clearAll_clears_the_manager (manager : string)
    (ls : LocalStorage.t) :
  present ls = true → writable ls = true →
  (clearAll manager ls).1 = true
  ∧ (∀ key, getItem (clearAll manager ls).2
              (getStorageKey (createStorage manager key)) = None)
  ∧ getAllKeys manager (clearAll manager ls).2 = []
  ∧ (∀ k, String.prefix (manager +:+ ":") k = false →
          getItem (clearAll manager ls).2 k = getItem ls k)
  ∧ (∀ other key,
       colon_free manager = true → colon_free other = true →
       other ≠ manager →
       getItem (clearAll manager ls).2
         (getStorageKey (createStorage other key))
       = getItem ls (getStorageKey (createStorage other key))).
Proof.
  intros Hp Hw.
  destruct (clearAll_getItem manager ls Hp Hw) as (H1 & H2 & H3).
  assert (∀ key, getItem (clearAll manager ls).2
                   (getStorageKey (createStorage manager key)) = None) as H4.
  { intros key. rewrite H3, getStorageKey_createStorage.
    by rewrite prefix_append. }
  split_and!; [done|done| | |].
  - destruct (getAllKeys manager (clearAll manager ls).2) as [|key l] eqn:E;
      [done|].
    assert (key ∈ getAllKeys manager (clearAll manager ls).2) as Hin
      by (rewrite E; by left).
    apply getAllKeys_in_use in Hin; [|done].
    rewrite H4 in Hin. by destruct Hin.
  - intros k Hk. by rewrite H3, Hk.
  - intros other key Hm Ho Hne. rewrite H3.
    destruct (String.prefix _ _) eqn:Ek; [|done]. exfalso.
    apply prefix_split in Ek. rewrite append_assoc in Ek.
    unfold getStorageKey in Ek. simpl in Ek.
    by destruct (storage_key_inj _ _ _ _ Ho Hm Ek).
Qed.

Lemma clearAll_clears_the_manager_witness :
  getAllKeys "inkress" (clearAll "inkress" Scenario.browser).2 = []
  ∧ getItem (clearAll "inkress" Scenario.browser).2 "theme" = Some "dark".
Proof.
  destruct (clearAll_clears_the_manager "inkress" Scenario.browser)
    as (_ & _ & H1 & H2 & _); [reflexivity..|].
  split; [exact H1|]. by rewrite H2.
Defined.
End StorageMore.

(** ** The cart, continued *)

Module CartMore.
Import CartResource CartFacts CartAccessors.

Section CartSteps.
Context {R : Type}.
Variable env : Env R.

Lemma cart_get_items (w : World) :
  Cart.items (get env w).1
  = match BrowserStorage.get (storage w) with
    | Some cart => Cart.items cart
    | None => []
    end.
Proof.
  unfold get, storage_get. run_goal.
  by destruct (BrowserStorage.get (storage w)).
Qed.

Lemma cart_get_stored (w : World) (cart : Cart.t) :
  BrowserStorage.get (storage w) = Some cart → (get env w).1 = cart.
Proof. intros H. unfold get, storage_get. run_goal. by rewrite H. Qed.

Lemma addItem_shape (product : Product.t) (quantity : Z) (w : World) :
  let cart := (get env w).1 in
  let result := (addItem env product quantity w).1 in
  cart_pure result
  ∧ Cart.id result = Cart.id cart
  ∧ Cart.created_at result = Cart.created_at cart
  ∧ storage (addItem env product quantity w).2
    = (BrowserStorage.set (storage w) result).2
  ∧ match findIndex (λ item, bool_decide
             (Product.id (CartItem.product item) = Product.id product))
             (Cart.items cart) with
    | Some i =>
        Cart.items result
        = alter (λ item,
            {| CartItem.id := CartItem.id item;
               CartItem.product := CartItem.product item;
               CartItem.quantity := CartItem.quantity item + quantity;
               CartItem.price := Product.price product |}) i
            (Cart.items cart)
    | None =>
        ∃ id, Cart.items result
              = Cart.items cart
                ++ [{| CartItem.id := id; CartItem.product := product;
                       CartItem.quantity := quantity;
                       CartItem.price := Product.price product |}]
    end.
Proof.
  intros cart result. unfold result, cart, addItem. run_goal.
  destruct (cart_get_world env w) as (Hs & _).
  destruct (findIndex _ _) as [i|] eqn:E; simpl; rewrite Hs;
    (split_and!; [apply totals_pure|done..| ]); [done|by eexists].
Qed.

Lemma removeItem_shape (itemId : string) (w : World) :
  let cart := (get env w).1 in
  let result := (removeItem env itemId w).1 in
  Cart.items result
  = filter (λ item, CartItem.id item ≠ itemId) (Cart.items cart)
  ∧ Cart.id result = Cart.id cart
  ∧ Cart.created_at result = Cart.created_at cart
  ∧ (removeItem env itemId w = get env w
     ∨ cart_pure result
       ∧ storage (removeItem env itemId w).2
         = (BrowserStorage.set (storage w) result).2).
Proof.
  intros cart result. unfold result, cart.
  destruct (find (λ item, bool_decide (CartItem.id item = itemId))
                 (Cart.items (get env w).1)) as [x|] eqn:E.
  - unfold removeItem. run_goal. rewrite E. simpl.
    destruct (cart_get_world env w) as (-> & _).
    split_and!; [done..|]. right. split; [apply totals_pure|done].
  - rewrite removeItem_absent by done. split_and!; [|done..|by left].
    apply find_id_None in E. symmetry.
    induction (Cart.items (get env w).1) as [|y l IH]; [done|].
    rewrite fmap_cons in E. apply not_elem_of_cons in E as [E1 E2].
    rewrite filter_cons_True by done. f_equal. by apply IH.
Qed.

Lemma updateItemQuantity_shape (itemId : string) (quantity : Z) (w : World) :
  0 < quantity →
  let cart := (get env w).1 in
  let result := (updateItemQuantity env itemId quantity w).1 in
  Cart.id result = Cart.id cart
  ∧ Cart.created_at result = Cart.created_at cart
  ∧ match findIndex (λ item, bool_decide (CartItem.id item = itemId))
                    (Cart.items cart) with
    | Some i =>
        Cart.items result
        = alter (λ item,
            {| CartItem.id := CartItem.id item;
               CartItem.product := CartItem.product item;
               CartItem.quantity := quantity;
               CartItem.price := CartItem.price item |}) i (Cart.items cart)
        ∧ cart_pure result
        ∧ storage (updateItemQuantity env itemId quantity w).2
          = (BrowserStorage.set (storage w) result).2
    | None => updateItemQuantity env itemId quantity w = get env w
    end.
Proof.
  intros Hq cart result. unfold result, cart, updateItemQuantity.
  rewrite decide_False by lia. run_goal.
  destruct (cart_get_world env w) as (Hs & _).
  destruct (findIndex _ _) as [i|] eqn:E; simpl.
  - rewrite Hs. split_and!; [done..|apply totals_pure|done].
  - split_and!; [done..|]. by destruct (get env w).
Qed.

Lemma clear_shape (w : World) :
  Cart.items (clear env w).1 = []
  ∧ cart_pure (clear env w).1
  ∧ storage (clear env w).2
    = (BrowserStorage.set (storage w) (clear env w).1).2.
Proof. split_and!; [done|by split|done]. Qed.

Lemma set_item_cases {T} (s : BrowserStorage.t T) (value x : T) :
  BrowserStorage.item (BrowserStorage.set s value).2 = Some x →
  x = value ∨ BrowserStorage.item s = Some x.
Proof.
  unfold BrowserStorage.set.
  destruct (BrowserStorage.available s), (BrowserStorage.writable s); simpl;
    [intros [= <-]; by left|by right..].
Qed.

Lemma set_usable_item {T} (s : BrowserStorage.t T) (value : T) :
  storage_usable s →
  BrowserStorage.get (BrowserStorage.set s value).2 = Some value
  ∧ storage_usable (BrowserStorage.set s value).2.
Proof.
  intros [Ha Hw]. unfold BrowserStorage.set, BrowserStorage.get.
  by rewrite Ha, Hw.
Qed.

Lemma get_distinct (w : World) :
  cart_store_distinct w → NoDup (product_ids (Cart.items (get env w).1)).
Proof.
  intros Hw. rewrite cart_get_items. unfold BrowserStorage.get.
  destruct (BrowserStorage.available (storage w)); [|constructor].
  destruct (BrowserStorage.item (storage w)) eqn:E; [by apply Hw|constructor].
Qed.

Lemma product_ids_alter (f : CartItem.t → CartItem.t) (i : nat)
    (items : list CartItem.t) :
  (∀ item, CartItem.product (f item) = CartItem.product item) →
  product_ids (alter f i items) = product_ids items.
Proof.
  intros Hf. unfold product_ids. revert i.
  induction items as [|x l IH]; intros [|i]; [done..| |].
  - change (alter f 0%nat (x :: l)) with (f x :: l).
    by rewrite !fmap_cons, Hf.
  - change (alter f (S i) (x :: l)) with (x :: alter f i l).
    by rewrite !fmap_cons, IH.
Qed.

Lemma product_ids_filter (P : CartItem.t → Prop) `{∀ x, Decision (P x)}
    (items : list CartItem.t) :
  NoDup (product_ids items) → NoDup (product_ids (filter P items)).
Proof.
  unfold product_ids. induction items as [|x l IH]; [done|].
  rewrite fmap_cons. intros [Hx Hl]%NoDup_cons.
  destruct (decide (P x)).
  - rewrite filter_cons_True by done. rewrite fmap_cons.
    apply NoDup_cons. split; [|by apply IH].
    intros (y & Hy & [_ Hin]%list_elem_of_filter)%list_elem_of_fmap.
    apply Hx. apply list_elem_of_fmap. by exists y.
  - rewrite filter_cons_False by done. by apply IH.
Qed.

Lemma findIndex_None_product (productId : Z) (items : list CartItem.t) :
  findIndex (λ item, bool_decide
     (Product.id (CartItem.product item) = productId)) items = None →
  productId ∉ product_ids items.
Proof.
  rewrite findIndex_None, Forall_forall. unfold product_ids.
  intros H (x & -> & Hx)%list_elem_of_fmap.
  apply (H x Hx). by apply bool_decide_eq_true_2.
Qed.

Lemma call_shape (m : Mutation) (w : World) :
  cart_store_distinct w →
  NoDup (product_ids (Cart.items (call env m w).1))
  ∧ (storage (call env m w).2 = storage w
     ∨ storage (call env m w).2
       = (BrowserStorage.set (storage w) (call env m w).1).2).
Proof.
  intros Hw. pose proof (get_distinct w Hw) as Hg.
  destruct m as [p q|itemId|itemId q|]; unfold call.
  - destruct (addItem_shape p q w) as (_ & _ & _ & Hs & Hi).
    split; [|by right].
    destruct (findIndex _ _) as [i|] eqn:E.
    + rewrite Hi. by rewrite product_ids_alter.
    + destruct Hi as [id ->]. unfold product_ids. rewrite fmap_app.
      apply NoDup_app. split_and!; [done| |apply NoDup_singleton].
      intros x Hx ->%list_elem_of_singleton.
      by apply findIndex_None_product in E.
  - destruct (removeItem_shape itemId w) as (-> & _ & _ & Hs).
    split; [by apply product_ids_filter|].
    destruct Hs as [->|[_ ->]]; [left|by right].
    by destruct (cart_get_world env w) as (-> & _).
  - destruct (decide (q ≤ 0)) as [Hq|Hq].
    + unfold updateItemQuantity. rewrite decide_True by done.
      destruct (removeItem_shape itemId w) as (-> & _ & _ & Hs).
      split; [by apply product_ids_filter|].
      destruct Hs as [->|[_ ->]]; [left|by right].
      by destruct (cart_get_world env w) as (-> & _).
    + destruct (updateItemQuantity_shape itemId q w) as (_ & _ & Hi); [lia|].
      destruct (findIndex _ _) as [i|] eqn:E.
      * destruct Hi as (-> & _ & ->). rewrite product_ids_alter by done.
        split; [done|by right].
      * rewrite Hi. split; [done|left].
        by destruct (cart_get_world env w) as (-> & _).
  - split; [constructor|by right].
Qed.

Lemma call_distinct (m : Mutation) (w : World) :
  cart_store_distinct w →
  NoDup (product_ids (Cart.items (call env m w).1))
  ∧ cart_store_distinct (call env m w).2.
Proof.
  intros Hw. destruct (call_shape m w Hw) as [Hr Hs]. split; [done|].
  intros cart. destruct Hs as [->| ->]; [apply Hw|].
  intros [->|?]%set_item_cases; [done|by apply Hw].
Qed.

Lemma session_distinct (ms : list Mutation) (w : World) :
  cart_store_distinct w →
  Forall (λ r, NoDup (product_ids (Cart.items r.1))
               ∧ cart_store_distinct r.2) (session env ms w).
Proof.
  revert w. induction ms as [|m ms IH]; intros w Hw; simpl; [constructor|].
  destruct (call_distinct m w Hw) as [H1 H2].
  constructor; [done|]. by apply IH.
Qed.

Lemma call_writes (m : Mutation) (w : World) :
  call env m w = get env w
  ∧ match m with
    | RemoveItem _ | UpdateItemQuantity _ _ => True
    | _ => False
    end
  ∨ storage (call env m w).2
    = (BrowserStorage.set (storage w) (call env m w).1).2.
Proof.
  destruct m as [p q|itemId|itemId q|]; unfold call.
  - right. by destruct (addItem_shape p q w) as (_ & _ & _ & -> & _).
  - destruct (removeItem_shape itemId w) as (_ & _ & _ & [->|[_ ->]]);
      [by left|by right].
  - destruct (decide (q ≤ 0)) as [Hq|Hq].
    + unfold updateItemQuantity. rewrite decide_True by done.
      destruct (removeItem_shape itemId w) as (_ & _ & _ & [->|[_ ->]]);
        [by left|by right].
    + destruct (updateItemQuantity_shape itemId q w) as (_ & _ & Hi); [lia|].
      destruct (findIndex _ _) as [i|].
      * destruct Hi as (_ & _ & ->). by right.
      * rewrite Hi. by left.
  - by right.
Qed.
End CartSteps.

(** X9: the cart never holds two entries for one product: if the stored cart
    has none, no sequence of [addItem], [removeItem], [updateItemQuantity]
    and [clear] returns or stores a cart that has. *)
Theorem one_entry_per_product {R} (env : Env R) (ms : list Mutation)
    (w : World) :
  cart_store_distinct w →
  Forall (λ r, NoDup (product_ids (Cart.items r.1))
               ∧ cart_store_distinct r.2) (session env ms w).
Proof. apply session_distinct. Qed.

Lemma one_entry_per_product_witness :
  Forall (λ r, NoDup (product_ids (Cart.items r.1))
               ∧ cart_store_distinct r.2)
    (session Sample.cart_env
       [AddItem Sample.book 1; AddItem Sample.pen 2; AddItem Sample.book 3]
       fresh).
Proof. apply one_entry_per_product. intros cart. simpl. done. Defined.

(** X10: [removeItem] keeps exactly the entries with another id, in their
    order, and the identity and creation time of the cart, whether or not an
    entry has the id. *)
Theorem removeItem_keeps_the_others {R} (env : Env R) (itemId : string)
    (w : World) :
  Cart.items (removeItem env itemId w).1
  = filter (λ item, CartItem.id item ≠ itemId) (Cart.items (get env w).1)
  ∧ Cart.id (removeItem env itemId w).1 = Cart.id (get env w).1
  ∧ Cart.created_at (removeItem env itemId w).1
    = Cart.created_at (get env w).1.
Proof. by destruct (removeItem_shape env itemId w) as (? & ? & ? & _). Qed.

(** X11: adding a product the cart does not hold appends one entry for it,
    with the quantity asked for and the product's price; the entries before
    it, the identity of the cart and its creation time stay, and both
    aggregates grow by the new entry. *)
Theorem addItem_new_product_appends {R} (env : Env R) (product : Product.t)
    (quantity : Z) (w : World) :
  Product.id product ∉ product_ids (Cart.items (get env w).1) →
  let cart := (get env w).1 in
  let result := (addItem env product quantity w).1 in
  (∃ id, Cart.items result
         = Cart.items cart
           ++ [{| CartItem.id := id; CartItem.product := product;
                  CartItem.quantity := quantity;
                  CartItem.price := Product.price product |}])
  ∧ Cart.total_items result
    = sum_of_quantities (Cart.items cart) + quantity
  ∧ Cart.subtotal result
    = sum_of_values (Cart.items cart) + quantity * Product.price product
  ∧ Cart.id result = Cart.id cart
  ∧ Cart.created_at result = Cart.created_at cart.
Proof.
  intros Hnew cart result.
  destruct (addItem_shape env product quantity w)
    as ([Hq Hv] & Hid & Hc & _ & Hi).
  destruct (findIndex _ _) as [i|] eqn:E.
  { apply findIndex_Some in E as (x & Hx & Hp & _).
    apply bool_decide_eq_true in Hp. exfalso. apply Hnew.
    apply list_elem_of_fmap. exists x. split; [done|].
    by eapply list_elem_of_lookup_2. }
  destruct Hi as [id Hi]. fold result cart in Hq, Hv, Hid, Hc, Hi.
  split_and!; [by exists id| | |done..].
  - rewrite Hq, Hi, sum_of_quantities_app. unfold sum_of_quantities at 2.
    simpl. lia.
  - rewrite Hv, Hi, sum_of_values_app. unfold sum_of_values at 2.
    simpl. lia.
Qed.

Lemma addItem_new_product_appends_witness :
  let w := (addItem Sample.cart_env Sample.book 2 fresh).2 in
  Cart.total_items (addItem Sample.cart_env Sample.pen 3 w).1
  = sum_of_quantities (Cart.items (get Sample.cart_env w).1) + 3.
Proof.
  intros w.
  destruct (addItem_new_product_appends Sample.cart_env Sample.pen 3 w)
    as (_ & H & _); [|exact H].
  vm_compute. intros H. inversion H as [|? ? ? H']; inversion H'.
Defined.

(** X12: a positive [updateItemQuantity] on the id of an entry sets the
    quantity of the first entry with that id and nothing else: the entry
    keeps its product and its price, the other entries stay, and the
    aggregates move by the change of that one quantity. *)
Theorem updateItemQuantity_sets_one_quantity {R} (env : Env R)
    (itemId : string) (quantity : Z) (w : World)
    (before after : list CartItem.t) (old : CartItem.t) :
  0 < quantity →
  Cart.items (get env w).1 = before ++ old :: after →
  CartItem.id old = itemId →
  Forall (λ item, CartItem.id item ≠ itemId) before →
  let result := (updateItemQuantity env itemId quantity w).1 in
  Cart.items result
  = before
    ++ {| CartItem.id := CartItem.id old;
          CartItem.product := CartItem.product old;
          CartItem.quantity := quantity;
          CartItem.price := CartItem.price old |} :: after
  ∧ Cart.total_items result
    = sum_of_quantities (Cart.items (get env w).1)
      + (quantity - CartItem.quantity old)
  ∧ Cart.subtotal result
    = sum_of_values (Cart.items (get env w).1)
      + (quantity - CartItem.quantity old) * CartItem.price old
  ∧ Cart.id result = Cart.id (get env w).1.
Proof.
  intros Hq Hitems Hold Hbefore result.
  destruct (updateItemQuantity_shape env itemId quantity w Hq)
    as (Hid & _ & Hi).
  assert (findIndex (λ item, bool_decide (CartItem.id item = itemId))
            (Cart.items (get env w).1) = Some (length before)) as Hfind.
  { rewrite Hitems. apply findIndex_app_first.
    - eapply Forall_impl; [exact Hbefore|]. simpl. intros x Hx.
      by rewrite bool_decide_eq_false_2.
    - by rewrite bool_decide_eq_true_2. }
  rewrite Hfind in Hi. destruct Hi as (Hi & [Hn Hv] & _).
  fold result in Hi, Hn, Hv, Hid.
  assert (Cart.items result
          = before
            ++ {| CartItem.id := CartItem.id old;
                  CartItem.product := CartItem.product old;
                  CartItem.quantity := quantity;
                  CartItem.price := CartItem.price old |} :: after) as Hres.
  { rewrite Hi, Hitems.
    replace (length before) with (length before + 0)%nat by lia.
    by rewrite alter_app_r. }
  split_and!; [done| | |done].
  - rewrite Hn, Hres, Hitems, !sum_of_quantities_app.
    unfold sum_of_quantities at 2 4. simpl.
    fold (sum_of_quantities after). lia.
  - rewrite Hv, Hres, Hitems, !sum_of_values_app.
    unfold sum_of_values at 2 4. simpl.
    fold (sum_of_values after). lia.
Qed.

Lemma updateItemQuantity_sets_one_quantity_witness :
  let w := (addItem Sample.cart_env Sample.book 2 fresh).2 in
  Cart.total_items (updateItemQuantity Sample.cart_env "item_1003_r1" 7 w).1
  = sum_of_quantities (Cart.items (get Sample.cart_env w).1) + (7 - 2).
Proof.
  intros w.
  destruct (updateItemQuantity_sets_one_quantity Sample.cart_env
              "item_1003_r1" 7 w [] []
              {| CartItem.id := "item_1003_r1";
                 CartItem.product := Sample.book;
                 CartItem.quantity := 2; CartItem.price := 10 |})
    as (_ & H & _); [lia|reflexivity|reflexivity|constructor|exact H].
Defined.

Lemma updateItemQuantity_unknown_is_get' {R} (env : Env R)
    (itemId : string) (quantity : Z) (w : World) :
  itemId ∉ CartItem.id <$> Cart.items (get env w).1 →
  updateItemQuantity env itemId quantity w = get env w.
Proof.
  intros Hid. apply find_id_None in Hid.
  destruct (decide (quantity ≤ 0)) as [Hq|Hq].
  - unfold updateItemQuantity. rewrite decide_True by done.
    by apply removeItem_absent.
  - destruct (updateItemQuantity_shape env itemId quantity w) as (_ & _ & Hi);
      [lia|].
    apply find_findIndex in Hid. by rewrite Hid in Hi.
Qed.

(** X13: with an id no entry has, [updateItemQuantity] is [get], whatever
    the quantity: nothing is written and nothing is published. *)
Theorem updateItemQuantity_unknown_is_get {R} (env : Env R)
    (itemId : string) (quantity : Z) (w : World) :
  itemId ∉ CartItem.id <$> Cart.items (get env w).1 →
  updateItemQuantity env itemId quantity w = get env w.
Proof. apply updateItemQuantity_unknown_is_get'. Qed.

Lemma updateItemQuantity_unknown_is_get_witness :
  updateItemQuantity Sample.cart_env "item_0_none" 4 fresh
  = get Sample.cart_env fresh.
Proof.
  apply updateItemQuantity_unknown_is_get.
  vm_compute. intros H. inversion H.
Defined.

(** X14: with a working store, the cart a mutation returns is the cart the
    next [get] reads, as long as a cart was stored before or the mutation is
    one that always writes; [removeItem] and [updateItemQuantity] on an
    empty store return a new empty cart that is not kept. *)
Theorem get_reads_what_the_mutation_returned {R} (env : Env R)
    (m : Mutation) (w : World) :
  storage_usable (storage w) →
  is_Some (BrowserStorage.item (storage w))
  ∨ (∃ product quantity, m = AddItem product quantity) ∨ m = Clear →
  (get env (call env m w).2).1 = (call env m w).1.
Proof.
  intros Hu Hcase.
  assert (storage (call env m w).2
          = (BrowserStorage.set (storage w) (call env m w).1).2
          → (get env (call env m w).2).1 = (call env m w).1) as Hset.
  { intros Hs. apply cart_get_stored. rewrite Hs.
    by apply set_usable_item. }
  destruct (call_writes env m w) as [[Heq Hm]|Hs]; [|by apply Hset].
  rewrite Heq.
  destruct Hcase as [[cart Hc]|[(? & ? & ->)| ->]]; [|done..].
  destruct (cart_get_world env w) as (Hs & _).
  assert (BrowserStorage.get (storage w) = Some cart) as Hg
    by (unfold BrowserStorage.get; destruct Hu as [-> _]; done).
  rewrite (cart_get_stored env w cart Hg).
  apply cart_get_stored. by rewrite Hs.
Qed.

Lemma get_reads_what_the_mutation_returned_witness :
  (get Sample.cart_env
     (call Sample.cart_env (AddItem Sample.book 2) fresh).2).1
  = (call Sample.cart_env (AddItem Sample.book 2) fresh).1.
Proof.
  apply get_reads_what_the_mutation_returned.
  - split; reflexivity.
  - right. left. by eexists _, _.
Defined.

Lemma cart_get_unavailable {R} (env : Env R) (w : World) :
  BrowserStorage.available (storage w) = false →
  Cart.items (get env w).1 = [].
Proof.
  intros Ha. rewrite cart_get_items. unfold BrowserStorage.get.
  by rewrite Ha.
Qed.

Lemma set_unavailable {T} (s : BrowserStorage.t T) (value : T) :
  BrowserStorage.available s = false → (BrowserStorage.set s value).2 = s.
Proof. intros Ha. unfold BrowserStorage.set. by rewrite Ha. Qed.

(** X15: without [localStorage] the cart does not accumulate: every mutation
    starts from a new empty cart, so [addItem] returns a cart of the one
    entry just added, the other mutations return an empty cart, and the next
    read counts no items. *)
Theorem cart_without_storage {R} (env : Env R) (m : Mutation) (w : World) :
  BrowserStorage.available (storage w) = false →
  storage (call env m w).2 = storage w
  ∧ match m with
    | AddItem product quantity =>
        ∃ id, Cart.items (call env m w).1
              = [{| CartItem.id := id; CartItem.product := product;
                    CartItem.quantity := quantity;
                    CartItem.price := Product.price product |}]
    | _ => Cart.items (call env m w).1 = []
    end
  ∧ (getItemCount env (call env m w).2).1 = 0.
Proof.
  intros Ha.
  assert (storage (call env m w).2 = storage w) as Hs.
  { destruct (call_writes env m w) as [[-> _]| ->].
    - by destruct (cart_get_world env w) as (-> & _).
    - by apply set_unavailable. }
  pose proof (cart_get_unavailable env w Ha) as Hg.
  split_and!; [done| |].
  - destruct m as [p q|itemId|itemId q|]; unfold call.
    + destruct (addItem_shape env p q w) as (_ & _ & _ & _ & Hi).
      rewrite Hg in Hi. change (findIndex _ []) with (@None nat) in Hi.
      destruct Hi as [id ->]. by exists id.
    + destruct (removeItem_shape env itemId w) as (-> & _).
      by rewrite Hg.
    + rewrite updateItemQuantity_unknown_is_get'; [done|].
      rewrite Hg. apply not_elem_of_nil.
    + done.
  - change ((getItemCount env (call env m w).2).1)
      with (reduce (λ total item, total + CartItem.quantity item) 0
              (Cart.items (get env (call env m w).2).1)).
    rewrite cart_get_unavailable; [done|]. by rewrite Hs.
Qed.

Lemma cart_without_storage_witness :
  let ssr :=
    {| storage := {| BrowserStorage.available := false;
                     BrowserStorage.writable := false;
                     BrowserStorage.item := None |};
       clock := 0; dice := 0; emitted := []; requests := [] |} in
  (getItemCount Sample.cart_env
     (call Sample.cart_env (AddItem Sample.book 2) ssr).2).1 = 0.
Proof.
  intros ssr.
  by destruct (cart_without_storage Sample.cart_env (AddItem Sample.book 2)
                 ssr) as (_ & _ & H).
Defined.

(** X16: [syncToRemote] sends one [POST /carts], answers with the backend's
    reply and leaves the store and the listeners alone. The body mirrors the
    cart line by line, every variant being the product itself; when the
    stored cart is pure, its totals are those of the lines sent. *)
Theorem syncToRemote_posts_the_cart {R} (env : Env R) (w : World) :
  let cart := (get env w).1 in
  ∃ post,
    requests (syncToRemote env w).2 = requests w ++ [post]
    ∧ CartPost.path post = "/carts"
    ∧ ((λ line, (CartLineInput.product_id line, CartLineInput.variant_id line,
                 CartLineInput.quantity line, CartLineInput.unit_price line))
         <$> CartDataInput.items (CartPost.data post))
      = ((λ item, (Product.id (CartItem.product item),
                   Product.id (CartItem.product item),
                   CartItem.quantity item, CartItem.price item))
           <$> Cart.items cart)
    ∧ (syncToRemote env w).1 = reply env (length (requests w))
    ∧ storage (syncToRemote env w).2 = storage w
    ∧ emitted (syncToRemote env w).2 = emitted w
    ∧ (cart_store_pure w →
       CartDataInput.quantity (CartPost.data post)
       = foldr (λ line acc, CartLineInput.quantity line + acc) 0
           (CartDataInput.items (CartPost.data post))
       ∧ CartDataInput.total (CartPost.data post)
         = foldr (λ line acc, CartLineInput.quantity line
                              * CartLineInput.unit_price line + acc) 0
             (CartDataInput.items (CartPost.data post))).
Proof.
  intros cart. unfold cart, syncToRemote. run_goal.
  destruct (cart_get_world env w) as (Hs & He & Hr).
  eexists. rewrite Hr, Hs, He.
  split; [done|]. split; [done|]. split; [|split_and!; [done..|]].
  - simpl. rewrite <- list_fmap_compose. done.
  - intros Hw. destruct (cart_get_pure env w Hw) as [Hq Hv]. simpl.
    rewrite Hq, Hv. unfold sum_of_quantities, sum_of_values.
    clear Hq Hv.
    induction (Cart.items (get env w).1) as [|x l IH]; [done|].
    destruct IH as [IH1 IH2].
    rewrite fmap_cons. simpl. by rewrite IH1, IH2.
Qed.

Lemma syncToRemote_posts_the_cart_witness :
  ∃ post,
    requests (syncToRemote Sample.cart_env
                (addItem Sample.cart_env Sample.book 2 fresh).2).2 = [post]
    ∧ CartDataInput.total (CartPost.data post)
      = foldr (λ line acc, CartLineInput.quantity line
                           * CartLineInput.unit_price line + acc) 0
          (CartDataInput.items (CartPost.data post)).
Proof.
  destruct (syncToRemote_posts_the_cart Sample.cart_env
              (addItem Sample.cart_env Sample.book 2 fresh).2)
    as (post & H1 & _ & _ & _ & _ & _ & H2).
  exists post. split; [exact H1|]. apply H2.
  intros cart [= <-]. split; reflexivity.
Defined.

Lemma find_product_alter (productId : Z) (f : CartItem.t → CartItem.t)
    (i : nat) (items : list CartItem.t) :
  (∀ item, CartItem.product (f item) = CartItem.product item) →
  findIndex (λ item, bool_decide
     (Product.id (CartItem.product item) = productId)) items = Some i →
  ∃ x, items !! i = Some x
       ∧ find (λ item, bool_decide
            (Product.id (CartItem.product item) = productId))
            (alter f i items) = Some (f x).
Proof.
  intros Hf (x & Hx & Hp & Hless)%findIndex_Some. exists x. split; [done|].
  unfold find.
  assert (list_find (λ item, bool_decide
            (Product.id (CartItem.product item) = productId) = true)
            (alter f i items) = Some (i, f x)) as ->; [|done].
  apply list_find_Some. split_and!.
  - by rewrite list_lookup_alter_eq, Hx.
  - by rewrite Hf.
  - intros j y Hy Hj. rewrite list_lookup_alter_ne in Hy by lia.
    by eapply Hless.
Qed.

Lemma find_product_app_new (productId : Z) (items : list CartItem.t)
    (x : CartItem.t) :
  findIndex (λ item, bool_decide
     (Product.id (CartItem.product item) = productId)) items = None →
  Product.id (CartItem.product x) = productId →
  find (λ item, bool_decide
     (Product.id (CartItem.product item) = productId)) (items ++ [x])
  = Some x.
Proof.
  intros Hnone%findIndex_None Hx. unfold find.
  assert (list_find (λ item, bool_decide
            (Product.id (CartItem.product item) = productId) = true)
            (items ++ [x]) = Some (length items, x)) as ->; [|done].
  apply list_find_Some. split_and!.
  - by rewrite lookup_app_r, Nat.sub_diag.
  - by apply bool_decide_eq_true_2.
  - intros j y Hy Hj. rewrite lookup_app_l in Hy by done.
    rewrite Forall_lookup in Hnone. by eapply Hnone.
Qed.

(** X17: with a working store, the accessors see what [addItem] did: the
    product is in the cart, [getItem] finds its entry at the product's
    price, the cart is not empty, [getItemCount] has grown by the quantity
    added, and [getSubtotal] and [getUniqueItemCount] are those of the cart
    returned. *)
Theorem accessors_after_addItem {R} (env : Env R) (product : Product.t)
    (quantity : Z) (w : World) :
  storage_usable (storage w) →
  let result := (addItem env product quantity w).1 in
  let w' := (addItem env product quantity w).2 in
  (hasProduct env (Product.id product) w').1 = true
  ∧ (∃ entry, (getItem env (Product.id product) w').1 = Some entry
              ∧ entry ∈ Cart.items result
              ∧ Product.id (CartItem.product entry) = Product.id product
              ∧ CartItem.price entry = Product.price product)
  ∧ (isEmpty env w').1 = false
  ∧ (getItemCount env w').1 = (getItemCount env w).1 + quantity
  ∧ (getSubtotal env w').1 = Cart.subtotal result
  ∧ (getUniqueItemCount env w').1 = length (Cart.items result).
Proof.
  intros Hu result w'.
  destruct (addItem_shape env product quantity w)
    as ([Hq _] & _ & _ & Hs & Hi).
  assert ((get env w').1 = result) as Hget.
  { apply cart_get_stored. unfold w'. rewrite Hs. by apply set_usable_item. }
  assert (∃ entry,
    find (λ item, bool_decide
            (Product.id (CartItem.product item) = Product.id product))
         (Cart.items result) = Some entry
    ∧ Product.id (CartItem.product entry) = Product.id product
    ∧ CartItem.price entry = Product.price product) as (entry & Hf & Hp & Hpr).
  { fold result in Hi. destruct (findIndex _ _) as [i|] eqn:E.
    - destruct (find_product_alter (Product.id product)
        (λ item, {| CartItem.id := CartItem.id item;
                    CartItem.product := CartItem.product item;
                    CartItem.quantity := CartItem.quantity item + quantity;
                    CartItem.price := Product.price product |}) i _
        (λ _, eq_refl) E) as (x & Hx & Hfind).
      apply findIndex_Some in E as (x' & Hx' & Hp & _).
      rewrite Hx in Hx'. injection Hx' as <-.
      apply bool_decide_eq_true in Hp.
      eexists. rewrite Hi. split; [exact Hfind|]. by split.
    - destruct Hi as [id Hi]. eexists. rewrite Hi.
      split; [by apply find_product_app_new|by split]. }
  assert (entry ∈ Cart.items result) as Hin.
  { unfold find in Hf.
    destruct (list_find _ (Cart.items result)) as [[i x]|] eqn:E; [|done].
    simpl in Hf. injection Hf as ->.
    apply list_find_Some in E as (E & _). by eapply list_elem_of_lookup_2. }
  split_and!.
  - change ((hasProduct env (Product.id product) w').1)
      with (some (λ item, bool_decide
              (Product.id (CartItem.product item) = Product.id product))
              (Cart.items (get env w').1)).
    rewrite Hget. apply some_true, Exists_exists. exists entry.
    split; [done|]. by apply bool_decide_eq_true_2.
  - exists entry.
    change ((getItem env (Product.id product) w').1)
      with (find (λ item, bool_decide
              (Product.id (CartItem.product item) = Product.id product))
              (Cart.items (get env w').1)).
    by rewrite Hget.
  - change ((isEmpty env w').1)
      with (bool_decide (length (Cart.items (get env w').1) = 0%nat)).
    rewrite Hget. apply bool_decide_eq_false_2.
    destruct (Cart.items result); [by apply not_elem_of_nil in Hin|done].
  - change ((getItemCount env w').1)
      with (reduce (λ total item, total + CartItem.quantity item) 0
              (Cart.items (get env w').1)).
    change ((getItemCount env w).1)
      with (reduce (λ total item, total + CartItem.quantity item) 0
              (Cart.items (get env w).1)).
    rewrite Hget, !reduce_sum. fold (sum_of_quantities (Cart.items result)).
    fold (sum_of_quantities (Cart.items (get env w).1)).
    fold result in Hi. destruct (findIndex _ _) as [i|] eqn:E.
    + apply findIndex_Some in E as (x & Hx & _).
      apply list_elem_of_split_length in Hx as (l1 & l2 & Hl & ->).
      rewrite Hi, Hl.
      replace (length l1) with (length l1 + 0)%nat by lia.
      rewrite alter_app_r. simpl.
      rewrite !sum_of_quantities_app. unfold sum_of_quantities at 2 4.
      simpl. fold (sum_of_quantities l2). lia.
    + destruct Hi as [id ->]. rewrite sum_of_quantities_app.
      unfold sum_of_quantities at 2. simpl. lia.
  - change ((getSubtotal env w').1) with (Cart.subtotal (get env w').1).
    by rewrite Hget.
  - change ((getUniqueItemCount env w').1)
      with (length (Cart.items (get env w').1)).
    by rewrite Hget.
Qed.

Lemma accessors_after_addItem_witness :
  (hasProduct Sample.cart_env 1
     (addItem Sample.cart_env Sample.book 2 fresh).2).1 = true
  ∧ (getItemCount Sample.cart_env
       (addItem Sample.cart_env Sample.book 2 fresh).2).1
    = (getItemCount Sample.cart_env fresh).1 + 2.
Proof.
  destruct (accessors_after_addItem Sample.cart_env Sample.book 2 fresh)
    as (H1 & _ & _ & H2 & _); [split; reflexivity|].
  split; [exact H1|exact H2].
Defined.

Lemma NoDup_fmap_eq {A B} (f : A → B) (l : list A) (x y : A) :
  NoDup (f <$> l) → x ∈ l → y ∈ l → f x = f y → x = y.
Proof.
  induction l as [|z l IH]; [by intros _ ?%elem_of_nil|].
  rewrite fmap_cons. intros [Hz Hl]%NoDup_cons.
  intros Hx Hy Heq.
  apply elem_of_cons in Hx as [->|Hx]; apply elem_of_cons in Hy as [->|Hy];
    [done| | |by apply IH].
  - exfalso. apply Hz. rewrite Heq. by apply list_elem_of_fmap_2.
  - exfalso. apply Hz. rewrite <- Heq. by apply list_elem_of_fmap_2.
Qed.

Lemma cart_get_get_items {R} (env : Env R) (w : World) :
  Cart.items (get env (get env w).2).1 = Cart.items (get env w).1.
Proof.
  rewrite !cart_get_items. by destruct (cart_get_world env w) as (-> & _).
Qed.

Lemma removeProduct_absent_is_get {R} (env : Env R) (productId : Z)
    (w : World) :
  productId ∉ product_ids (Cart.items (get env w).1) →
  removeProduct env productId w = get env w.
Proof.
  intros Hout. unfold removeProduct. run_goal.
  destruct (find _ _) as [x|] eqn:E; [|by destruct (get env w)].
  exfalso. apply Hout. unfold find in E.
  destruct (list_find _ (Cart.items (get env w).1)) as [[i x']|] eqn:E';
    [|done].
  simpl in E. injection E as ->.
  apply list_find_Some in E' as (Hx & Hp & _).
  apply bool_decide_eq_true in Hp. apply list_elem_of_fmap. exists x.
  split; [done|]. by eapply list_elem_of_lookup_2.
Qed.

Lemma removeProduct_gone {R} (env : Env R) (productId : Z) (w : World) :
  cart_store_distinct w → storage_usable (storage w) →
  let result := (removeProduct env productId w).1 in
  (productId ∉ product_ids (Cart.items result))
  ∧ (hasProduct env productId (removeProduct env productId w).2).1 = false
  ∧ (productId ∉ product_ids (Cart.items (get env w).1) →
     removeProduct env productId w = get env w).
Proof.
  intros Hd Hu result.
  pose proof (get_distinct env w Hd) as Hnd.
  assert (∀ w', (hasProduct env productId w').1
                = some (λ item, bool_decide
                          (Product.id (CartItem.product item) = productId))
                    (Cart.items (get env w').1)) as Hhas by done.
  destruct (find (λ item, bool_decide
                    (Product.id (CartItem.product item) = productId))
                 (Cart.items (get env w).1)) as [x|] eqn:E.
  - assert (removeProduct env productId w
            = removeItem env (CartItem.id x) (get env w).2) as Heq.
    { unfold removeProduct. run_goal. by rewrite E. }
    unfold result. rewrite Heq.
    unfold find in E.
    destruct (list_find _ (Cart.items (get env w).1)) as [[i x']|] eqn:E';
      [|done].
    simpl in E. injection E as ->.
    apply list_find_Some in E' as (Hx & Hp & _).
    apply bool_decide_eq_true in Hp.
    apply list_elem_of_lookup_2 in Hx.
    destruct (removeItem_shape env (CartItem.id x) (get env w).2)
      as (Hi & _ & _ & Hs).
    rewrite cart_get_get_items in Hi.
    assert (productId
            ∉ product_ids
                (Cart.items (removeItem env (CartItem.id x) (get env w).2).1))
      as Hgone.
    { rewrite Hi. unfold product_ids.
      intros (y & Hy & [Hid Hin]%list_elem_of_filter)%list_elem_of_fmap.
      apply Hid. f_equal.
      apply (NoDup_fmap_eq _ _ _ _ Hnd Hin Hx). congruence. }
    split_and!; [done| |].
    + rewrite Hhas.
      assert ((get env (removeItem env (CartItem.id x) (get env w).2).2).1
              = (removeItem env (CartItem.id x) (get env w).2).1) as ->.
      { destruct Hs as [Hnoop|[_ Hs]].
        - exfalso.
          assert (x ∈ filter (λ item, CartItem.id item ≠ CartItem.id x)
                        (Cart.items (get env w).1)) as Hin.
          { rewrite <- Hi, Hnoop, cart_get_get_items. done. }
          by apply list_elem_of_filter in Hin as [? _].
        - apply cart_get_stored. rewrite Hs.
          destruct (cart_get_world env w) as (-> & _).
          by apply set_usable_item. }
      apply some_false, Forall_forall. intros y Hy Hb.
      apply bool_decide_eq_true in Hb. apply Hgone.
      apply list_elem_of_fmap. by exists y.
    + intros Hout. exfalso. apply Hout. apply list_elem_of_fmap.
      by exists x.
  - assert (removeProduct env productId w = get env w) as Heq.
    { unfold removeProduct. run_goal. rewrite E. by destruct (get env w). }
    unfold result. rewrite Heq.
    apply find_findIndex, findIndex_None in E.
    assert (productId ∉ product_ids (Cart.items (get env w).1)) as Hout.
    { unfold product_ids. intros (y & -> & Hy)%list_elem_of_fmap.
      rewrite Forall_forall in E. apply (E y Hy).
      by apply bool_decide_eq_true_2. }
    split_and!; [done| |done].
    rewrite Hhas, cart_get_get_items. by apply some_false.
Qed.

(** X18: [removeProduct] on a product the cart does not hold is [get],
    whatever the store.  On one it holds, with a working store and one entry
    per product, the product is gone from the cart returned and from what
    [hasProduct] reads next. *)
Theorem removeProduct_removes_the_product {R} (env : Env R) (productId : Z)
    (w : World) :
  (productId ∉ product_ids (Cart.items (get env w).1) →
   removeProduct env productId w = get env w)
  ∧ (cart_store_distinct w → storage_usable (storage w) →
     (productId
      ∉ product_ids (Cart.items (removeProduct env productId w).1))
     ∧ (hasProduct env productId (removeProduct env productId w).2).1
       = false).
Proof.
  split; [apply removeProduct_absent_is_get|].
  intros Hd Hu.
  by destruct (removeProduct_gone env productId w Hd Hu) as (? & ? & _).
Qed.

Lemma removeProduct_removes_the_product_witness :
  let w := (addItem Sample.cart_env Sample.pen 1
              (addItem Sample.cart_env Sample.book 2 fresh).2).2 in
  (hasProduct Sample.cart_env 1 (removeProduct Sample.cart_env 1 w).2).1
  = false.
Proof.
  intros w.
  destruct (removeProduct_removes_the_product Sample.cart_env 1 w)
    as (_ & H).
  destruct H as (_ & H); [| |exact H].
  - intros cart [= <-]. vm_compute.
    repeat constructor; intros H; inversion H as [|? ? ? H']; inversion H'.
  - split; reflexivity.
Defined.

(** X28: a stored cart keeps its identity: whatever [addItem], [removeItem]
    and [updateItemQuantity] do to its entries, the cart they return has the
    id and the creation time of the cart in the store. Only [clear] starts a
    new cart. *)
Theorem mutations_keep_the_cart_identity {R} (env : Env R) (m : Mutation)
    (w : World) (cart : Cart.t) :
  BrowserStorage.get (storage w) = Some cart → m ≠ Clear →
  Cart.id (call env m w).1 = Cart.id cart
  ∧ Cart.created_at (call env m w).1 = Cart.created_at cart.
Proof.
  intros Hg Hm. rewrite <- (cart_get_stored env w cart Hg).
  destruct m as [p q|itemId|itemId q|]; unfold call; [| | |done].
  - by destruct (addItem_shape env p q w) as (_ & ? & ? & _).
  - by destruct (removeItem_shape env itemId w) as (_ & ? & ? & _).
  - destruct (decide (q ≤ 0)) as [Hq|Hq].
    + unfold updateItemQuantity. rewrite decide_True by done.
      by destruct (removeItem_shape env itemId w) as (_ & ? & ? & _).
    + by destruct (updateItemQuantity_shape env itemId q w) as (? & ? & _);
        [lia|].
Qed.

Lemma mutations_keep_the_cart_identity_witness :
  let w := (addItem Sample.cart_env Sample.book 2 fresh).2 in
  Cart.id (call Sample.cart_env (AddItem Sample.pen 1) w).1
  = Cart.id (addItem Sample.cart_env Sample.book 2 fresh).1.
Proof.
  intros w.
  by destruct (mutations_keep_the_cart_identity Sample.cart_env
                 (AddItem Sample.pen 1) w
                 (addItem Sample.cart_env Sample.book 2 fresh).1)
    as [H _].
Defined.
End CartMore.

(** ** The remote cart *)

Module RemoteCartFacts.
Import RemoteCartResource.

Lemma recalculated_consistent (current : RemoteCart.t)
    (items : list CartLineItem.t) :
  consistent (CartInput.data (recalculated current items))
  ∧ CartData.items (CartInput.data (recalculated current items)) = items
  ∧ CartInput.user_id (recalculated current items)
    = RemoteCart.user_id current
  ∧ CartInput.session_id (recalculated current items)
    = RemoteCart.session_id current.
Proof.
  split_and!; [|done..]. split; simpl; rewrite reduce_sum; lia.
Qed.

Lemma edit_requests (env : Env) (cartId : string) (e : Edit)
    (rq : list Request) :
  (edit env cartId e rq).2 = rq ++ [GET ("/carts/" +:+ cartId)]
  ∧ ((edit env cartId e rq).1 = Rejected ∨ (edit env cartId e rq).1 = error)
  ∨ ∃ current items,
      reply env (length rq) = Resolved {| state_ok := true;
                                          result := Some current |}
      ∧ (edit env cartId e rq).2
        = rq ++ [GET ("/carts/" +:+ cartId);
                 PUT ("/carts/" +:+ cartId) (recalculated current items)]
      ∧ (edit env cartId e rq).1 = reply env (S (length rq)).
Proof.
  assert (∀ response current, usable response = Some current →
            response = {| state_ok := true; result := Some current |}) as Hu.
  { intros [[] [c|]] current; unfold usable; simpl; congruence. }
  assert (∀ x, length (rq ++ [x]) = S (length rq)) as Hlen
    by (intros x; rewrite length_app; simpl; lia).
  destruct e as [p v q price|p v|p v q]; unfold edit.
  - unfold addItemToRemoteCart, updateRemoteCart, client_put, client_get.
    run_goal. destruct (reply env (length rq)) as [|response] eqn:E; simpl;
      [by left; auto|].
    destruct (usable response) as [current|] eqn:Eu; simpl;
      [|by left; auto].
    right. exists current. eexists. rewrite (Hu _ _ Eu).
    split; [done|]. rewrite Hlen, <- app_assoc. done.
  - unfold removeItemFromRemoteCart, updateRemoteCart, client_put,
      client_get.
    run_goal. destruct (reply env (length rq)) as [|response] eqn:E; simpl;
      [by left; auto|].
    destruct (usable response) as [current|] eqn:Eu; simpl;
      [|by left; auto].
    right. exists current. eexists. rewrite (Hu _ _ Eu).
    split; [done|]. rewrite Hlen, <- app_assoc. done.
  - unfold updateItemQuantityInRemoteCart. case_decide.
    + unfold removeItemFromRemoteCart, updateRemoteCart, client_put,
        client_get.
      run_goal. destruct (reply env (length rq)) as [|response] eqn:E; simpl;
        [by left; auto|].
      destruct (usable response) as [current|] eqn:Eu; simpl;
        [|by left; auto].
      right. exists current. eexists. rewrite (Hu _ _ Eu).
      split; [done|]. rewrite Hlen, <- app_assoc. done.
    + unfold updateRemoteCart, client_put, client_get.
      run_goal. destruct (reply env (length rq)) as [|response] eqn:E; simpl;
        [by left; auto|].
      destruct (usable response) as [current|] eqn:Eu; simpl;
        [|by left; auto].
      destruct (findIndex _ _) as [i|]; simpl; [|by left; auto].
      right. exists current. eexists. rewrite (Hu _ _ Eu).
      split; [done|]. rewrite Hlen, <- app_assoc. done.
Qed.

(** X19: whatever the backend answers, an edit of a remote cart sends the
    fetch of that cart and at most one update after it, to the same path;
    the update carries the owner of the cart fetched and totals recomputed
    from the lines it sends, whatever totals the backend had stored. *)
Theorem remote_edit_sends_consistent_totals (env : Env) (cartId : string)
    (e : Edit) (rq : list Request) :
  (edit env cartId e rq).2 = rq ++ [GET ("/carts/" +:+ cartId)]
  ∨ ∃ current input,
      reply env (length rq) = Resolved {| state_ok := true;
                                          result := Some current |}
      ∧ (edit env cartId e rq).2
        = rq ++ [GET ("/carts/" +:+ cartId);
                 PUT ("/carts/" +:+ cartId) input]
      ∧ consistent (CartInput.data input)
      ∧ CartInput.user_id input = RemoteCart.user_id current
      ∧ CartInput.session_id input = RemoteCart.session_id current
      ∧ (edit env cartId e rq).1 = reply env (S (length rq)).
Proof.
  destruct (edit_requests env cartId e rq)
    as [[H _]|(current & items & Hr & Hrq & Hres)]; [by left|].
  right. exists current, (recalculated current items).
  destruct (recalculated_consistent current items) as (? & _ & ? & ?).
  done.
Qed.

Lemma remote_edit_sends_consistent_totals_witness :
  ∃ input,
    (edit Scenario.remote_env "c1" (RemoveItem 2 2) []).2
    = [GET "/carts/c1"; PUT "/carts/c1" input]
    ∧ CartData.total (CartInput.data input) = 20
    ∧ CartData.quantity (CartInput.data input) = 2.
Proof.
  destruct (remote_edit_sends_consistent_totals Scenario.remote_env "c1"
              (RemoveItem 2 2) [])
    as [H|(current & input & _ & H & _)]; [discriminate H|].
  exists input. split; [exact H|].
  injection H as <-. split; reflexivity.
Defined.

(** X20: [addItemToRemoteCart] on a line the remote cart holds adds to the
    quantity of that line and keeps its unit price, whatever price the
    caller passes; no line is added, and the totals sent grow by the
    quantity at the stored unit price. *)
Theorem addItemToRemoteCart_keeps_the_unit_price (env : Env)
    (cartId : string) (productId variantId quantity price : Z)
    (rq : list Request) (current : RemoteCart.t)
    (before after : list CartLineItem.t) (old : CartLineItem.t) :
  reply env (length rq)
  = Resolved {| state_ok := true; result := Some current |} →
  CartData.items (RemoteCart.data current) = before ++ old :: after →
  same_line productId variantId old = true →
  Forall (λ item, same_line productId variantId item = false) before →
  ∃ input,
    (addItemToRemoteCart env cartId productId variantId quantity price rq).2
    = rq ++ [GET ("/carts/" +:+ cartId); PUT ("/carts/" +:+ cartId) input]
    ∧ CartData.items (CartInput.data input)
      = before
        ++ {| CartLineItem.product_id := CartLineItem.product_id old;
              CartLineItem.variant_id := CartLineItem.variant_id old;
              CartLineItem.quantity := CartLineItem.quantity old + quantity;
              CartLineItem.unit_price := CartLineItem.unit_price old;
              CartLineItem.product := CartLineItem.product old |} :: after
    ∧ CartData.quantity (CartInput.data input)
      = foldr (λ item acc, CartLineItem.quantity item + acc) 0
          (CartData.items (RemoteCart.data current)) + quantity
    ∧ CartData.total (CartInput.data input)
      = foldr (λ item acc, CartLineItem.unit_price item
                           * CartLineItem.quantity item + acc) 0
          (CartData.items (RemoteCart.data current))
        + CartLineItem.unit_price old * quantity.
Proof.
  intros Hr Hitems Hold Hbefore.
  assert (findIndex (same_line productId variantId)
            (CartData.items (RemoteCart.data current))
          = Some (length before)) as Hfind.
  { rewrite Hitems. apply findIndex_app_first; [|done].
    eapply Forall_impl; [exact Hbefore|]. simpl. intros x ->. done. }
  unfold addItemToRemoteCart, updateRemoteCart, client_put, client_get.
  run_goal. rewrite Hr. simpl. rewrite Hfind, Hitems.
  replace (length before) with (length before + 0)%nat by lia.
  rewrite alter_app_r. simpl.
  eexists. split; [by rewrite <- app_assoc|]. simpl.
  split; [done|]. rewrite !reduce_sum, !foldr_app. simpl.
  generalize (foldr (λ item acc, CartLineItem.quantity item + acc) 0 after).
  generalize (foldr (λ item acc, CartLineItem.unit_price item
                                 * CartLineItem.quantity item + acc) 0 after).
  intros a b. clear. 
  induction before as [|x l [IH1 IH2]]; simpl; [split; lia|].
  split; lia.
Qed.

Lemma addItemToRemoteCart_keeps_the_unit_price_witness :
  ∃ input,
    (addItemToRemoteCart Scenario.remote_env "c1" 2 2 3 99 []).2
    = [GET "/carts/c1"; PUT "/carts/c1" input]
    ∧ CartData.total (CartInput.data input) = 25 + 5 * 3.
Proof.
  destruct (addItemToRemoteCart_keeps_the_unit_price Scenario.remote_env
              "c1" 2 2 3 99 [] Scenario.remote_cart
              [{| CartLineItem.product_id := 1; CartLineItem.variant_id := 1;
                  CartLineItem.quantity := 2; CartLineItem.unit_price := 10;
                  CartLineItem.product := None |}] []
              {| CartLineItem.product_id := 2; CartLineItem.variant_id := 2;
                 CartLineItem.quantity := 1; CartLineItem.unit_price := 5;
                 CartLineItem.product := None |})
    as (input & H1 & _ & _ & H2);
    [reflexivity|reflexivity|reflexivity|by repeat constructor|].
  exists input. split; [exact H1|exact H2].
Defined.

(** X21: an edit gives up after the fetch when the fetch fails: a rejected
    fetch rejects the edit, and an answer that is not [ok] or carries no
    cart makes it an error; in both cases no update is sent. A positive
    [updateItemQuantityInRemoteCart] also gives up when the cart has no such
    line, where [removeItemFromRemoteCart] sends the lines back as they are.
    *)
Theorem remote_edit_gives_up_without_update (env : Env) (cartId : string)
    (rq : list Request) :
  (∀ e, reply env (length rq) = Rejected →
        edit env cartId e rq
        = (Rejected, rq ++ [GET ("/carts/" +:+ cartId)]))
  ∧ (∀ e response,
       reply env (length rq) = Resolved response →
       usable response = None →
       edit env cartId e rq = (error, rq ++ [GET ("/carts/" +:+ cartId)]))
  ∧ (∀ current productId variantId quantity,
       reply env (length rq)
       = Resolved {| state_ok := true; result := Some current |} →
       Forall (λ item, same_line productId variantId item = false)
              (CartData.items (RemoteCart.data current)) →
       0 < quantity →
       updateItemQuantityInRemoteCart env cartId productId variantId
         quantity rq
       = (error, rq ++ [GET ("/carts/" +:+ cartId)])
       ∧ (removeItemFromRemoteCart env cartId productId variantId rq).2
         = rq ++ [GET ("/carts/" +:+ cartId);
                  PUT ("/carts/" +:+ cartId)
                    (recalculated current
                       (CartData.items (RemoteCart.data current)))]).
Proof.
  split_and!.
  - intros e Hr.
    destruct e as [p v q price|p v|p v q]; unfold edit;
      [|
       |unfold updateItemQuantityInRemoteCart; case_decide];
      unfold addItemToRemoteCart, removeItemFromRemoteCart, updateRemoteCart,
        client_put, client_get; run_goal; by rewrite Hr.
  - intros e response Hr Hu.
    destruct e as [p v q price|p v|p v q]; unfold edit;
      [|
       |unfold updateItemQuantityInRemoteCart; case_decide];
      unfold addItemToRemoteCart, removeItemFromRemoteCart, updateRemoteCart,
        client_put, client_get; run_goal; rewrite Hr; simpl; by rewrite Hu.
  - intros current p v q Hr Hnone Hq. split.
    + unfold updateItemQuantityInRemoteCart. rewrite decide_False by lia.
      unfold client_get. run_goal. rewrite Hr. simpl.
      assert (findIndex (same_line p v)
                (CartData.items (RemoteCart.data current)) = None) as ->; [|done].
      apply findIndex_None. eapply Forall_impl; [exact Hnone|].
      simpl. by intros x ->.
    + unfold removeItemFromRemoteCart, updateRemoteCart, client_put,
        client_get. run_goal. rewrite Hr. simpl.
      assert (filter (λ item, same_line p v item = false)
                (CartData.items (RemoteCart.data current))
              = CartData.items (RemoteCart.data current)) as ->.
      { induction Hnone as [|x l Hx Hl IH]; [done|].
        by rewrite filter_cons_True, IH. }
      by rewrite <- app_assoc.
Qed.

Lemma remote_edit_gives_up_without_update_witness :
  edit Scenario.failing_env "c1" (AddItem 1 1 1 10) []
  = (Rejected, [GET "/carts/c1"]).
Proof.
  destruct (remote_edit_gives_up_without_update Scenario.failing_env "c1" [])
    as (H & _).
  by apply H.
Defined.
End RemoteCartFacts.

(** ** The wishlist, continued *)

Module WishlistMore.
Import WishlistResource WishlistFacts WishlistAccessors.

Section SortFacts.
Context {A : Type}.
Variable compareFn : A → A → Z.

Lemma sort_insert_perm (x : A) (l : list A) :
  sort_insert compareFn x l ≡ₚ x :: l.
Proof.
  induction l as [|y l IH]; simpl; [done|].
  case_decide; [done|]. rewrite IH. apply Permutation_swap.
Qed.

Lemma sort_by_perm (l : list A) : sort_by compareFn l ≡ₚ l.
Proof.
  unfold sort_by. induction l as [|x l IH]; simpl; [done|].
  by rewrite sort_insert_perm, IH.
Qed.

Hypothesis total : ∀ a b, compareFn a b ≤ 0 ∨ compareFn b a ≤ 0.
Hypothesis trans : ∀ a b c,
  compareFn a b ≤ 0 → compareFn b c ≤ 0 → compareFn a c ≤ 0.

Lemma sort_insert_sorted (x : A) (l : list A) :
  StronglySorted (λ a b, compareFn a b ≤ 0) l →
  StronglySorted (λ a b, compareFn a b ≤ 0) (sort_insert compareFn x l).
Proof.
  induction 1 as [|y l Hl IH Hy]; simpl.
  - repeat constructor.
  - case_decide as Hxy.
    + constructor; [by constructor|]. constructor; [done|].
      eapply Forall_impl; [exact Hy|]. simpl. intros z Hz. by eapply trans.
    + constructor; [done|].
      rewrite sort_insert_perm. constructor; [|done].
      destruct (total x y); [done|done].
Qed.

Lemma sort_by_sorted (l : list A) :
  StronglySorted (λ a b, compareFn a b ≤ 0) (sort_by compareFn l).
Proof.
  unfold sort_by. induction l as [|x l IH]; simpl; [constructor|].
  by apply sort_insert_sorted.
Qed.
End SortFacts.

Lemma sorted_weaken {A} (R R' : A → A → Prop) (l : list A) :
  (∀ a b, R a b → R' a b) → StronglySorted R l → StronglySorted R' l.
Proof.
  intros HR. induction 1 as [|x l Hl IH Hx]; constructor; [done|].
  eapply Forall_impl; [exact Hx|]. simpl. auto.
Qed.

Lemma sort_by_ext {A} (f g : A → A → Z) (l : list A) :
  (∀ a b, f a b = g a b) → sort_by f l = sort_by g l.
Proof.
  intros Hfg. unfold sort_by. induction l as [|x l IH]; simpl; [done|].
  rewrite IH. generalize (foldr (sort_insert g) [] l). intros l'.
  induction l' as [|y l' IH']; simpl; [done|]. by rewrite Hfg, IH'.
Qed.

Section WishlistSort.
Variable env : Env.

Lemma sort_shape
    (compareFn : option (WishlistItem.t → WishlistItem.t → Z)) (w : World) :
  let result := (sort env compareFn w).1 in
  Wishlist.items result
  = sort_by (default (λ a b, WishlistItem.added_at b - WishlistItem.added_at a)
                     compareFn)
            (Wishlist.items (get env w).1)
  ∧ wishlist_pure result
  ∧ storage (sort env compareFn w).2
    = (BrowserStorage.set (storage (get env w).2) result).2
  ∧ requests (sort env compareFn w).2
    = requests (get env w).2
      ++ match owner w with
         | Some u => [POST "/generis" ("wishlist_" +:+ pretty u)
                           wishlistKind result]
         | None => []
         end.
Proof.
  intros result. unfold result, sort. run_goal.
  destruct (wishlist_get_world env w) as (Hu & _).
  match goal with
  | |- context [saveToRemote ?a ?b] =>
      destruct (saveToRemote_world a b) as (-> & _);
      assert (requests (saveToRemote a b).2
              = requests b ++ match owner b with
                              | Some u => [POST "/generis"
                                             ("wishlist_" +:+ pretty u)
                                             wishlistKind a]
                              | None => []
                              end) as ->
  end.
  { unfold saveToRemote, this_owner. run_goal.
    destruct (owner _); simpl; [done|by rewrite app_nil_r]. }
  simpl. rewrite (owner_userId w) by done.
  split_and!; [by destruct compareFn|apply meta_pure|done|done].
Qed.
End WishlistSort.

(** X22: every sort of the wishlist returns the entries it read, reordered:
    none is lost, added or repeated, and the count recorded is their number.
    The result is written to the local store, published to no listener, and
    sent to the backend once when an owner is set. *)
Theorem sort_permutes_the_entries (env : Env) (s : Sort) (w : World) :
  Wishlist.items (call_sort env s w).1 ≡ₚ Wishlist.items (get env w).1
  ∧ wishlist_pure (call_sort env s w).1
  ∧ storage (call_sort env s w).2
    = (BrowserStorage.set (storage (get env w).2) (call_sort env s w).1).2
  ∧ emitted (call_sort env s w).2 = emitted w
  ∧ requests (call_sort env s w).2
    = requests (get env w).2
      ++ match owner w with
         | Some u => [POST "/generis" ("wishlist_" +:+ pretty u)
                           wishlistKind (call_sort env s w).1]
         | None => []
         end.
Proof.
  assert (∀ compareFn,
    Wishlist.items (sort env compareFn w).1 ≡ₚ Wishlist.items (get env w).1
    ∧ wishlist_pure (sort env compareFn w).1
    ∧ storage (sort env compareFn w).2
      = (BrowserStorage.set (storage (get env w).2)
           (sort env compareFn w).1).2
    ∧ emitted (sort env compareFn w).2 = emitted w
    ∧ requests (sort env compareFn w).2
      = requests (get env w).2
        ++ match owner w with
           | Some u => [POST "/generis" ("wishlist_" +:+ pretty u)
                             wishlistKind (sort env compareFn w).1]
           | None => []
           end) as H.
  { intros compareFn.
    destruct (sort_shape env compareFn w) as (Hi & Hp & Hs & Hr).
    split_and!; [|done|done|apply sort_emitted|done].
    rewrite Hi. apply sort_by_perm. }
  destruct s; unfold call_sort, sortByName, sortByPrice, sortByDateAdded;
    apply H.
Qed.

(** X23: [sortByPrice] and [sortByDateAdded] leave the entries in the order
    asked for, ascending or descending, and a [sort] without a comparator is
    [sortByDateAdded] descending: newest first. *)
Theorem sorts_order_the_entries (env : Env) (ascending : bool) (w : World) :
  StronglySorted
    (λ a b, if ascending
            then Product.price (WishlistItem.product a)
                 ≤ Product.price (WishlistItem.product b)
            else Product.price (WishlistItem.product b)
                 ≤ Product.price (WishlistItem.product a))
    (Wishlist.items (sortByPrice env ascending w).1)
  ∧ StronglySorted
      (λ a b, if ascending
              then WishlistItem.added_at a ≤ WishlistItem.added_at b
              else WishlistItem.added_at b ≤ WishlistItem.added_at a)
      (Wishlist.items (sortByDateAdded env ascending w).1)
  ∧ sort env None w = sortByDateAdded env false w.
Proof.
  split_and!.
  - unfold sortByPrice.
    match goal with
    | |- context [sort env ?c w] =>
        destruct (sort_shape env c w) as (-> & _)
    end.
    simpl. eapply sorted_weaken; [|apply sort_by_sorted].
    + intros a b. simpl. destruct ascending; lia.
    + intros a b. destruct ascending; lia.
    + intros a b c. destruct ascending; lia.
  - unfold sortByDateAdded.
    match goal with
    | |- context [sort env ?c w] =>
        destruct (sort_shape env c w) as (-> & _)
    end.
    simpl. eapply sorted_weaken; [|apply sort_by_sorted].
    + intros a b. simpl. destruct ascending; lia.
    + intros a b. destruct ascending; lia.
    + intros a b c. destruct ascending; lia.
  - unfold sortByDateAdded, sort. run_goal.
    rewrite (sort_by_ext
      (λ a b, WishlistItem.added_at b - WishlistItem.added_at a)
      (λ a b, - (WishlistItem.added_at a - WishlistItem.added_at b)))
      by (intros; lia).
    done.
Qed.

(** X24: [syncToRemote] sends the wishlist of the local store to the
    backend, once when an owner is set and not at all otherwise; it fetches
    nothing and leaves the store and the listeners alone. [syncFromRemote]
    is [get]. *)
Theorem sync_pushes_and_pulls (env : Env) (w : World) :
  requests (syncToRemote env w).2
  = requests w
    ++ match owner w with
       | Some u => [POST "/generis" ("wishlist_" +:+ pretty u) wishlistKind
                         (getLocal env w).1]
       | None => []
       end
  ∧ storage (syncToRemote env w).2 = storage w
  ∧ emitted (syncToRemote env w).2 = emitted w
  ∧ fetches (syncToRemote env w).2 = fetches w
  ∧ syncFromRemote env w = get env w.
Proof.
  destruct (getLocal_world env w) as (Hs & Hu & _ & Hf & He & Hr).
  pose proof (getLocal_owner env w) as Ho.
  unfold syncToRemote. run_goal.
  match goal with
  | |- context [saveToRemote ?a ?b] =>
      destruct (saveToRemote_world a b) as (-> & _ & _ & _ & -> & ->);
      assert (requests (saveToRemote a b).2
              = requests b ++ match owner b with
                              | Some u => [POST "/generis"
                                             ("wishlist_" +:+ pretty u)
                                             wishlistKind a]
                              | None => []
                              end) as ->
  end.
  { unfold saveToRemote, this_owner. run_goal.
    destruct (owner _); simpl; [done|by rewrite app_nil_r]. }
  rewrite Ho, Hr. split_and!; [done..|].
  unfold syncFromRemote, get, getLocal. run_goal.
  by destruct (getRemoteWishlist env w).1.
Qed.

(** X25: the [...Local] accessors never talk to the backend, and they agree
    with each other: a product is held exactly when [getItemLocal] finds an
    entry for it, the wishlist is empty exactly when it counts no entry, and
    [getProductsLocal] lists one product per entry. Without an owner every
    accessor is its [...Local] twin. *)
Theorem local_accessors_stay_local (env : Env) (productId : Z) (w : World) :
  requests (hasProductLocal env productId w).2 = requests w
  ∧ requests (getItemLocal env productId w).2 = requests w
  ∧ requests (isEmptyLocal env w).2 = requests w
  ∧ requests (getItemCountLocal env w).2 = requests w
  ∧ requests (getProductsLocal env w).2 = requests w
  ∧ ((hasProductLocal env productId w).1 = true
     ↔ is_Some (getItemLocal env productId w).1)
  ∧ ((isEmptyLocal env w).1 = true ↔ (getItemCountLocal env w).1 = 0%nat)
  ∧ length (getProductsLocal env w).1 = (getItemCountLocal env w).1
  ∧ (owner w = None →
     hasProduct env productId w = hasProductLocal env productId w
     ∧ getItem env productId w = getItemLocal env productId w
     ∧ isEmpty env w = isEmptyLocal env w
     ∧ getItemCount env w = getItemCountLocal env w
     ∧ getProducts env w = getProductsLocal env w).
Proof.
  destruct (getLocal_world env w) as (_ & _ & _ & _ & _ & Hr).
  split_and!; [exact Hr..| | | |].
  - change ((hasProductLocal env productId w).1)
      with (wishes productId (Wishlist.items (getLocal env w).1)).
    change ((getItemLocal env productId w).1)
      with (find (λ item, bool_decide
              (Product.id (WishlistItem.product item) = productId))
              (Wishlist.items (getLocal env w).1)).
    split.
    + intros (x & -> & _)%find_wished. by eexists.
    + intros [x Hx]. destruct (wishes _ _) eqn:E; [done|].
      unfold wishes in E. apply some_false, findIndex_None, find_findIndex in E.
      congruence.
  - change ((isEmptyLocal env w).1)
      with (bool_decide (length (Wishlist.items (getLocal env w).1) = 0%nat)).
    apply bool_decide_eq_true.
  - change ((getProductsLocal env w).1)
      with (WishlistItem.product <$> Wishlist.items (getLocal env w).1).
    apply length_fmap.
  - intros Ho.
    unfold hasProduct, getItem, isEmpty, getItemCount, getProducts,
      hasProductLocal, getItemLocal, isEmptyLocal, getItemCountLocal,
      getProductsLocal, mbind, State_bind.
    by rewrite (get_no_owner env w Ho).
Qed.

Lemma local_accessors_stay_local_witness :
  hasProduct (Sample.wishlist_env Rejected) 1 (Sample.seeded None)
  = hasProductLocal (Sample.wishlist_env Rejected) 1 (Sample.seeded None).
Proof.
  destruct (local_accessors_stay_local (Sample.wishlist_env Rejected) 1
              (Sample.seeded None)) as (_ & _ & _ & _ & _ & _ & _ & _ & H).
  by destruct H as (H & _).
Defined.

Section WishlistDistinct.
Variable env : Env.

Lemma clear_local_only (w : World) :
  local_only env w →
  Wishlist.items (clear env w).1 = []
  ∧ stored_items (clear env w).2 = []
  ∧ local_only env (clear env w).2.
Proof.
  intros Hl. pose proof Hl as [Hsil Hus].
  assert (storage (clear env w).2
          = (BrowserStorage.set (storage w) (clear env w).1).2
          ∧ userId (clear env w).2 = userId w) as [Hst Hu].
  { unfold clear, createEmptyWishlist. run_goal.
    match goal with
    | |- context [saveToRemote ?a ?b] =>
        by destruct (saveToRemote_world a b) as (-> & -> & _)
    end. }
  destruct (set_usable (storage w) (clear env w).1 Hus) as [Hus' Hit].
  split_and!; [done| |].
  - unfold stored_items. by rewrite Hst, Hit.
  - apply (local_only_after env w); [done|by rewrite Hst|done].
Qed.

Lemma removeProduct_absent_local_only (productId : Z) (w : World) :
  local_only env w → wishes productId (stored_items w) = false →
  removeProduct env productId w = get env w.
Proof.
  intros Hl Hw. destruct (get_local_only env w Hl) as (Hi & _).
  unfold removeProduct. run_goal. rewrite Hi.
  assert (find (λ item, bool_decide
            (Product.id (WishlistItem.product item) = productId))
            (stored_items w) = None) as ->.
  { apply find_findIndex, findIndex_None, some_false. exact Hw. }
  by destruct (get env w).
Qed.

Lemma wished_ids_filter (P : WishlistItem.t → Prop) `{∀ x, Decision (P x)}
    (items : list WishlistItem.t) :
  NoDup (wished_ids items) → NoDup (wished_ids (filter P items)).
Proof.
  unfold wished_ids. induction items as [|x l IH]; [done|].
  rewrite fmap_cons. intros [Hx Hl]%NoDup_cons.
  destruct (decide (P x)).
  - rewrite filter_cons_True by done. rewrite fmap_cons.
    apply NoDup_cons. split; [|by apply IH].
    intros (y & Hy & [_ Hin]%list_elem_of_filter)%list_elem_of_fmap.
    apply Hx. apply list_elem_of_fmap. by exists y.
  - rewrite filter_cons_False by done. by apply IH.
Qed.

Lemma wished_ids_app_new (items : list WishlistItem.t)
    (entry : WishlistItem.t) :
  NoDup (wished_ids items) →
  wishes (Product.id (WishlistItem.product entry)) items = false →
  NoDup (wished_ids (items ++ [entry])).
Proof.
  intros Hnd Hw. unfold wished_ids. rewrite fmap_app.
  apply NoDup_app. split_and!; [done| |apply NoDup_singleton].
  intros x (y & Hx & Hy)%list_elem_of_fmap Hin.
  apply list_elem_of_singleton in Hin. simpl in Hin. subst x.
  rewrite wishes_false in Hw. by apply (Hw y).
Qed.

Lemma addItem_distinct (product : Product.t) (w : World) :
  local_only env w → NoDup (wished_ids (stored_items w)) →
  NoDup (wished_ids (Wishlist.items (addItem env product w).1))
  ∧ NoDup (wished_ids (stored_items (addItem env product w).2))
  ∧ local_only env (addItem env product w).2.
Proof.
  intros Hl Hnd. pose proof (addItem_local_only env product w Hl) as Ha.
  cbv zeta in Ha.
  destruct (wishes (Product.id product) (stored_items w)) eqn:Hw.
  - destruct Ha as (-> & -> & _ & ?). done.
  - destruct Ha as (entry & Hp & Hi & -> & _ & ?). rewrite Hi.
    assert (NoDup (wished_ids (stored_items w ++ [entry]))); [|done].
    apply wished_ids_app_new; [done|]. by rewrite Hp.
Qed.

Lemma removeProduct_distinct (productId : Z) (w : World) :
  local_only env w → NoDup (wished_ids (stored_items w)) →
  NoDup (wished_ids (Wishlist.items (removeProduct env productId w).1))
  ∧ NoDup (wished_ids (stored_items (removeProduct env productId w).2))
  ∧ local_only env (removeProduct env productId w).2.
Proof.
  intros Hl Hnd.
  destruct (wishes productId (stored_items w)) eqn:Hw.
  - destruct (removeProduct_local_only env productId w Hl Hw)
      as (x & _ & _ & Hi & -> & _ & ?).
    rewrite Hi. split_and!; [by apply wished_ids_filter..|done].
  - rewrite (removeProduct_absent_local_only productId w Hl Hw).
    destruct (get_local_only env w Hl) as (-> & Hs & _ & ?).
    unfold stored_items at 2. rewrite Hs. done.
Qed.

Lemma wishlist_call_distinct (m : Mutation) (w : World) :
  local_only env w → NoDup (wished_ids (stored_items w)) →
  NoDup (wished_ids (Wishlist.items (call env m w).1))
  ∧ NoDup (wished_ids (stored_items (call env m w).2))
  ∧ local_only env (call env m w).2.
Proof.
  intros Hl Hnd. destruct m as [p|itemId|productId|p|]; unfold call.
  - by apply addItem_distinct.
  - destruct (removeItem_local_only env itemId w Hl) as (Hi & -> & _ & ?).
    rewrite Hi. split_and!; [by apply wished_ids_filter..|done].
  - by apply removeProduct_distinct.
  - pose proof (toggleProduct_local_only env p w Hl) as Ht. cbv zeta in Ht.
    change ((r ← toggleProduct env p; mret r.1) w)
      with ((toggleProduct env p w).1.1, (toggleProduct env p w).2).
    cbn [fst snd].
    destruct (wishes (Product.id p) (stored_items w)) eqn:Hw.
    + destruct Ht as (x & _ & _ & _ & Hi & -> & _ & ?).
      rewrite Hi. split_and!; [by apply wished_ids_filter..|done].
    + destruct Ht as (entry & Hp & _ & Hi & -> & _ & ?). rewrite Hi.
      assert (NoDup (wished_ids (stored_items w ++ [entry]))); [|done].
      apply wished_ids_app_new; [done|]. by rewrite Hp.
  - destruct (clear_local_only w Hl) as (-> & -> & ?).
    split_and!; [constructor..|done].
Qed.

Lemma wishlist_session_distinct (ms : list Mutation) (w : World) :
  local_only env w → NoDup (wished_ids (stored_items w)) →
  Forall (λ r, NoDup (wished_ids (Wishlist.items r.1))
               ∧ NoDup (wished_ids (stored_items r.2)))
         (session env ms w).
Proof.
  revert w. induction ms as [|m ms IH]; intros w Hl Hnd; simpl;
    [constructor|].
  destruct (wishlist_call_distinct m w Hl Hnd) as (H1 & H2 & H3).
  constructor; [done|]. by apply IH.
Qed.
End WishlistDistinct.

(** X26: while the wishlist works on local state only, it never holds a
    product twice: if the stored wishlist does not, no sequence of
    [addItem], [removeItem], [removeProduct], [toggleProduct] and [clear]
    returns or stores one that does. *)
Theorem wishlist_holds_a_product_once (env : Env) (ms : list Mutation)
    (w : World) :
  local_only env w → NoDup (wished_ids (stored_items w)) →
  Forall (λ r, NoDup (wished_ids (Wishlist.items r.1))
               ∧ NoDup (wished_ids (stored_items r.2)))
         (session env ms w).
Proof. apply wishlist_session_distinct. Qed.

Lemma wishlist_holds_a_product_once_witness :
  Forall (λ r, NoDup (wished_ids (Wishlist.items r.1))
               ∧ NoDup (wished_ids (stored_items r.2)))
    (session (Sample.wishlist_env Rejected)
       [AddItem Sample.book; AddItem Sample.book; ToggleProduct Sample.pen]
       fresh).
Proof.
  apply wishlist_holds_a_product_once.
  - split; [by left|by split].
  - constructor.
Defined.

(** X27: while the wishlist works on local state only, adding a product a
    second time changes nothing: the second [addItem] returns the entries
    the first one left, stores nothing new and publishes no event. *)
Theorem addItem_twice_adds_once (env : Env) (product : Product.t)
    (w : World) :
  local_only env w →
  let first := addItem env product w in
  let second := addItem env product first.2 in
  wishes (Product.id product) (Wishlist.items first.1) = true
  ∧ Wishlist.items second.1 = Wishlist.items first.1
  ∧ stored_items second.2 = stored_items first.2
  ∧ emitted second.2 = emitted first.2.
Proof.
  intros Hl first second.
  pose proof (addItem_local_only env product w Hl) as Ha.
  cbv zeta in Ha. fold first in Ha.
  assert (local_only env first.2
          ∧ stored_items first.2 = Wishlist.items first.1
          ∧ wishes (Product.id product) (Wishlist.items first.1) = true)
    as (Hl1 & Hst & Hw1).
  { destruct (wishes (Product.id product) (stored_items w)) eqn:Hw.
    - destruct Ha as (Hi & Hs & _ & ?). by rewrite Hs, Hi.
    - destruct Ha as (entry & Hp & Hi & Hs & _ & ?).
      split_and!; [done..|]. rewrite Hi. by apply wishes_app_entry. }
  pose proof (addItem_local_only env product first.2 Hl1) as Hb.
  cbv zeta in Hb. fold second in Hb. rewrite Hst, Hw1 in Hb.
  destruct Hb as (Hi & Hs & He & _). by rewrite Hs.
Qed.

Lemma addItem_twice_adds_once_witness :
  let first := addItem (Sample.wishlist_env Rejected) Sample.book fresh in
  let second := addItem (Sample.wishlist_env Rejected) Sample.book first.2 in
  emitted second.2 = emitted first.2.
Proof.
  intros first second.
  destruct (addItem_twice_adds_once (Sample.wishlist_env Rejected)
              Sample.book fresh) as (_ & _ & _ & H); [|exact H].
  split; [by left|by split].
Defined.
End WishlistMore.
